(** * RangefinderMovement: servo positioning firmware for the MSP430F2012

    Shallow embedding of [SW/RangeFinderServo/rf_motor.c] and of the
    positioning part of [SW/RangeFinderServo/pwmtest2.c], followed by the
    properties of the positioning state machine, the software PWM
    generator, the RF envelope qualifier and the command confirmation
    state machine.  The development then covers the routine
    [testButton] that the programs share, the mode selection, the manual
    adjustment and the debug LED of pwmtest2.c, the main loop of
    pwmled.c, and [Read_Temp], [xtoa], [itoa] and [ltoa] of thermo.c.

    Modelling conventions.
    - A C global of type [unsigned short] or [unsigned char] is a field of
      type [Z] of the record [state]; the 16-bit wrap-around of [++] and
      [--] is written out with [u16].
    - The state constants are the [#define]s of the source, kept as
      numbers, so that the [default:] arms of the switches are part of
      the model.
    - The memory-mapped registers written by the code ([P1OUT], [P1IE],
      [P1IFG]) are fields of the state; the input ports are arguments:
      [P1IN] is the byte read by the interrupt routine, and the value
      returned by [testButton(S2_BUTTON)] (a busy-wait on [P2IN]) is a
      boolean argument of the main-loop body.
    - The foreground loop and the two interrupt routines are interleaved
      at the granularity of one loop body or one routine: an execution is
      a list of [event]s, on which no dispatch condition is imposed.
      The interrupts that the hardware serves inside a pass of the main
      loop, between its two switches (while [testButton] waits), are
      not among these executions: module [Fine] takes each switch as an
      event of its own, and what is stated of the trigger [Command]
      between the two switches is stated there.  An interrupt served
      between two statements of a switch is not modelled.
    - A routine that reads a volatile port or register in a loop
      ([testButton], [Read_Temp]) takes the list of the successive
      values read and returns the values left with its result; it
      returns [None] when the list ends before the routine does.
    - The buffer of the string conversions is a list of bytes and a
      pointer is an offset into it; an access outside the list and a
      division by zero are undefined and give [None]. *)

From Stdlib Require Import ZArith List Bool Lia.
Import ListNotations.
Local Open Scope Z_scope.

(** 16-bit wrap-around of [unsigned short] arithmetic. *)
Definition u16 (x : Z) : Z := x mod 65536.

(** Bit masks of the device header [msp430x20x2.h]. *)
Definition BIT0 : Z := 1.
Definition BIT2 : Z := 4.
Definition BIT5 : Z := 32.
Definition BIT6 : Z := 64.

Definition FALSE : Z := 0.
Definition TRUE : Z := 1.

(** C truth value of an integer. *)
Definition nonzero (x : Z) : bool := negb (x =? 0).

Notation "s |> f" := (f s) (at level 45, left associativity, only parsing).

(** ** rf_motor.c *)
Module RfMotor.

Definition TMRVALUE : Z := 160.
Definition PWM1_MAXSTEP : Z := 2000.
Definition PWMINITIALVALUE : Z := 161.
Definition POSIT_START : Z := 161.
Definition POSIT_END : Z := 78.
Definition SPEED : Z := 3000.

Definition COUNTHIGH : Z := 625.
Definition COUNTLOW : Z := 624.
Definition COUNTOLER : Z := 10.

Definition VALIDATE_RF : Z := 10.
Definition WAITEND_RF : Z := 10.
Definition IGNORE_RF : Z := 1000.

Definition PRESCALER : Z := 100.

(** Positioning states. *)
Definition POSIT : Z := 0.
Definition MOVINGUP : Z := 1.
Definition MOVINGDOWN : Z := 2.
Definition WAITINGUP : Z := 3.
Definition WAITINGDOWN : Z := 4.

(** Detection states. *)
Definition IDLE : Z := 0.
Definition DETHIGH : Z := 1.
Definition DETLOW : Z := 2.
Definition DETEND : Z := 3.

(** Confirmation states ([IDLE] is shared with the detection). *)
Definition VALIDATE : Z := 1.
Definition WAITDETEND : Z := 2.
Definition IGNORE : Z := 3.

(** The global variables of the program and the registers it writes. *)
Record state : Type := mkState {
  Pwm1_reach : Z;
  Pwm1_dc : Z;
  Pwm1_cn : Z;
  Pwm1_State : Z;
  Pwm1_delay : Z;
  RfDetState : Z;
  RfDetCounter : Z;
  RfDetected : Z;
  RfDetConfirmSt : Z;
  RfPrescaler : Z;
  RfLongDelay : Z;
  RfShortDelay : Z;
  Command : Z;
  P1OUT : Z;
  P1IE : Z;
  P1IFG : Z
}.

Definition set_Pwm1_reach (v : Z) (s : state) : state :=
  let '(mkState _ dc cn st dl ds ct de cs pr ld sd cm po ie fg) := s in
  mkState v dc cn st dl ds ct de cs pr ld sd cm po ie fg.
Definition set_Pwm1_dc (v : Z) (s : state) : state :=
  let '(mkState re _ cn st dl ds ct de cs pr ld sd cm po ie fg) := s in
  mkState re v cn st dl ds ct de cs pr ld sd cm po ie fg.
Definition set_Pwm1_cn (v : Z) (s : state) : state :=
  let '(mkState re dc _ st dl ds ct de cs pr ld sd cm po ie fg) := s in
  mkState re dc v st dl ds ct de cs pr ld sd cm po ie fg.
Definition set_Pwm1_State (v : Z) (s : state) : state :=
  let '(mkState re dc cn _ dl ds ct de cs pr ld sd cm po ie fg) := s in
  mkState re dc cn v dl ds ct de cs pr ld sd cm po ie fg.
Definition set_Pwm1_delay (v : Z) (s : state) : state :=
  let '(mkState re dc cn st _ ds ct de cs pr ld sd cm po ie fg) := s in
  mkState re dc cn st v ds ct de cs pr ld sd cm po ie fg.
Definition set_RfDetState (v : Z) (s : state) : state :=
  let '(mkState re dc cn st dl _ ct de cs pr ld sd cm po ie fg) := s in
  mkState re dc cn st dl v ct de cs pr ld sd cm po ie fg.
Definition set_RfDetCounter (v : Z) (s : state) : state :=
  let '(mkState re dc cn st dl ds _ de cs pr ld sd cm po ie fg) := s in
  mkState re dc cn st dl ds v de cs pr ld sd cm po ie fg.
Definition set_RfDetected (v : Z) (s : state) : state :=
  let '(mkState re dc cn st dl ds ct _ cs pr ld sd cm po ie fg) := s in
  mkState re dc cn st dl ds ct v cs pr ld sd cm po ie fg.
Definition set_RfDetConfirmSt (v : Z) (s : state) : state :=
  let '(mkState re dc cn st dl ds ct de _ pr ld sd cm po ie fg) := s in
  mkState re dc cn st dl ds ct de v pr ld sd cm po ie fg.
Definition set_RfPrescaler (v : Z) (s : state) : state :=
  let '(mkState re dc cn st dl ds ct de cs _ ld sd cm po ie fg) := s in
  mkState re dc cn st dl ds ct de cs v ld sd cm po ie fg.
Definition set_RfLongDelay (v : Z) (s : state) : state :=
  let '(mkState re dc cn st dl ds ct de cs pr _ sd cm po ie fg) := s in
  mkState re dc cn st dl ds ct de cs pr v sd cm po ie fg.
Definition set_RfShortDelay (v : Z) (s : state) : state :=
  let '(mkState re dc cn st dl ds ct de cs pr ld _ cm po ie fg) := s in
  mkState re dc cn st dl ds ct de cs pr ld v cm po ie fg.
Definition set_Command (v : Z) (s : state) : state :=
  let '(mkState re dc cn st dl ds ct de cs pr ld sd _ po ie fg) := s in
  mkState re dc cn st dl ds ct de cs pr ld sd v po ie fg.
Definition set_P1OUT (v : Z) (s : state) : state :=
  let '(mkState re dc cn st dl ds ct de cs pr ld sd cm _ ie fg) := s in
  mkState re dc cn st dl ds ct de cs pr ld sd cm v ie fg.
Definition set_P1IE (v : Z) (s : state) : state :=
  let '(mkState re dc cn st dl ds ct de cs pr ld sd cm po _ fg) := s in
  mkState re dc cn st dl ds ct de cs pr ld sd cm po v fg.
Definition set_P1IFG (v : Z) (s : state) : state :=
  let '(mkState re dc cn st dl ds ct de cs pr ld sd cm po ie _) := s in
  mkState re dc cn st dl ds ct de cs pr ld sd cm po ie v.

(** The I/O macros: [P1OUT |= BITn] and [P1OUT &= ~BITn]. *)
Definition LED_ON (s : state) : state := set_P1OUT (Z.lor (P1OUT s) BIT0) s.
Definition LED_OFF (s : state) : state :=
  set_P1OUT (Z.land (P1OUT s) (Z.lnot BIT0)) s.
Definition PWM1_ON (s : state) : state := set_P1OUT (Z.lor (P1OUT s) BIT2) s.
Definition PWM1_OFF (s : state) : state :=
  set_P1OUT (Z.land (P1OUT s) (Z.lnot BIT2)) s.
Definition TEST_ON (s : state) : state := set_P1OUT (Z.lor (P1OUT s) BIT5) s.
Definition TEST_OFF (s : state) : state :=
  set_P1OUT (Z.land (P1OUT s) (Z.lnot BIT5)) s.

(** Level of the PWM pin P1.2. *)
Definition pwm_out (s : state) : bool := Z.testbit (P1OUT s) 2.

(** [Init]: the variable part ("Set variables"), with [P1OUT = 0] and the
    P1.6 interrupt enabled.  [Pwm1_delay] is not assigned by [Init]; as a
    C global it starts at zero. *)
Definition Init : state :=
  {| Pwm1_reach := PWMINITIALVALUE;
     Pwm1_dc := PWMINITIALVALUE;
     Pwm1_cn := 0;
     Pwm1_State := POSIT;
     Pwm1_delay := 0;
     RfDetState := IDLE;
     RfDetCounter := 0;
     RfDetected := FALSE;
     RfDetConfirmSt := IDLE;
     RfPrescaler := PRESCALER;
     RfLongDelay := 0;
     RfShortDelay := 0;
     Command := FALSE;
     P1OUT := 0;
     P1IE := BIT6;
     P1IFG := 0 |}.

(** First switch of the main loop: validation of the RF command. *)
Definition confirm_switch (s : state) : state :=
  if RfDetConfirmSt s =? IDLE then
    if nonzero (RfDetected s) && (Pwm1_State s =? POSIT) then
      s |> set_RfLongDelay VALIDATE_RF |> set_RfDetConfirmSt VALIDATE
    else s
  else if RfDetConfirmSt s =? VALIDATE then
    if nonzero (RfDetected s) then
      if negb (nonzero (RfLongDelay s)) then
        s |> LED_ON |> set_RfLongDelay WAITEND_RF
          |> set_RfDetConfirmSt WAITDETEND
      else s
    else s |> set_RfDetConfirmSt IDLE
  else if RfDetConfirmSt s =? WAITDETEND then
    if negb (nonzero (RfDetected s)) then
      if negb (nonzero (RfLongDelay s)) then
        s |> LED_OFF |> set_Command TRUE |> set_RfDetConfirmSt IGNORE
          |> set_RfLongDelay IGNORE_RF
      else s
    else s |> set_RfLongDelay WAITEND_RF
  else if RfDetConfirmSt s =? IGNORE then
    if negb (nonzero (RfLongDelay s)) then
      s |> set_RfDetConfirmSt IDLE |> set_Command FALSE
    else s
  else
    s |> set_RfShortDelay 0 |> set_RfLongDelay 0 |> set_RfDetConfirmSt IDLE.

(** The [POSIT] arm (also the [default:] arm) of the second switch:
    choice of the goal and of the direction. *)
Definition posit_case (s : state) : state :=
  let s1 := set_Command FALSE s in
  let s2 :=
    if Pwm1_dc s1 =? POSIT_START then set_Pwm1_reach POSIT_END s1
    else if Pwm1_dc s1 <? POSIT_START then set_Pwm1_reach POSIT_START s1
    else if Pwm1_dc s1 >? POSIT_START then
      if Pwm1_dc s1 =? POSIT_END then set_Pwm1_reach POSIT_START s1
      else if Pwm1_dc s1 >? POSIT_END then set_Pwm1_reach POSIT_END s1
      else if Pwm1_dc s1 <? POSIT_END then set_Pwm1_reach POSIT_END s1
      else s1
    else s1 in
  if Pwm1_reach s2 >? Pwm1_dc s2 then set_Pwm1_State MOVINGUP s2
  else set_Pwm1_State MOVINGDOWN s2.

(** Second switch of the main loop: the positioning state machine.
    [button] is the value returned by [testButton(S2_BUTTON)]. *)
Definition positioning_switch (button : bool) (s : state) : state :=
  if button || (Command s =? TRUE) || (Pwm1_State s =? MOVINGUP)
     || (Pwm1_State s =? MOVINGDOWN) || (Pwm1_State s =? WAITINGUP)
     || (Pwm1_State s =? WAITINGDOWN)
  then
    if Pwm1_State s =? MOVINGUP then
      if Pwm1_dc s =? Pwm1_reach s then
        s |> set_Command FALSE |> set_Pwm1_State POSIT
      else
        s |> set_Pwm1_State WAITINGUP |> set_Pwm1_delay SPEED
          |> set_Pwm1_dc (u16 (Pwm1_dc s + 1))
    else if Pwm1_State s =? MOVINGDOWN then
      if Pwm1_dc s =? Pwm1_reach s then
        s |> set_Command FALSE |> set_Pwm1_State POSIT
      else
        s |> set_Pwm1_State WAITINGDOWN |> set_Pwm1_delay SPEED
          |> set_Pwm1_dc (u16 (Pwm1_dc s - 1))
    else if Pwm1_State s =? WAITINGUP then
      if Pwm1_delay s =? 0 then set_Pwm1_State MOVINGUP s else s
    else if Pwm1_State s =? WAITINGDOWN then
      if Pwm1_delay s =? 0 then set_Pwm1_State MOVINGDOWN s else s
    else posit_case s
  else s.

(** One pass through the body of [for(;;)] in [main]. *)
Definition main_body (button : bool) (s : state) : state :=
  positioning_switch button (confirm_switch s).

(** The detection switch of [Timer_A]; [p1in] is the value read from
    [P1IN]. *)
Definition detect_switch (p1in : Z) (s : state) : state :=
  if RfDetState s =? DETHIGH then
    let s1 := TEST_ON s in
    let s2 :=
      if nonzero (Z.land p1in BIT6) then
        if RfDetCounter s1 <? COUNTHIGH then
          set_RfDetCounter (u16 (RfDetCounter s1 + 1)) s1
        else s1 |> set_RfDetState DETLOW |> set_RfDetCounter 0
      else
        if RfDetCounter s1 >=? COUNTHIGH - COUNTOLER then
          s1 |> set_RfDetState DETLOW |> set_RfDetCounter 0
        else s1 |> set_RfDetState DETEND |> set_RfDetected FALSE in
    TEST_OFF s2
  else if RfDetState s =? DETLOW then
    let s1 := TEST_ON s in
    let s2 :=
      if negb (nonzero (Z.land p1in BIT6)) then
        if RfDetCounter s1 <? COUNTLOW then
          set_RfDetCounter (u16 (RfDetCounter s1 + 1)) s1
        else
          s1 |> set_RfDetState DETEND |> set_RfDetCounter 0
             |> set_RfDetected TRUE
      else
        if RfDetCounter s1 >=? COUNTLOW - COUNTOLER then
          s1 |> set_RfDetState DETEND |> set_RfDetCounter 0
             |> set_RfDetected TRUE
        else s1 |> set_RfDetState DETEND |> set_RfDetected FALSE in
    TEST_OFF s2
  else if RfDetState s =? DETEND then
    if nonzero (Z.land p1in BIT6) then
      s |> set_RfDetState IDLE |> set_P1IE (Z.lor (P1IE s) BIT6)
    else s
  else s.

(** The delay counters of [Timer_A]. *)
Definition delay_management (s : state) : state :=
  let s1 :=
    if nonzero (Pwm1_delay s) then set_Pwm1_delay (u16 (Pwm1_delay s - 1)) s
    else s in
  let s2 :=
    if nonzero (RfShortDelay s1) then
      set_RfShortDelay (u16 (RfShortDelay s1 - 1)) s1
    else s1 in
  if nonzero (RfPrescaler s2) then
    set_RfPrescaler (u16 (RfPrescaler s2 - 1)) s2
  else
    let s3 := set_RfPrescaler PRESCALER s2 in
    if nonzero (RfLongDelay s3) then
      set_RfLongDelay (u16 (RfLongDelay s3 - 1)) s3
    else s3.

(** The PWM generation of [Timer_A]. *)
Definition pwm_management (s : state) : state :=
  if Pwm1_cn s <? PWM1_MAXSTEP then
    let s1 := set_Pwm1_cn (u16 (Pwm1_cn s + 1)) s in
    if Pwm1_cn s1 <=? Pwm1_dc s1 then PWM1_ON s1 else PWM1_OFF s1
  else
    s |> set_Pwm1_cn 0 |> PWM1_OFF.

(** The timer interrupt routine. *)
Definition Timer_A (p1in : Z) (s : state) : state :=
  let s1 := if Pwm1_State s =? POSIT then detect_switch p1in s else s in
  pwm_management (delay_management s1).

(** The port 1 interrupt routine; [p1ifg] is the value of [P1IFG] found
    on entry and [p1in] the value read from [P1IN]. *)
Definition Port1_isr (p1ifg p1in : Z) (s : state) : state :=
  let s0 := set_P1IFG p1ifg s in
  if nonzero (Z.land p1ifg BIT6) then
    let s1 :=
      if nonzero (Z.land p1in BIT6) then
        s0 |> set_RfDetState DETHIGH |> set_RfDetCounter 0
           |> set_P1IE (Z.land (P1IE s0) (Z.lnot BIT6))
      else s0 in
    set_P1IFG (Z.land (P1IFG s1) (Z.lnot BIT6)) s1
  else s0.

(** Executions: interleavings of the main-loop body and of the two
    interrupt routines. *)
Inductive event : Type :=
| EvMain (button : bool)
| EvTick (p1in : Z)
| EvPort1 (p1ifg p1in : Z).

Definition step (s : state) (e : event) : state :=
  match e with
  | EvMain b => main_body b s
  | EvTick p => Timer_A p s
  | EvPort1 f p => Port1_isr f p s
  end.

Definition run (s : state) (l : list event) : state := fold_left step l s.

End RfMotor.

(** ** pwmtest2.c *)
Module Pwmtest2.

Definition TMRVALUE : Z := 20.
Definition PWM1_MAXSTEP : Z := 2000.
Definition PWMINITIALVALUE : Z := 36.
Definition POSIT1 : Z := 78.
Definition POSIT2 : Z := 161.
Definition SPEED : Z := 3000.

Definition RESET : Z := 0.
Definition POSIT : Z := 1.
Definition POSITOLD : Z := 2.
Definition MOVINGUP : Z := 3.
Definition MOVINGDOWN : Z := 4.
Definition WAITINGUP : Z := 5.
Definition WAITINGDOWN : Z := 6.
Definition INCREASE : Z := 7.
Definition DECREASE : Z := 8.

Record state : Type := mkState {
  Pwm1_reach : Z;
  Pwm1_dc : Z;
  Pwm1_cn : Z;
  Pwm1_State : Z;
  Pwm1_delay : Z;
  P1OUT : Z
}.

Definition set_Pwm1_reach (v : Z) (s : state) : state :=
  let '(mkState _ dc cn st dl po) := s in mkState v dc cn st dl po.
Definition set_Pwm1_dc (v : Z) (s : state) : state :=
  let '(mkState re _ cn st dl po) := s in mkState re v cn st dl po.
Definition set_Pwm1_cn (v : Z) (s : state) : state :=
  let '(mkState re dc _ st dl po) := s in mkState re dc v st dl po.
Definition set_Pwm1_State (v : Z) (s : state) : state :=
  let '(mkState re dc cn _ dl po) := s in mkState re dc cn v dl po.
Definition set_Pwm1_delay (v : Z) (s : state) : state :=
  let '(mkState re dc cn st _ po) := s in mkState re dc cn st v po.
Definition set_P1OUT (v : Z) (s : state) : state :=
  let '(mkState re dc cn st dl _) := s in mkState re dc cn st dl v.

Definition LED_ON (s : state) : state := set_P1OUT (Z.lor (P1OUT s) BIT0) s.
Definition LED_OFF (s : state) : state :=
  set_P1OUT (Z.land (P1OUT s) (Z.lnot BIT0)) s.
Definition PWM1_ON (s : state) : state := set_P1OUT (Z.lor (P1OUT s) BIT2) s.
Definition PWM1_OFF (s : state) : state :=
  set_P1OUT (Z.land (P1OUT s) (Z.lnot BIT2)) s.

Definition Init : state :=
  {| Pwm1_reach := PWMINITIALVALUE;
     Pwm1_dc := PWMINITIALVALUE;
     Pwm1_cn := 0;
     Pwm1_State := RESET;
     Pwm1_delay := 0;
     P1OUT := 0 |}.

(** First switch of the main loop: S1 selects the mode. *)
Definition s1_switch (s : state) : state :=
  if Pwm1_State s =? POSIT then set_Pwm1_State POSITOLD s
  else if Pwm1_State s =? POSITOLD then set_Pwm1_State INCREASE s
  else if Pwm1_State s =? INCREASE then set_Pwm1_State DECREASE s
  else if Pwm1_State s =? DECREASE then set_Pwm1_State RESET s
  else if (Pwm1_State s =? MOVINGUP) || (Pwm1_State s =? MOVINGDOWN)
          || (Pwm1_State s =? WAITINGUP) || (Pwm1_State s =? WAITINGDOWN)
  then s
  else set_Pwm1_State POSIT s.

(** The [POSIT] arm of the second switch. *)
Definition posit_case (s : state) : state :=
  if Pwm1_dc s =? POSIT1 then
    s |> set_Pwm1_reach POSIT2 |> set_Pwm1_State MOVINGUP
  else if Pwm1_dc s <? POSIT1 then
    s |> set_Pwm1_reach POSIT1 |> set_Pwm1_State MOVINGUP
  else if Pwm1_dc s >? POSIT1 then
    if Pwm1_dc s =? POSIT2 then
      s |> set_Pwm1_reach POSIT1 |> set_Pwm1_State MOVINGDOWN
    else if Pwm1_dc s >? POSIT2 then
      s |> set_Pwm1_reach POSIT2 |> set_Pwm1_State MOVINGDOWN
    else if Pwm1_dc s <? POSIT2 then
      s |> set_Pwm1_reach POSIT2 |> set_Pwm1_State MOVINGUP
    else s
  else s.

(** Second switch of the main loop: S2 acts on the duty cycle. *)
Definition s2_switch (s : state) : state :=
  if Pwm1_State s =? POSIT then posit_case s
  else if Pwm1_State s =? POSITOLD then
    if negb (Pwm1_dc s =? POSIT1) then set_Pwm1_dc POSIT1 s
    else set_Pwm1_dc POSIT2 s
  else if Pwm1_State s =? INCREASE then
    if Pwm1_dc s <? PWM1_MAXSTEP then set_Pwm1_dc (u16 (Pwm1_dc s + 1)) s
    else s
  else if Pwm1_State s =? DECREASE then
    if Pwm1_dc s >? 0 then set_Pwm1_dc (u16 (Pwm1_dc s - 1)) s else s
  else if Pwm1_State s =? MOVINGUP then
    if Pwm1_dc s =? Pwm1_reach s then set_Pwm1_State POSIT s
    else
      s |> set_Pwm1_State WAITINGUP |> set_Pwm1_delay SPEED
        |> set_Pwm1_dc (u16 (Pwm1_dc s + 1))
  else if Pwm1_State s =? MOVINGDOWN then
    if Pwm1_dc s =? Pwm1_reach s then set_Pwm1_State POSIT s
    else
      s |> set_Pwm1_State WAITINGDOWN |> set_Pwm1_delay SPEED
        |> set_Pwm1_dc (u16 (Pwm1_dc s - 1))
  else if Pwm1_State s =? WAITINGUP then
    if Pwm1_delay s =? 0 then set_Pwm1_State MOVINGUP s else s
  else if Pwm1_State s =? WAITINGDOWN then
    if Pwm1_delay s =? 0 then set_Pwm1_State MOVINGDOWN s else s
  else set_Pwm1_dc PWMINITIALVALUE s.

(** One pass through the body of [for(;;)] in [main]; [b1] and [b2] are
    the values returned by [testButton(S1_BUTTON)] and
    [testButton(S2_BUTTON)]. *)
Definition main_body (b1 b2 : bool) (s : state) : state :=
  let s1 := if b1 then s1_switch s else s in
  let s2 :=
    if b2 || (Pwm1_State s1 =? MOVINGUP) || (Pwm1_State s1 =? MOVINGDOWN)
       || (Pwm1_State s1 =? WAITINGUP) || (Pwm1_State s1 =? WAITINGDOWN)
    then s2_switch s1 else s1 in
  if (Pwm1_dc s2 >=? 36) && (Pwm1_dc s2 <=? 220) then LED_ON s2
  else LED_OFF s2.

(** The timer interrupt routine. *)
Definition Timer_A (s : state) : state :=
  let s1 :=
    if nonzero (Pwm1_delay s) then set_Pwm1_delay (u16 (Pwm1_delay s - 1)) s
    else s in
  if Pwm1_cn s1 <? PWM1_MAXSTEP then
    let s2 := set_Pwm1_cn (u16 (Pwm1_cn s1 + 1)) s1 in
    if Pwm1_cn s2 <=? Pwm1_dc s2 then PWM1_ON s2 else PWM1_OFF s2
  else
    s1 |> set_Pwm1_cn 0 |> PWM1_OFF.

Inductive event : Type :=
| EvMain (b1 b2 : bool)
| EvTick.

Definition step (s : state) (e : event) : state :=
  match e with
  | EvMain b1 b2 => main_body b1 b2 s
  | EvTick => Timer_A s
  end.

Definition run (s : state) (l : list event) : state := fold_left step l s.

End Pwmtest2.

(** ** Auxiliary definitions for the statements *)

Definition is_u16 (x : Z) : Prop := 0 <= x < 65536.
Definition is_u8 (x : Z) : Prop := 0 <= x < 256.

Module RfSpec.
Import RfMotor.

(** Every variable holds a value of its C type. *)
Definition wf (s : state) : Prop :=
  is_u16 (Pwm1_reach s) /\ is_u16 (Pwm1_dc s) /\ is_u16 (Pwm1_cn s) /\
  is_u8 (Pwm1_State s) /\ is_u16 (Pwm1_delay s) /\ is_u8 (RfDetState s) /\
  is_u16 (RfDetCounter s) /\ is_u8 (RfDetected s) /\
  is_u8 (RfDetConfirmSt s) /\ is_u16 (RfPrescaler s) /\
  is_u16 (RfLongDelay s) /\ is_u16 (RfShortDelay s) /\ is_u8 (Command s).

(** The tie-break rule for the goal, in the words of the specification. *)
Definition spec_target (Start End dc : Z) : Z :=
  if dc =? Start then End
  else if dc <? Start then Start
  else if dc =? End then Start
  else if dc >? End then End
  else End.

(** The direction rule of the specification: up if the goal is above the
    current duty cycle, down otherwise. *)
Definition spec_direction (up down target dc : Z) : Z :=
  if target >? dc then up else down.

(** The positioning machine is away from its rest state. *)
Definition moving (s : state) : bool :=
  (Pwm1_State s =? MOVINGUP) || (Pwm1_State s =? MOVINGDOWN)
  || (Pwm1_State s =? WAITINGUP) || (Pwm1_State s =? WAITINGDOWN).

Definition going_up (s : state) : bool :=
  (Pwm1_State s =? MOVINGUP) || (Pwm1_State s =? WAITINGUP).

Definition going_down (s : state) : bool :=
  (Pwm1_State s =? MOVINGDOWN) || (Pwm1_State s =? WAITINGDOWN).

(** [before_each P s l]: [P] holds of every state from which an event of
    [l] is taken, in the execution of [l] from [s]. *)
Fixpoint before_each (P : state -> bool) (s : state) (l : list event)
  : bool :=
  match l with
  | [] => true
  | e :: l' => P s && before_each P (step s e) l'
  end.

(** Number of timer ticks of an execution. *)
Fixpoint ticks (l : list event) : Z :=
  match l with
  | [] => 0
  | EvTick _ :: l' => 1 + ticks l'
  | _ :: l' => ticks l'
  end.

(** Fairness measure of a schedule: the number of times a pass of the
    main loop is followed, later in the list, by a timer tick, each pass
    and each tick being counted once.  [pending] tells that a pass has
    been seen since the last counted tick. *)
Fixpoint alternations (pending : bool) (l : list event) : Z :=
  match l with
  | [] => 0
  | EvMain _ :: l' => alternations true l'
  | EvTick _ :: l' =>
      if pending then 1 + alternations false l' else alternations false l'
  | EvPort1 _ _ :: l' => alternations pending l'
  end.

(** Number of events of an execution that change the duty cycle. *)
Fixpoint dc_changes (s : state) (l : list event) : Z :=
  match l with
  | [] => 0
  | e :: l' =>
      (if Pwm1_dc (step s e) =? Pwm1_dc s then 0 else 1)
      + dc_changes (step s e) l'
  end.

(** Between [s] and [s'] the duty cycle is unchanged, or it has moved by
    exactly one unit and the machine is in the matching waiting state with
    [Pwm1_delay] loaded with [SPEED]. *)
Definition armed_step (s s' : state) : bool :=
  (Pwm1_dc s' =? Pwm1_dc s)
  || (((Pwm1_dc s' =? Pwm1_dc s + 1) && (Pwm1_State s' =? WAITINGUP)
       || (Pwm1_dc s' =? Pwm1_dc s - 1) && (Pwm1_State s' =? WAITINGDOWN))
      && (Pwm1_delay s' =? SPEED)).

Fixpoint steps_armed (s : state) (l : list event) : bool :=
  match l with
  | [] => true
  | e :: l' => armed_step s (step s e) && steps_armed (step s e) l'
  end.

(** Potential of the positioning machine during a motion: an upper bound
    of the alternations of main-loop passes and ticks that the rest of
    the motion takes. *)
Definition motion_potential (s : state) : Z :=
  let dist := Z.abs (Pwm1_reach s - Pwm1_dc s) in
  if (Pwm1_State s =? WAITINGUP) || (Pwm1_State s =? WAITINGDOWN)
  then dist * (SPEED + 2) + 2 + Pwm1_delay s
  else dist * (SPEED + 2) + 1.

(** The moving and the waiting state of a direction. *)
Definition MOVING (up : bool) : Z := if up then MOVINGUP else MOVINGDOWN.
Definition WAITING (up : bool) : Z := if up then WAITINGUP else WAITINGDOWN.

Definition phase (up : bool) (s : state) : bool :=
  if up then going_up s else going_down s.

(** The machine waits for [Pwm1_delay] to run out: only a tick makes it
    progress. *)
Definition stalled (s : state) : bool :=
  ((Pwm1_State s =? WAITINGUP) || (Pwm1_State s =? WAITINGDOWN))
  && negb (Pwm1_delay s =? 0).

(** Alternations that suffice to bring the machine to rest; one more is
    asked when a pass of the main loop is pending that the machine had no
    use for. *)
Definition need (pending : bool) (s : state) : Z :=
  motion_potential s + (if pending && negb (stalled s) then 1 else 0).

Definition next_pending (pending : bool) (e : event) : bool :=
  match e with
  | EvMain _ => true
  | EvTick _ => false
  | EvPort1 _ _ => pending
  end.

(** The machine is on its way to the goal, in the direction [up]. *)
Definition motion_inv (up : bool) (s : state) : Prop :=
  phase up s = true /\
  (if up then Pwm1_dc s <= Pwm1_reach s else Pwm1_reach s <= Pwm1_dc s) /\
  is_u16 (Pwm1_dc s) /\ is_u16 (Pwm1_reach s) /\ is_u16 (Pwm1_delay s).

(** A tick on which the prescaler expires: the only ticks on which
    [RfLongDelay] is decremented.  The durations [VALIDATE_RF],
    [WAITEND_RF] and [IGNORE_RF] are counted in these. *)
Definition long_tick (s : state) (e : event) : bool :=
  match e with
  | EvTick _ => RfPrescaler s =? 0
  | _ => false
  end.

Fixpoint long_ticks (s : state) (l : list event) : Z :=
  match l with
  | [] => 0
  | e :: l' => (if long_tick s e then 1 else 0) + long_ticks (step s e) l'
  end.

(** The pass of the main loop taken from [s] executes the arm of the
    confirmation switch that assigns [Command = TRUE] (the transition
    from [WAITDETEND] to [IGNORE]). *)
Definition emits (s : state) (e : event) : bool :=
  match e with
  | EvMain _ =>
      (RfDetConfirmSt s =? WAITDETEND)
      && (RfDetConfirmSt (confirm_switch s) =? IGNORE)
  | _ => false
  end.

Fixpoint emissions (s : state) (l : list event) : Z :=
  match l with
  | [] => 0
  | e :: l' => (if emits s e then 1 else 0) + emissions (step s e) l'
  end.

Definition detected (s : state) : bool := nonzero (RfDetected s).
Definition not_detected (s : state) : bool := negb (nonzero (RfDetected s)).

(** Long ticks that a pulse may still last without being validated. *)
Definition validate_budget (s : state) : Z :=
  if RfDetConfirmSt s =? IDLE then VALIDATE_RF
  else if RfDetConfirmSt s =? VALIDATE
       then Z.min VALIDATE_RF (RfLongDelay s)
       else 0.

(** The schedule [l] with the button released in every pass of the main
    loop that is taken while the machine is moving. *)
Fixpoint release_while_moving (s : state) (l : list event) : list event :=
  match l with
  | [] => []
  | e :: l' =>
      match e with
      | EvMain b => EvMain (if moving s then false else b)
      | _ => e
      end :: release_while_moving (step s e) l'
  end.

(** The schedule in which the main loop and the timer alternate [n]
    times, button released and line low. *)
Fixpoint round_robin (n : nat) : list event :=
  match n with
  | O => []
  | S n' => EvMain false :: EvTick 0 :: round_robin n'
  end.

(** Inputs of the qualifier: the line P1.6 read high or low. *)
Definition HIGH : Z := BIT6.
Definition LOW : Z := 0.

Definition tick_events (inputs : list Z) : list event := map EvTick inputs.

(** The readings of the line by the ticks of an execution. *)
Fixpoint tick_inputs (l : list event) : list Z :=
  match l with
  | [] => []
  | EvTick p :: l' => p :: tick_inputs l'
  | _ :: l' => tick_inputs l'
  end.

(** The port interrupt does not fire (it is disabled while a detection
    is in progress). *)
Fixpoint no_port (l : list event) : bool :=
  match l with
  | [] => true
  | EvPort1 _ _ :: _ => false
  | _ :: l' => no_port l'
  end.

Definition at_rest (s : state) : bool := Pwm1_State s =? POSIT.

(** The three variables of the qualifier. *)
Definition qualifier (s : state) : Z * Z * Z :=
  (RfDetState s, RfDetCounter s, RfDetected s).

(** Pieces of concrete executions: [n] ticks with the line low; the
    state at rest with the flag up; a spurious edge, which the qualifier
    rejects at the next tick, bringing the flag down. *)
Definition quiet_ticks (n : nat) : list event := tick_events (repeat LOW n).
Definition flag_up : state := set_RfDetected TRUE Init.
Definition flag_drop : list event := [EvPort1 BIT6 BIT6; EvTick LOW].

(** Number of ticks, among those reading [inputs], that leave the PWM pin
    high: the width of the pulse, in ticks, when taken over one period. *)
Fixpoint high_ticks (s : state) (inputs : list Z) : Z :=
  match inputs with
  | [] => 0
  | p :: r =>
      (if pwm_out (Timer_A p s) then 1 else 0) + high_ticks (Timer_A p s) r
  end.

(** Nominal pulse width in microseconds for a duty cycle, the timer
    period being 0.01 ms. *)
Definition pulse_width_us (dc : Z) : Z := dc * 10.

(** A move of the duty cycle by one unit towards the goal. *)
Definition unit_move (s s' : state) : Prop :=
  Pwm1_dc s' = Pwm1_dc s \/
  (Pwm1_dc s' = Pwm1_dc s + 1 /\ Pwm1_dc s < Pwm1_reach s /\
   Pwm1_reach s' = Pwm1_reach s) \/
  (Pwm1_dc s' = Pwm1_dc s - 1 /\ Pwm1_reach s < Pwm1_dc s /\
   Pwm1_reach s' = Pwm1_reach s).

(** Invariant of the positioning machine. *)
Definition posit_inv (s : state) : Prop :=
  POSIT_END <= Pwm1_dc s <= POSIT_START /\
  (Pwm1_reach s = POSIT_END \/ Pwm1_reach s = POSIT_START) /\
  0 <= Pwm1_State s <= 4 /\
  (going_up s = true -> Pwm1_dc s <= Pwm1_reach s) /\
  (going_down s = true -> Pwm1_reach s <= Pwm1_dc s).

End RfSpec.

Module Pwmtest2Spec.
Import Pwmtest2.

(** Invariant of the duty cycle of pwmtest2.c. *)
Definition dc_inv (s : state) : Prop :=
  0 <= Pwm1_dc s <= PWM1_MAXSTEP /\
  0 <= Pwm1_State s <= 8 /\
  ((Pwm1_State s =? MOVINGUP) || (Pwm1_State s =? WAITINGUP) = true ->
   Pwm1_dc s <= Pwm1_reach s <= PWM1_MAXSTEP) /\
  ((Pwm1_State s =? MOVINGDOWN) || (Pwm1_State s =? WAITINGDOWN) = true ->
   0 <= Pwm1_reach s <= Pwm1_dc s).

(** The duty cycle is left alone, moved by exactly one unit, or assigned
    one of the three configured values. *)
Definition dc_move (s s' : state) : Prop :=
  Pwm1_dc s' = Pwm1_dc s \/ Pwm1_dc s' = Pwm1_dc s + 1 \/
  Pwm1_dc s' = Pwm1_dc s - 1 \/ Pwm1_dc s' = PWMINITIALVALUE \/
  Pwm1_dc s' = POSIT1 \/ Pwm1_dc s' = POSIT2.

End Pwmtest2Spec.

(** ** testButton (the same routine in rf_motor.c, pwmtest2.c and
    pwmled.c) *)
Module Buttons.

Definition S1_BUTTON : Z := 0.
Definition S2_BUTTON : Z := 1.

(** [P2IN & (0x80 >> button)], stored in an [unsigned char]; the shift
    of the 16-bit [int] constant is defined for [button] below 16. *)
Definition button_bit (button p2in : Z) : Z :=
  Z.land p2in (Z.shiftr 128 button) mod 256.

(** The [while(retvalue)] loop: the port is read until the bit is clear.
    The successive values read from the volatile port [P2IN] are a list;
    the readings left are returned with the result, and the result is
    [None] when the readings end while the routine is still waiting. *)
Fixpoint wait_release (button : Z) (reads : list Z) : option (Z * list Z) :=
  match reads with
  | [] => None
  | r :: rest =>
      if nonzero (button_bit button r) then wait_release button rest
      else Some (TRUE, rest)
  end.

(** [testButton]; the delay loop between the first two readings reads
    nothing. *)
Definition testButton (button : Z) (reads : list Z) : option (Z * list Z) :=
  match reads with
  | [] => None
  | r1 :: rest1 =>
      if nonzero (button_bit button r1) then
        match rest1 with
        | [] => None
        | r2 :: rest2 =>
            if nonzero (button_bit button r2) then wait_release button rest2
            else Some (FALSE, rest2)
        end
      else Some (FALSE, rest1)
  end.

Definition pressed (button r : Z) : Prop := button_bit button r <> 0.
Definition released (button r : Z) : Prop := button_bit button r = 0.

End Buttons.

Module RfMore.
Import RfMotor RfSpec.

(** Levels of the pins P1.0 (LED) and P1.5 (test), and enable bit of the
    P1.6 edge interrupt. *)
Definition led (s : state) : bool := Z.testbit (P1OUT s) 0.
Definition test_pin (s : state) : bool := Z.testbit (P1OUT s) 5.
Definition edge_enabled (s : state) : bool := Z.testbit (P1IE s) 6.

(** Invariant of the variables handled by the confirmation switch and by
    the delay counters. *)
Definition confirm_inv (s : state) : Prop :=
  0 <= RfDetConfirmSt s <= 3 /\
  (Command s = FALSE \/ Command s = TRUE) /\
  (Command s = TRUE -> RfDetConfirmSt s = IGNORE) /\
  (led s = true <-> RfDetConfirmSt s = WAITDETEND) /\
  0 <= RfLongDelay s <= IGNORE_RF /\
  0 <= RfPrescaler s <= PRESCALER /\
  RfShortDelay s = 0 /\
  0 <= Pwm1_delay s <= SPEED.

(** Invariant of the variables handled by the qualifier. *)
Definition detect_inv (s : state) : Prop :=
  0 <= RfDetState s <= 3 /\
  (edge_enabled s = true <-> RfDetState s = IDLE) /\
  test_pin s = false /\
  (RfDetected s = FALSE \/ RfDetected s = TRUE) /\
  0 <= RfDetCounter s <= COUNTHIGH.

(** Ticks that must still elapse before the duty cycle can move again. *)
Definition lag (s : state) : Z :=
  if (Pwm1_State s =? WAITINGUP) || (Pwm1_State s =? WAITINGDOWN)
  then Z.min (Pwm1_delay s) SPEED
  else 0.

(** The positioning machine is away from [POSIT]. *)
Definition in_motion (s : state) : bool := negb (at_rest s).

(** The verdict of the qualifier on a pulse read high on [h] ticks and
    then low on [n] ticks: the high interval must last from
    [COUNTHIGH - COUNTOLER] to [COUNTHIGH + 1] ticks and the low interval
    at least [COUNTLOW - COUNTOLER] ticks, not counting the low tick
    that ends a high interval of at most [COUNTHIGH] ticks. *)
Definition accepted (h n : Z) : bool :=
  (COUNTHIGH - COUNTOLER <=? h) && (h <=? COUNTHIGH + 1)
  && (COUNTLOW - COUNTOLER <=? (if h <=? COUNTHIGH then n - 1 else n)).

(** Between two passes of the main loop each taken as a whole, no
    trigger is pending while the positioning machine is at rest. *)
Definition rest_inv (s : state) : Prop :=
  0 <= Pwm1_State s <= 4 /\ (Pwm1_State s = POSIT -> Command s <> TRUE).

End RfMore.

(** ** Auxiliary definitions for pwmtest2.c *)
Module Pwmtest2More.
Import Pwmtest2.

(** Levels of the pins P1.0 (LED) and P1.2 (PWM). *)
Definition led (s : state) : bool := Z.testbit (P1OUT s) 0.
Definition pwm_out (s : state) : bool := Z.testbit (P1OUT s) 2.

(** The button S1, or S2, is found released by every pass of the main
    loop of an execution. *)
Fixpoint s1_released (l : list event) : bool :=
  match l with
  | [] => true
  | EvMain b1 _ :: l' => negb b1 && s1_released l'
  | EvTick :: l' => s1_released l'
  end.

Fixpoint s2_released (l : list event) : bool :=
  match l with
  | [] => true
  | EvMain _ b2 :: l' => negb b2 && s2_released l'
  | EvTick :: l' => s2_released l'
  end.

(** Number of passes of the main loop that find S1, or S2, pressed. *)
Fixpoint s1_presses (l : list event) : Z :=
  match l with
  | [] => 0
  | EvMain b1 _ :: l' => (if b1 then 1 else 0) + s1_presses l'
  | EvTick :: l' => s1_presses l'
  end.

Fixpoint s2_presses (l : list event) : Z :=
  match l with
  | [] => 0
  | EvMain _ b2 :: l' => (if b2 then 1 else 0) + s2_presses l'
  | EvTick :: l' => s2_presses l'
  end.

(** The five modes that S1 selects, in the order of selection. *)
Definition is_mode (st : Z) : bool :=
  (st =? RESET) || (st =? POSIT) || (st =? POSITOLD) || (st =? INCREASE)
  || (st =? DECREASE).

Definition mode_index (st : Z) : Z :=
  if st =? POSIT then 1
  else if st =? POSITOLD then 2
  else if st =? INCREASE then 3
  else if st =? DECREASE then 4
  else 0.

Definition moving (s : state) : bool :=
  (Pwm1_State s =? MOVINGUP) || (Pwm1_State s =? MOVINGDOWN)
  || (Pwm1_State s =? WAITINGUP) || (Pwm1_State s =? WAITINGDOWN).

(** Number of ticks, among the next [n], that leave the PWM pin high. *)
Fixpoint high_ticks (s : state) (n : nat) : Z :=
  match n with
  | O => 0
  | S n' => (if pwm_out (Timer_A s) then 1 else 0) + high_ticks (Timer_A s) n'
  end.

(** The LED tells whether the duty cycle is in the range of the
    servomotor. *)
Definition led_ok (s : state) : Prop :=
  led s = true <-> 36 <= Pwm1_dc s <= 220.

End Pwmtest2More.

(** ** pwmled.c *)
Module Pwmled.

Definition PWMMAXSTEP : Z := 256.
Definition PWMINITIALVALUE : Z := 0.

(** The variable [DutyCycle], the timer registers [CCR0] and [CCR1] and
    the output register [P1OUT]. *)
Record state : Type := mkState {
  DutyCycle : Z;
  CCR0 : Z;
  CCR1 : Z;
  P1OUT : Z
}.

Definition set_DutyCycle (v : Z) (s : state) : state :=
  let '(mkState _ c0 c1 po) := s in mkState v c0 c1 po.
Definition set_CCR1 (v : Z) (s : state) : state :=
  let '(mkState dc c0 _ po) := s in mkState dc c0 v po.
Definition set_P1OUT (v : Z) (s : state) : state :=
  let '(mkState dc c0 c1 _) := s in mkState dc c0 c1 v.

Definition LED_ON (s : state) : state := set_P1OUT (Z.lor (P1OUT s) BIT0) s.
Definition LED_OFF (s : state) : state :=
  set_P1OUT (Z.land (P1OUT s) (Z.lnot BIT0)) s.

(** [Init]: the output register, the timer registers and the variable. *)
Definition Init : state :=
  {| DutyCycle := 128;
     CCR0 := PWMMAXSTEP;
     CCR1 := PWMINITIALVALUE + 128;
     P1OUT := 0 |}.

(** The body of [if(testButton(S1_BUTTON))]. *)
Definition s1_pressed (s : state) : state :=
  let s1 :=
    if DutyCycle s <? PWMMAXSTEP then set_DutyCycle (u16 (DutyCycle s + 1)) s
    else s in
  s1 |> set_CCR1 (DutyCycle s1) |> LED_ON.

(** The body of [if(testButton(S2_BUTTON))]. *)
Definition s2_pressed (s : state) : state :=
  let s1 :=
    if DutyCycle s >? 0 then set_DutyCycle (u16 (DutyCycle s - 1)) s
    else s in
  s1 |> set_CCR1 (DutyCycle s1) |> LED_OFF.

(** One pass through the body of [for(;;)] in [main]; [b1] and [b2] are
    the values returned by the two calls of [testButton]. *)
Definition main_body (b1 b2 : bool) (s : state) : state :=
  let s1 := if b1 then s1_pressed s else s in
  if b2 then s2_pressed s1 else s1.

(** The same pass with the two calls of [testButton] reading the port:
    [reads] are the successive values of [P2IN]; the pass does not end
    ([None]) when the readings end while a button is held. *)
Definition main_pass (reads : list Z) (s : state) : option (state * list Z) :=
  match Buttons.testButton Buttons.S1_BUTTON reads with
  | None => None
  | Some (r1, rest1) =>
      let s1 := if nonzero r1 then s1_pressed s else s in
      match Buttons.testButton Buttons.S2_BUTTON rest1 with
      | None => None
      | Some (r2, rest2) =>
          Some (if nonzero r2 then s2_pressed s1 else s1, rest2)
      end
  end.

Definition run (s : state) (l : list (bool * bool)) : state :=
  fold_left (fun s e => main_body (fst e) (snd e) s) l s.

Definition led (s : state) : bool := Z.testbit (P1OUT s) 0.

(** Numbers of passes that find S1, or S2, pressed. *)
Fixpoint s1_presses (l : list (bool * bool)) : Z :=
  match l with
  | [] => 0
  | (b1, _) :: l' => (if b1 then 1 else 0) + s1_presses l'
  end.

(** Invariant of the main loop. *)
Definition duty_inv (s : state) : Prop :=
  0 <= DutyCycle s <= PWMMAXSTEP /\ CCR1 s = DutyCycle s /\
  CCR0 s = PWMMAXSTEP.

End Pwmled.

(** ** thermo.c *)
Module Thermo.

Definition AVTEMP : Z := 5.

(** Values of the 32-bit types [unsigned long] and [long], and of the
    8-bit [char]. *)
Definition u32 (x : Z) : Z := x mod 4294967296.
Definition s32 (x : Z) : Z := (x + 2147483648) mod 4294967296 - 2147483648.
Definition u8 (x : Z) : Z := x mod 256.

(** The loop of [Read_Temp]: each of the [n] iterations starts a
    conversion, sleeps until the interrupt of the converter and adds the
    16-bit register [ADC10MEM] to [temp].  The successive values of the
    register are a list; the routine does not return ([None]) when the
    conversions end before the loop. *)
Fixpoint accumulate (n : nat) (samples : list Z) (temp : Z)
  : option (Z * list Z) :=
  match n with
  | O => Some (temp, samples)
  | S n' =>
      match samples with
      | [] => None
      | a :: rest => accumulate n' rest (s32 (temp + u16 a))
      end
  end.

(** [Read_Temp], with [CELSIUS] defined; the divisions of C truncate
    towards zero. *)
Definition Read_Temp (samples : list Z) : option (Z * list Z) :=
  match accumulate (Z.to_nat AVTEMP) samples 0 with
  | None => None
  | Some (temp, rest) =>
      let temp1 := s32 (Z.quot temp AVTEMP) in
      Some (s32 (Z.quot (s32 (s32 (temp1 - 673) * 423)) 1024), rest)
  end.

(** The conversion of the data sheet on unbounded integers. *)
Definition celsius (a : Z) : Z := Z.quot ((a - 673) * 423) 1024.

(** A reading of the 10-bit converter. *)
Definition is_adc10 (a : Z) : Prop := 0 <= a <= 1023.

End Thermo.

(** ** The conversions to strings of thermo.c *)
Module Xtoa.
Import Thermo.

(** The memory from [buf] on is a list of bytes, and a pointer is an
    offset from [buf]; an access outside the list is undefined
    ([None]). *)
Definition load (m : list Z) (i : Z) : option Z :=
  if i <? 0 then None else nth_error m (Z.to_nat i).

Definition store (m : list Z) (i : Z) (c : Z) : option (list Z) :=
  if (0 <=? i) && (i <? Z.of_nat (length m))
  then Some (firstn (Z.to_nat i) m ++ c :: skipn (S (Z.to_nat i)) m)
  else None.

(** The character stored for [digval]; ['a'] is 97 and ['0'] is 48. *)
Definition to_char (digval : Z) : Z :=
  if digval >? 9 then u8 (u16 (digval - 10 + 97))
  else u8 (u16 (digval + 48)).

(** The first [do ... while (val > 0)] of [xtoa]: the digits are stored
    from [p] on, the least significant first.  The result is the memory
    and the pointer [p] at the exit. *)
Fixpoint digits_loop (fuel : nat) (val radix : Z) (m : list Z) (p : Z)
  : option (list Z * Z) :=
  match fuel with
  | O => None
  | S fuel' =>
      let digval := u16 (val mod radix) in
      let val' := val / radix in
      match store m p (to_char digval) with
      | None => None
      | Some m' =>
          if val' >? 0 then digits_loop fuel' val' radix m' (p + 1)
          else Some (m', p + 1)
      end
  end.

(** The second loop of [xtoa]: the bytes from [firstdig] to [p] are
    exchanged from the ends inwards. *)
Fixpoint reverse_loop (fuel : nat) (m : list Z) (firstdig p : Z)
  : option (list Z) :=
  match fuel with
  | O => None
  | S fuel' =>
      match load m p with
      | None => None
      | Some temp =>
          match load m firstdig with
          | None => None
          | Some x =>
              match store m p x with
              | None => None
              | Some m1 =>
                  match store m1 firstdig temp with
                  | None => None
                  | Some m2 =>
                      if firstdig + 1 <? p - 1
                      then reverse_loop fuel' m2 (firstdig + 1) (p - 1)
                      else Some m2
                  end
              end
          end
      end
  end.

(** [xtoa], each loop running for at most [fuel] iterations: [val] is a
    32-bit unsigned value and [radix] a 16-bit one; ['-'] is 45.  The
    division by a zero radix is undefined. *)
Definition xtoa_with (fuel : nat) (val : Z) (m : list Z) (radix : Z)
  (negative : Z) : option (list Z) :=
  let start :=
    if nonzero negative then
      match store m 0 45 with
      | None => None
      | Some m1 => Some (m1, 1, u32 (- s32 val))
      end
    else Some (m, 0, val) in
  match start with
  | None => None
  | Some (m1, firstdig, val1) =>
      if radix =? 0 then None
      else
        match digits_loop fuel val1 radix m1 firstdig with
        | None => None
        | Some (m2, p) =>
            match store m2 p 0 with
            | None => None
            | Some m3 => reverse_loop fuel m3 firstdig (p - 1)
            end
        end
  end.

(** [xtoa].  Each iteration of the first loop stores at a fresh offset
    and each iteration of the second one brings the two pointers
    closer, so a loop that has not ended after [length m + 1] iterations
    has left the memory: more iterations change nothing. *)
Definition xtoa (val : Z) (m : list Z) (radix : Z) (negative : Z)
  : option (list Z) :=
  xtoa_with (S (length m)) val m radix negative.

(** [itoa] and [ltoa]: [val] is the value of an [int], or of a [long],
    and [radix] the value of an [int]. *)
Definition itoa (val : Z) (m : list Z) (radix : Z) : option (list Z) :=
  if (radix =? 10) && (val <? 0) then xtoa (u32 val) m (u16 radix) 1
  else xtoa (u32 (u16 val)) m (u16 radix) 0.

Definition ltoa (val : Z) (m : list Z) (radix : Z) : option (list Z) :=
  xtoa (u32 val) m (u16 radix)
    (if (radix =? 10) && (val <? 0) then 1 else 0).

(** *** Reading a string back *)

(** The string at the start of the memory: the bytes before the first
    NUL. *)
Fixpoint c_string (m : list Z) : option (list Z) :=
  match m with
  | [] => None
  | c :: r =>
      if c =? 0 then Some []
      else
        match c_string r with
        | None => None
        | Some s => Some (c :: s)
        end
  end.

(** Value of a digit character, ['0'] to ['9'] and ['a'] to ['z']. *)
Definition char_value (c : Z) : option Z :=
  if (48 <=? c) && (c <=? 57) then Some (c - 48)
  else if (97 <=? c) && (c <=? 122) then Some (c - 87)
  else None.

(** The number written by a string of digits of [radix], the most
    significant first. *)
Fixpoint parse_from (radix acc : Z) (str : list Z) : option Z :=
  match str with
  | [] => Some acc
  | c :: r =>
      match char_value c with
      | None => None
      | Some d =>
          if d <? radix then parse_from radix (acc * radix + d) r else None
      end
  end.

Definition parse (radix : Z) (str : list Z) : option Z :=
  match str with
  | [] => None
  | _ => parse_from radix 0 str
  end.

(** The same with a leading ['-']. *)
Definition parse_signed (radix : Z) (str : list Z) : option Z :=
  match str with
  | [] => None
  | c :: r =>
      if c =? 45 then
        match parse radix r with
        | None => None
        | Some v => Some (- v)
        end
      else parse radix str
  end.

(** The digits of [val] in [radix], the least significant first, and the
    number written by such a list. *)
Fixpoint lsd (fuel : nat) (radix val : Z) : list Z :=
  match fuel with
  | O => []
  | S fuel' =>
      val mod radix
      :: (if val / radix >? 0 then lsd fuel' radix (val / radix) else [])
  end.

Fixpoint value (radix : Z) (ds : list Z) : Z :=
  match ds with
  | [] => 0
  | d :: r => d + radix * value radix r
  end.

End Xtoa.

(** ** The arm of pwmtest2.c seen as the arm of rf_motor.c *)
Module ArmSim.
Import RfMotor RfSpec.

(** The number that pwmtest2.c gives to a state of the positioning
    machine of rf_motor.c. *)
Definition arm_state (st : Z) : Z :=
  if st =? POSIT then Pwmtest2.POSIT else st + 2.

(** The two programs agree on the positioning variables and on the PWM
    pin. *)
Definition same_arm (p : Pwmtest2.state) (r : state) : Prop :=
  Pwmtest2.Pwm1_reach p = Pwm1_reach r /\
  Pwmtest2.Pwm1_dc p = Pwm1_dc r /\
  Pwmtest2.Pwm1_cn p = Pwm1_cn r /\
  Pwmtest2.Pwm1_delay p = Pwm1_delay r /\
  Pwmtest2.Pwm1_State p = arm_state (Pwm1_State r) /\
  Z.testbit (Pwmtest2.P1OUT p) 2 = Z.testbit (P1OUT r) 2.

(** The event of rf_motor.c that matches an event of pwmtest2.c: the
    button S2 is the button of rf_motor.c, and the input line is low. *)
Definition rf_event (e : Pwmtest2.event) : event :=
  match e with
  | Pwmtest2.EvMain _ b2 => EvMain b2
  | Pwmtest2.EvTick => EvTick LOW
  end.

(** The state of rf_motor.c that has the arm of [p] and an idle
    receiver. *)
Definition rf_of (p : Pwmtest2.state) : state :=
  {| Pwm1_reach := Pwmtest2.Pwm1_reach p;
     Pwm1_dc := Pwmtest2.Pwm1_dc p;
     Pwm1_cn := Pwmtest2.Pwm1_cn p;
     Pwm1_State :=
       if Pwmtest2.Pwm1_State p =? Pwmtest2.POSIT then POSIT
       else Pwmtest2.Pwm1_State p - 2;
     Pwm1_delay := Pwmtest2.Pwm1_delay p;
     RfDetState := IDLE;
     RfDetCounter := 0;
     RfDetected := FALSE;
     RfDetConfirmSt := IDLE;
     RfPrescaler := PRESCALER;
     RfLongDelay := 0;
     RfShortDelay := 0;
     Command := FALSE;
     P1OUT := Pwmtest2.P1OUT p;
     P1IE := BIT6;
     P1IFG := 0 |}.

(** The receiver of rf_motor.c is idle and no trigger is pending. *)
Definition quiet (r : state) : Prop :=
  Command r = FALSE /\ RfDetConfirmSt r = IDLE /\ RfDetected r = FALSE /\
  RfDetState r = IDLE.

(** The arm is within the band of the two positions: at rest the duty
    cycle, and during a motion the goal. *)
Definition arm_ok (r : state) : Prop :=
  0 <= Pwm1_State r <= 4 /\
  (Pwm1_State r = POSIT -> POSIT_END <= Pwm1_dc r <= POSIT_START) /\
  (Pwm1_State r <> POSIT -> POSIT_END <= Pwm1_reach r <= POSIT_START).

(** The states of the positioning machine of pwmtest2.c, and the band
    in its terms. *)
Definition positioning (p : Pwmtest2.state) : bool :=
  (Pwmtest2.Pwm1_State p =? Pwmtest2.POSIT) || Pwmtest2More.moving p.

Definition in_band (p : Pwmtest2.state) : Prop :=
  (Pwmtest2.Pwm1_State p = Pwmtest2.POSIT ->
   Pwmtest2.POSIT1 <= Pwmtest2.Pwm1_dc p <= Pwmtest2.POSIT2) /\
  (Pwmtest2.Pwm1_State p <> Pwmtest2.POSIT ->
   Pwmtest2.POSIT1 <= Pwmtest2.Pwm1_reach p <= Pwmtest2.POSIT2).

(** Fairness measure of a schedule of pwmtest2.c, as [alternations]. *)
Fixpoint p2_alternations (pending : bool) (l : list Pwmtest2.event) : Z :=
  match l with
  | [] => 0
  | Pwmtest2.EvMain _ _ :: l' => p2_alternations true l'
  | Pwmtest2.EvTick :: l' =>
      if pending then 1 + p2_alternations false l'
      else p2_alternations false l'
  end.

(** The schedule of pwmtest2.c in which the main loop, buttons
    released, and the timer alternate [n] times. *)
Fixpoint p2_round_robin (n : nat) : list Pwmtest2.event :=
  match n with
  | O => []
  | S n' => Pwmtest2.EvMain false false :: Pwmtest2.EvTick :: p2_round_robin n'
  end.

End ArmSim.

(** ** The input line *)
Module Line.
Import RfMotor RfSpec.

(** Level of the input line P1.6 in a value read from [P1IN]; the other
    bits of the port are free. *)
Definition line (p1in : Z) : bool := Z.testbit p1in 6.

(** The levels of the line read by the ticks of an execution. *)
Definition levels (l : list event) : list bool := map line (tick_inputs l).

(** A value of the port with the line at the level [b]. *)
Definition reading (b : bool) : Z := if b then HIGH else LOW.

End Line.

(** ** Pulses of the flag, in ticks *)
Module Pulse.
Import RfMotor RfSpec.

(** Number of ticks taken while the flag is up. *)
Fixpoint detected_ticks (s : state) (l : list event) : Z :=
  match l with
  | [] => 0
  | e :: l' =>
      match e with
      | EvTick _ => if detected s then 1 else 0
      | _ => 0
      end + detected_ticks (step s e) l'
  end.

(** The main loop running freely: a pass, button released, after every
    tick. *)
Definition polled (inputs : list Z) : list event :=
  flat_map (fun p => [EvTick p; EvMain false]) inputs.

(** A pattern that the qualifier accepts at its last reading. *)
Definition accepted_pattern : list Z :=
  repeat HIGH 625 ++ repeat LOW 616 ++ [HIGH].

(** From [Init]: [idle] ticks with the line low, an edge and an
    accepted pattern, at the last tick of which the flag rises.  The
    number of idle ticks sets the phase of the prescaler at that
    tick. *)
Definition rise (idle : nat) : list event :=
  polled (repeat LOW idle) ++ EvPort1 BIT6 BIT6 :: polled accepted_pattern.

(** With the flag up: [n >= 2] ticks, at the last of which a spurious
    edge brings the flag down (tick [n - 1] reads the line high, which
    arms the edge interrupt; the edge comes; tick [n] reads the line
    low). *)
Definition fall (n : nat) : list event :=
  polled (repeat LOW (n - 2) ++ [HIGH]) ++ EvPort1 BIT6 BIT6 :: polled [LOW].

(** A pulse of the flag of [n] ticks, followed by [quiet] ticks with the
    line low. *)
Definition pulse (idle n quiet : nat) : list event :=
  rise idle ++ fall n ++ polled (repeat LOW quiet).

End Pulse.

(** ** The main loop of rf_motor.c, one switch at a time *)

(** The interrupt routines are also served inside a pass of the main
    loop, between the confirmation switch and the positioning switch
    (while [testButton] waits).  Here each switch is an event of its
    own, and no order is imposed on the events.  A switch is still
    taken as a whole: an interrupt served between two statements of a
    switch is not modelled. *)
Module Fine.
Import RfMotor RfSpec.

Inductive event : Type :=
| EvConfirm
| EvPosit (button : bool)
| EvTick (p1in : Z)
| EvPort1 (p1ifg p1in : Z).

Definition step (s : state) (e : event) : state :=
  match e with
  | EvConfirm => confirm_switch s
  | EvPosit b => positioning_switch b s
  | EvTick p => Timer_A p s
  | EvPort1 f p => Port1_isr f p s
  end.

Definition run (s : state) (l : list event) : state := fold_left step l s.

(** The events of [RfMotor.event], a pass being its two switches. *)
Definition pass (e : RfMotor.event) : list event :=
  match e with
  | RfMotor.EvMain b => [EvConfirm; EvPosit b]
  | RfMotor.EvTick p => [EvTick p]
  | RfMotor.EvPort1 f p => [EvPort1 f p]
  end.

(** The positioning switch has run since the confirmation switch last
    did; [acc] tells it of the events before [l]. *)
Fixpoint posit_last (acc : bool) (l : list event) : bool :=
  match l with
  | [] => acc
  | EvConfirm :: l' => posit_last false l'
  | EvPosit _ :: l' => posit_last true l'
  | _ :: l' => posit_last acc l'
  end.

Definition ticks_of (inputs : list Z) : list event := map EvTick inputs.

(** A detection, its confirmation and the end of the command, up to the
    confirmation switch that raises [Command]: the edge, an accepted
    pattern, a pass that notices the flag, [VALIDATE_RF] expiries of
    the prescaler, a pass that validates, a spurious edge that brings
    the flag down, [WAITEND_RF] expiries, and the confirmation
    switch. *)
Definition command_raised : list event :=
  EvPort1 BIT6 BIT6
  :: ticks_of (repeat HIGH 625 ++ repeat LOW 616 ++ [HIGH])
  ++ [EvConfirm; EvPosit false]
  ++ ticks_of (repeat LOW 1010)
  ++ [EvConfirm; EvPosit false]
  ++ [EvTick HIGH; EvPort1 BIT6 BIT6; EvTick LOW]
  ++ ticks_of (repeat LOW 1010)
  ++ [EvConfirm].

End Fine.

(** * Properties *)

Import RfMotor RfSpec Line.

Local Arguments Z.testbit : simpl never.
Local Arguments Z.lor : simpl never.
Local Arguments Z.land : simpl never.
Local Arguments Z.lnot : simpl never.
Local Arguments Z.modulo : simpl never.
Local Arguments Z.add : simpl never.
Local Arguments Z.sub : simpl never.
Local Arguments Z.mul : simpl never.

Ltac bool_hyps :=
  repeat match goal with
  | H : (_ =? _) = true |- _ => apply Z.eqb_eq in H
  | H : (_ =? _) = false |- _ => apply Z.eqb_neq in H
  | H : (_ <? _) = true |- _ => apply Z.ltb_lt in H
  | H : (_ <? _) = false |- _ => apply Z.ltb_ge in H
  | H : (_ <=? _) = true |- _ => apply Z.leb_le in H
  | H : (_ <=? _) = false |- _ => apply Z.leb_gt in H
  | H : (_ >? _) = true |- _ => rewrite Z.gtb_ltb in H; apply Z.ltb_lt in H
  | H : (_ >? _) = false |- _ => rewrite Z.gtb_ltb in H; apply Z.ltb_ge in H
  | H : (_ >=? _) = true |- _ => rewrite Z.geb_leb in H; apply Z.leb_le in H
  | H : (_ >=? _) = false |- _ => rewrite Z.geb_leb in H; apply Z.leb_gt in H
  | H : negb _ = true |- _ => apply negb_true_iff in H
  | H : negb _ = false |- _ => apply negb_false_iff in H
  | H : (_ && _) = true |- _ => apply andb_true_iff in H; destruct H
  | H : (_ || _) = false |- _ => apply orb_false_iff in H; destruct H
  | H : (_ && _) = false |- _ => apply andb_false_iff in H; destruct H
  | H : (_ || _) = true |- _ => apply orb_true_iff in H; destruct H
  end.

Ltac split_and := repeat match goal with |- _ /\ _ => split end.

Ltac case_if :=
  match goal with
  | |- context [if ?c then _ else _] => destruct c eqn:?
  end.

(** Case analysis on a condition that contains no other conditional. *)
Ltac inner_case_if :=
  match goal with
  | |- context [if ?c then _ else _] =>
      lazymatch c with
      | context [if _ then _ else _] => fail
      | _ => destruct c eqn:?
      end
  end.

Ltac rf_consts :=
  unfold PWM1_MAXSTEP, PWMINITIALVALUE, POSIT_START, POSIT_END, SPEED,
    COUNTHIGH, COUNTLOW, COUNTOLER, VALIDATE_RF, WAITEND_RF, IGNORE_RF,
    PRESCALER, POSIT, MOVINGUP, MOVINGDOWN, WAITINGUP, WAITINGDOWN, IDLE,
    DETHIGH, DETLOW, DETEND, VALIDATE, WAITDETEND, IGNORE, FALSE, TRUE,
    BIT0, BIT2, BIT5, BIT6, is_u16, is_u8 in *.

Lemma u16_small (x : Z) : 0 <= x < 65536 -> u16 x = x.
Proof. intros H. unfold u16. now apply Z.mod_small. Qed.

Lemma u16_range (x : Z) : 0 <= u16 x < 65536.
Proof. unfold u16. apply Z.mod_pos_bound. lia. Qed.

Ltac u16_simpl :=
  repeat match goal with
  | |- context [u16 ?x] => rewrite (u16_small x) by lia
  | H : context [u16 ?x] |- _ => rewrite (u16_small x) in H by lia
  end.

Lemma testbit_set (x : Z) : Z.testbit (Z.lor x BIT2) 2 = true.
Proof. rewrite Z.lor_spec. apply orb_true_r. Qed.

Lemma testbit_clear (x : Z) : Z.testbit (Z.land x (Z.lnot BIT2)) 2 = false.
Proof. rewrite Z.land_spec. apply andb_false_r. Qed.

Lemma nonzero_true (x : Z) : nonzero x = true <-> x <> 0.
Proof.
  unfold nonzero. rewrite negb_true_iff. apply Z.eqb_neq.
Qed.

Lemma nonzero_false (x : Z) : nonzero x = false <-> x = 0.
Proof.
  unfold nonzero. rewrite negb_false_iff. apply Z.eqb_eq.
Qed.

Lemma land_pow2_nonzero (r k : Z) :
  0 <= k -> (Z.land r (2 ^ k) <> 0 <-> Z.testbit r k = true).
Proof.
  intros Hk. split.
  - intros H. destruct (Z.testbit r k) eqn:T; [reflexivity|].
    exfalso. apply H. apply Z.bits_inj'. intros n Hn.
    rewrite Z.land_spec, Z.bits_0, Z.pow2_bits_eqb by assumption.
    destruct (Z.eqb_spec k n) as [<-|_].
    + now rewrite T.
    + apply andb_false_r.
  - intros T E.
    assert (B : Z.testbit (Z.land r (2 ^ k)) k = true).
    { rewrite Z.land_spec, T, Z.pow2_bits_eqb, Z.eqb_refl by assumption.
      reflexivity. }
    rewrite E, Z.bits_0 in B. discriminate B.
Qed.

Lemma wf_Init : wf Init.
Proof. unfold wf, Init; rf_consts; simpl; lia. Qed.

(** *** The code on concrete inputs *)

Example first_trigger :
  let s := main_body true Init in
  (Pwm1_State s, Pwm1_reach s, Pwm1_dc s) = (MOVINGDOWN, 78, 161).
Proof. reflexivity. Qed.

Example first_unit_step :
  let s := main_body false (main_body true Init) in
  (Pwm1_State s, Pwm1_dc s, Pwm1_delay s) = (WAITINGDOWN, 160, SPEED).
Proof. reflexivity. Qed.

Example detection_armed :
  let s := Port1_isr BIT6 BIT6 Init in
  (qualifier s, P1IE s) = ((DETHIGH, 0, FALSE), 0).
Proof. reflexivity. Qed.

Example clean_pattern_from_Init :
  let s :=
    run Init (EvPort1 BIT6 BIT6
              :: tick_events (repeat HIGH 625 ++ repeat LOW 624)) in
  qualifier s = (DETLOW, 623, FALSE) /\
  qualifier (Timer_A HIGH s) = (DETEND, 0, TRUE).
Proof. vm_compute. split; reflexivity. Qed.

Example first_pwm_period :
  map (fun n => pwm_out (run Init (quiet_ticks n)))
      [1; 161; 162; 2000; 2001]%nat
  = [true; true; false; false; false] /\
  Pwm1_cn (run Init (quiet_ticks 2001)) = 0.
Proof. vm_compute. split; reflexivity. Qed.

(** *** Frame lemmas: what each block of code leaves unchanged *)

Lemma detect_switch_frame (p1in : Z) (s : state) :
  let s' := detect_switch p1in s in
  Pwm1_reach s' = Pwm1_reach s /\ Pwm1_dc s' = Pwm1_dc s /\
  Pwm1_cn s' = Pwm1_cn s /\ Pwm1_State s' = Pwm1_State s /\
  Pwm1_delay s' = Pwm1_delay s /\ RfDetConfirmSt s' = RfDetConfirmSt s /\
  RfPrescaler s' = RfPrescaler s /\ RfLongDelay s' = RfLongDelay s /\
  RfShortDelay s' = RfShortDelay s /\ Command s' = Command s.
Proof.
  destruct s; unfold detect_switch, TEST_ON, TEST_OFF; simpl.
  repeat case_if; simpl; repeat split; reflexivity.
Qed.

Lemma delay_management_frame (s : state) :
  let s' := delay_management s in
  Pwm1_reach s' = Pwm1_reach s /\ Pwm1_dc s' = Pwm1_dc s /\
  Pwm1_cn s' = Pwm1_cn s /\ Pwm1_State s' = Pwm1_State s /\
  RfDetState s' = RfDetState s /\ RfDetCounter s' = RfDetCounter s /\
  RfDetected s' = RfDetected s /\ RfDetConfirmSt s' = RfDetConfirmSt s /\
  Command s' = Command s /\ P1OUT s' = P1OUT s /\ P1IE s' = P1IE s.
Proof.
  destruct s; unfold delay_management; simpl.
  repeat case_if; simpl; repeat split; reflexivity.
Qed.

Lemma pwm_management_frame (s : state) :
  let s' := pwm_management s in
  Pwm1_reach s' = Pwm1_reach s /\ Pwm1_dc s' = Pwm1_dc s /\
  Pwm1_State s' = Pwm1_State s /\ Pwm1_delay s' = Pwm1_delay s /\
  RfDetState s' = RfDetState s /\ RfDetCounter s' = RfDetCounter s /\
  RfDetected s' = RfDetected s /\ RfDetConfirmSt s' = RfDetConfirmSt s /\
  RfPrescaler s' = RfPrescaler s /\ RfLongDelay s' = RfLongDelay s /\
  RfShortDelay s' = RfShortDelay s /\ Command s' = Command s /\
  P1IE s' = P1IE s.
Proof.
  destruct s; unfold pwm_management, PWM1_ON, PWM1_OFF; simpl.
  repeat case_if; simpl; repeat split; reflexivity.
Qed.

Lemma confirm_switch_frame (s : state) :
  let s' := confirm_switch s in
  Pwm1_reach s' = Pwm1_reach s /\ Pwm1_dc s' = Pwm1_dc s /\
  Pwm1_cn s' = Pwm1_cn s /\ Pwm1_State s' = Pwm1_State s /\
  Pwm1_delay s' = Pwm1_delay s /\ RfDetState s' = RfDetState s /\
  RfDetCounter s' = RfDetCounter s /\ RfDetected s' = RfDetected s /\
  RfPrescaler s' = RfPrescaler s /\ P1IE s' = P1IE s.
Proof.
  destruct s; unfold confirm_switch, LED_ON, LED_OFF; simpl.
  repeat case_if; simpl; repeat split; reflexivity.
Qed.

Lemma positioning_switch_frame (b : bool) (s : state) :
  let s' := positioning_switch b s in
  Pwm1_cn s' = Pwm1_cn s /\ RfDetState s' = RfDetState s /\
  RfDetCounter s' = RfDetCounter s /\ RfDetected s' = RfDetected s /\
  RfDetConfirmSt s' = RfDetConfirmSt s /\ RfPrescaler s' = RfPrescaler s /\
  RfLongDelay s' = RfLongDelay s /\ RfShortDelay s' = RfShortDelay s /\
  P1OUT s' = P1OUT s /\ P1IE s' = P1IE s.
Proof.
  destruct s; unfold positioning_switch, posit_case; simpl.
  repeat case_if; simpl; repeat split; reflexivity.
Qed.

Lemma Port1_isr_frame (p1ifg p1in : Z) (s : state) :
  let s' := Port1_isr p1ifg p1in s in
  Pwm1_reach s' = Pwm1_reach s /\ Pwm1_dc s' = Pwm1_dc s /\
  Pwm1_cn s' = Pwm1_cn s /\ Pwm1_State s' = Pwm1_State s /\
  Pwm1_delay s' = Pwm1_delay s /\ RfDetected s' = RfDetected s /\
  RfDetConfirmSt s' = RfDetConfirmSt s /\ RfPrescaler s' = RfPrescaler s /\
  RfLongDelay s' = RfLongDelay s /\ RfShortDelay s' = RfShortDelay s /\
  Command s' = Command s /\ P1OUT s' = P1OUT s.
Proof.
  destruct s; unfold Port1_isr; simpl.
  repeat case_if; simpl; repeat split; reflexivity.
Qed.

(** The PWM block alone. *)
Lemma pwm_management_spec (s : state) :
  0 <= Pwm1_cn s < 65536 ->
  let s' := pwm_management s in
  (Pwm1_cn s < PWM1_MAXSTEP ->
     Pwm1_cn s' = Pwm1_cn s + 1 /\
     (pwm_out s' = true <-> Pwm1_cn s' <= Pwm1_dc s')) /\
  (PWM1_MAXSTEP <= Pwm1_cn s -> Pwm1_cn s' = 0 /\ pwm_out s' = false).
Proof.
  intros Hcn. destruct s; unfold pwm_out, pwm_management, PWM1_ON, PWM1_OFF.
  unfold PWM1_MAXSTEP in *; simpl in *.
  repeat case_if; simpl; bool_hyps; u16_simpl;
    rewrite ?testbit_set, ?testbit_clear;
    repeat split; intros; try lia; try congruence.
Qed.

(** The PWM part of a tick. *)
Lemma Timer_A_pwm (s : state) (p1in : Z) :
  0 <= Pwm1_cn s < 65536 ->
  let s' := Timer_A p1in s in
  Pwm1_dc s' = Pwm1_dc s /\
  (Pwm1_cn s < PWM1_MAXSTEP ->
     Pwm1_cn s' = Pwm1_cn s + 1 /\
     (pwm_out s' = true <-> Pwm1_cn s' <= Pwm1_dc s')) /\
  (PWM1_MAXSTEP <= Pwm1_cn s -> Pwm1_cn s' = 0 /\ pwm_out s' = false).
Proof.
  intros Hcn s'. subst s'. unfold Timer_A.
  set (s1 := if Pwm1_State s =? POSIT then detect_switch p1in s else s).
  assert (H1 : Pwm1_cn s1 = Pwm1_cn s /\ Pwm1_dc s1 = Pwm1_dc s).
  { subst s1. case_if; [|tauto].
    pose proof (detect_switch_frame p1in s) as F; simpl in F; tauto. }
  pose proof (delay_management_frame s1) as F2; simpl in F2.
  pose proof (pwm_management_frame (delay_management s1)) as F3; simpl in F3.
  pose proof (pwm_management_spec (delay_management s1)) as P; simpl in P.
  destruct H1 as [Hc Hd].
  destruct F2 as (_ & F2d & F2c & _), F3 as (_ & F3d & _).
  rewrite F2c, Hc, F3d, F2d, Hd in P.
  split; [congruence|]. rewrite F3d, F2d, Hd.
  apply P. exact Hcn.
Qed.

(** C2. On every tick the counter is incremented and the PWM pin is
    driven high exactly when the incremented counter is at most the duty
    cycle; when the counter has reached [PWM1_MAXSTEP] the tick resets it
    to 0 and drives the pin low, whatever the duty cycle. *)
Theorem pwm_output_level (s : state) (p1in : Z) :
  wf s ->
  let s' := Timer_A p1in s in
  Pwm1_dc s' = Pwm1_dc s /\
  (Pwm1_cn s < PWM1_MAXSTEP ->
     Pwm1_cn s' = Pwm1_cn s + 1 /\
     (pwm_out s' = true <-> Pwm1_cn s' <= Pwm1_dc s')) /\
  (PWM1_MAXSTEP <= Pwm1_cn s -> Pwm1_cn s' = 0 /\ pwm_out s' = false).
Proof.
  intros Hwf. apply Timer_A_pwm.
  destruct Hwf as (_ & _ & Hcn & _). exact Hcn.
Qed.

(** *** Every variable stays within its C type *)

Ltac wf_solve :=
  unfold wf, is_u16, is_u8 in *; simpl in *;
  repeat case_if; simpl; rf_consts;
  repeat match goal with
  | |- context [u16 ?x] =>
      pose proof (u16_range x); generalize dependent (u16 x); intros
  end;
  repeat split; lia.

Lemma wf_confirm_switch (s : state) : wf s -> wf (confirm_switch s).
Proof.
  destruct s; unfold confirm_switch, LED_ON, LED_OFF. intros H. wf_solve.
Qed.

Lemma wf_positioning_switch (b : bool) (s : state) :
  wf s -> wf (positioning_switch b s).
Proof.
  destruct s; unfold positioning_switch, posit_case. intros H. wf_solve.
Qed.

Lemma wf_detect_switch (p : Z) (s : state) : wf s -> wf (detect_switch p s).
Proof.
  destruct s; unfold detect_switch, TEST_ON, TEST_OFF. intros H. wf_solve.
Qed.

Lemma wf_delay_management (s : state) : wf s -> wf (delay_management s).
Proof.
  destruct s; unfold delay_management. intros H. wf_solve.
Qed.

Lemma wf_pwm_management (s : state) : wf s -> wf (pwm_management s).
Proof.
  destruct s; unfold pwm_management, PWM1_ON, PWM1_OFF. intros H. wf_solve.
Qed.

Lemma wf_Port1_isr (f p : Z) (s : state) : wf s -> wf (Port1_isr f p s).
Proof.
  destruct s; unfold Port1_isr. intros H. wf_solve.
Qed.

Lemma wf_step (s : state) (e : event) : wf s -> wf (step s e).
Proof.
  intros H. destruct e; simpl.
  - now apply wf_positioning_switch, wf_confirm_switch.
  - unfold Timer_A. apply wf_pwm_management, wf_delay_management.
    case_if; [now apply wf_detect_switch | assumption].
  - now apply wf_Port1_isr.
Qed.

Lemma run_app (s : state) (l1 l2 : list event) :
  run s (l1 ++ l2) = run (run s l1) l2.
Proof. unfold run. apply fold_left_app. Qed.

Lemma run_cons (s : state) (e : event) (l : list event) :
  run s (e :: l) = run (step s e) l.
Proof. reflexivity. Qed.

Lemma wf_run (l : list event) (s : state) : wf s -> wf (run s l).
Proof.
  revert s. induction l as [|e l IH]; intros s H; [assumption|].
  rewrite run_cons. apply IH. now apply wf_step.
Qed.

Lemma run_ticks_snoc (s : state) (l : list Z) (p : Z) :
  run s (tick_events (l ++ [p])) = Timer_A p (run s (tick_events l)).
Proof. unfold tick_events. now rewrite map_app, run_app. Qed.

Lemma run_ticks_app (s : state) (l1 l2 : list Z) :
  run s (tick_events (l1 ++ l2)) =
  run (run s (tick_events l1)) (tick_events l2).
Proof. unfold tick_events. now rewrite map_app, run_app. Qed.

Lemma run_ticks_cons (s : state) (p : Z) (l : list Z) :
  run s (tick_events (p :: l)) = run (Timer_A p s) (tick_events l).
Proof. reflexivity. Qed.

Lemma repeat_succ (x : Z) (n : nat) : repeat x (S n) = x :: repeat x n.
Proof. reflexivity. Qed.

Lemma before_each_cons (P : state -> bool) (e : event) (l : list event)
  (s : state) :
  before_each P s (e :: l) = true ->
  P s = true /\ before_each P (step s e) l = true.
Proof. cbn [before_each]. intros H. now apply andb_true_iff in H. Qed.

Lemma before_each_app (P : state -> bool) (l1 l2 : list event) (s : state) :
  before_each P s (l1 ++ l2)
  = before_each P s l1 && before_each P (run s l1) l2.
Proof.
  revert s. induction l1 as [|e l1 IH]; intros s.
  - reflexivity.
  - cbn [app before_each]. rewrite run_cons, IH. now rewrite andb_assoc.
Qed.

(** *** The PWM counter *)

Lemma Timer_A_cn (p : Z) (s : state) :
  0 <= Pwm1_cn s <= PWM1_MAXSTEP ->
  Pwm1_cn (Timer_A p s) = (Pwm1_cn s + 1) mod (PWM1_MAXSTEP + 1).
Proof.
  intros H. unfold Timer_A.
  set (s1 := if Pwm1_State s =? POSIT then detect_switch p s else s).
  assert (H1 : Pwm1_cn s1 = Pwm1_cn s).
  { subst s1. case_if; [|reflexivity].
    pose proof (detect_switch_frame p s) as F; simpl in F; tauto. }
  pose proof (delay_management_frame s1) as F2; simpl in F2.
  destruct F2 as (_ & _ & F2c & _).
  pose proof (pwm_management_spec (delay_management s1)) as P; simpl in P.
  rewrite F2c, H1 in P. unfold PWM1_MAXSTEP in *.
  destruct P as [P1 P2]; [lia|].
  destruct (Z_lt_ge_dec (Pwm1_cn s) 2000) as [Hlt|Hge].
  - destruct (P1 Hlt) as [-> _]. rewrite Z.mod_small; lia.
  - destruct P2 as [-> _]; [lia|].
    replace (Pwm1_cn s) with 2000 by lia. reflexivity.
Qed.

Lemma step_cn (s : state) (e : event) :
  0 <= Pwm1_cn s <= PWM1_MAXSTEP ->
  Pwm1_cn (step s e) =
    (Pwm1_cn s + ticks [e]) mod (PWM1_MAXSTEP + 1).
Proof.
  intros H. destruct e; simpl.
  - pose proof (confirm_switch_frame s) as F1; simpl in F1.
    pose proof (positioning_switch_frame button (confirm_switch s)) as F2.
    simpl in F2. unfold main_body.
    destruct F1 as (_ & _ & F1 & _), F2 as (F2 & _).
    rewrite F2, F1, Z.add_0_r, Z.mod_small; unfold PWM1_MAXSTEP in *; lia.
  - now apply Timer_A_cn.
  - pose proof (Port1_isr_frame p1ifg p1in s) as F; simpl in F.
    destruct F as (_ & _ & F & _).
    rewrite F, Z.add_0_r, Z.mod_small; unfold PWM1_MAXSTEP in *; lia.
Qed.

Lemma run_cn (l : list event) (s : state) :
  0 <= Pwm1_cn s <= PWM1_MAXSTEP ->
  Pwm1_cn (run s l) = (Pwm1_cn s + ticks l) mod (PWM1_MAXSTEP + 1).
Proof.
  revert s. induction l as [|e l IH]; intros s H.
  - simpl. rewrite Z.add_0_r, Z.mod_small; unfold PWM1_MAXSTEP in *; lia.
  - rewrite run_cons, IH, (step_cn s e H).
    + rewrite Zplus_mod_idemp_l. f_equal.
      destruct e; simpl; lia.
    + rewrite (step_cn s e H).
      pose proof (Z.mod_pos_bound (Pwm1_cn s + ticks [e]) (PWM1_MAXSTEP + 1)).
      unfold PWM1_MAXSTEP in *; lia.
Qed.

(** C3, as the code has it.  In every execution from [Init] the PWM
    counter stays within the closed interval from 0 to [PWM1_MAXSTEP]: it
    is the number of ticks so far modulo [PWM1_MAXSTEP + 1], so it wraps
    to 0 on the tick after it has reached [PWM1_MAXSTEP] and the PWM
    period is [PWM1_MAXSTEP + 1] ticks. *)
Theorem pwm_counter_range (l : list event) :
  0 <= Pwm1_cn (run Init l) <= PWM1_MAXSTEP /\
  Pwm1_cn (run Init l) = ticks l mod (PWM1_MAXSTEP + 1).
Proof.
  assert (E : Pwm1_cn (run Init l) = ticks l mod (PWM1_MAXSTEP + 1)).
  { rewrite run_cn; [reflexivity| simpl; unfold PWM1_MAXSTEP; lia]. }
  split; [|exact E]. rewrite E.
  pose proof (Z.mod_pos_bound (ticks l) (PWM1_MAXSTEP + 1)).
  unfold PWM1_MAXSTEP in *; lia.
Qed.

(** C3, as stated, fails: after [PWM1_MAXSTEP] ticks from [Init] the
    counter holds [PWM1_MAXSTEP], outside the half-open interval. *)
Lemma pwm_counter_reaches_maxstep :
  Pwm1_cn (run Init (tick_events (repeat LOW 2000))) = PWM1_MAXSTEP /\
  ~ (0 <= Pwm1_cn (run Init (tick_events (repeat LOW 2000)))
       < PWM1_MAXSTEP).
Proof.
  assert (E : Pwm1_cn (run Init (tick_events (repeat LOW 2000)))
              = PWM1_MAXSTEP) by (vm_compute; reflexivity).
  split; [exact E|]. rewrite E. lia.
Qed.

(** *** The goal chosen at rest *)

Lemma posit_case_spec (s : state) :
  let s' := posit_case s in
  Pwm1_reach s' = spec_target POSIT_START POSIT_END (Pwm1_dc s) /\
  Pwm1_State s' =
    spec_direction MOVINGUP MOVINGDOWN (Pwm1_reach s') (Pwm1_dc s) /\
  Pwm1_dc s' = Pwm1_dc s /\ Pwm1_delay s' = Pwm1_delay s /\
  Command s' = FALSE.
Proof.
  destruct s; unfold posit_case, spec_target, spec_direction; simpl.
  rf_consts.
  repeat (case_if; simpl in *); bool_hyps;
    repeat split; try reflexivity; try lia.
Qed.

Lemma pwmtest2_posit_case_spec (s : Pwmtest2.state) :
  let s' := Pwmtest2.posit_case s in
  Pwmtest2.Pwm1_reach s' =
    spec_target Pwmtest2.POSIT1 Pwmtest2.POSIT2 (Pwmtest2.Pwm1_dc s) /\
  Pwmtest2.Pwm1_State s' =
    spec_direction Pwmtest2.MOVINGUP Pwmtest2.MOVINGDOWN
      (Pwmtest2.Pwm1_reach s') (Pwmtest2.Pwm1_dc s) /\
  Pwmtest2.Pwm1_dc s' = Pwmtest2.Pwm1_dc s.
Proof.
  destruct s; unfold Pwmtest2.posit_case, spec_target, spec_direction.
  simpl. unfold Pwmtest2.POSIT1, Pwmtest2.POSIT2.
  repeat (case_if; simpl in *); bool_hyps;
    repeat split; try reflexivity; try lia.
Qed.

(** C7. When the positioning switch is entered at rest on a trigger (the
    button, or [Command == TRUE]), the goal [Pwm1_reach] is the one given
    by the tie-break rule over [POSIT_START] and [POSIT_END], and the next
    state is [MOVINGUP] if the goal is above the duty cycle and
    [MOVINGDOWN] otherwise.  The [POSIT] arm of pwmtest2.c follows the
    same rule over its endpoints [POSIT1] and [POSIT2]. *)
Theorem goal_tie_break :
  (forall (button : bool) (s : state),
     Pwm1_State s = POSIT ->
     button = true \/ Command s = TRUE ->
     let s' := positioning_switch button s in
     Pwm1_reach s' = spec_target POSIT_START POSIT_END (Pwm1_dc s) /\
     Pwm1_State s' =
       spec_direction MOVINGUP MOVINGDOWN (Pwm1_reach s') (Pwm1_dc s) /\
     Pwm1_dc s' = Pwm1_dc s) /\
  (forall s : Pwmtest2.state,
     Pwmtest2.Pwm1_State s = Pwmtest2.POSIT ->
     let s' := Pwmtest2.main_body false true s in
     Pwmtest2.Pwm1_reach s' =
       spec_target Pwmtest2.POSIT1 Pwmtest2.POSIT2 (Pwmtest2.Pwm1_dc s) /\
     Pwmtest2.Pwm1_State s' =
       spec_direction Pwmtest2.MOVINGUP Pwmtest2.MOVINGDOWN
         (Pwmtest2.Pwm1_reach s') (Pwmtest2.Pwm1_dc s) /\
     Pwmtest2.Pwm1_dc s' = Pwmtest2.Pwm1_dc s).
Proof.
  split.
  - intros b s Hst Htrig s'. subst s'.
    assert (E : positioning_switch b s = posit_case s).
    { unfold positioning_switch. rewrite Hst. simpl.
      destruct Htrig as [-> | ->]; [reflexivity|].
      simpl. now rewrite orb_true_r. }
    rewrite E. pose proof (posit_case_spec s) as P; simpl in P. tauto.
  - intros s Hst s'. subst s'.
    pose proof (pwmtest2_posit_case_spec s) as P; simpl in P.
    unfold Pwmtest2.main_body, Pwmtest2.s2_switch. simpl. rewrite Hst. simpl.
    destruct (Pwmtest2.posit_case s) eqn:E; simpl in *.
    unfold Pwmtest2.LED_ON, Pwmtest2.LED_OFF. case_if; simpl; exact P.
Qed.

Lemma goal_tie_break_witness :
  Pwm1_reach (positioning_switch true Init) = POSIT_END /\
  Pwm1_State (positioning_switch true Init) = MOVINGDOWN /\
  Pwmtest2.Pwm1_reach
    (Pwmtest2.main_body false true
       (Pwmtest2.set_Pwm1_State Pwmtest2.POSIT Pwmtest2.Init))
  = Pwmtest2.POSIT1.
Proof.
  destruct goal_tie_break as [H1 H2].
  destruct (H1 true Init eq_refl (or_introl eq_refl)) as (R & S & _).
  destruct (H2 (Pwmtest2.set_Pwm1_State Pwmtest2.POSIT Pwmtest2.Init)
              eq_refl) as (R2 & _).
  split; [exact R | split; [exact S | exact R2]].
Defined.

(** *** Invariant of the positioning machine *)

Ltac state_cases st :=
  let H := fresh in
  assert (H : st = 0 \/ st = 1 \/ st = 2 \/ st = 3 \/ st = 4) by lia;
  destruct H as [-> | [-> | [-> | [-> | ->]]]].

Ltac use_refl :=
  repeat match goal with
  | H : ?a = ?a -> _ |- _ => specialize (H eq_refl)
  | H : false = true -> _ |- _ => clear H
  end.

Lemma positioning_switch_inv (b : bool) (s : state) :
  posit_inv s ->
  posit_inv (positioning_switch b s) /\
  unit_move s (positioning_switch b s).
Proof.
  destruct s; unfold posit_inv, unit_move, going_up, going_down; simpl.
  intros (Hdc & Hre & Hst & Hup & Hdn). revert Hup Hdn.
  unfold positioning_switch, posit_case. rf_consts.
  state_cases Pwm1_State0; simpl; intros Hup Hdn; use_refl;
    repeat (case_if; simpl in * ); bool_hyps; u16_simpl;
    repeat split; intros; try lia; try discriminate.
Qed.

Lemma posit_inv_frame (s s' : state) :
  Pwm1_dc s' = Pwm1_dc s -> Pwm1_reach s' = Pwm1_reach s ->
  Pwm1_State s' = Pwm1_State s ->
  posit_inv s -> posit_inv s' /\ unit_move s s'.
Proof.
  unfold posit_inv, unit_move, going_up, going_down.
  intros -> -> ->. tauto.
Qed.

Lemma Timer_A_frame (p : Z) (s : state) :
  let s' := Timer_A p s in
  Pwm1_reach s' = Pwm1_reach s /\ Pwm1_dc s' = Pwm1_dc s /\
  Pwm1_State s' = Pwm1_State s /\ RfDetConfirmSt s' = RfDetConfirmSt s /\
  Command s' = Command s.
Proof.
  simpl. unfold Timer_A.
  set (s1 := if Pwm1_State s =? POSIT then detect_switch p s else s).
  assert (H1 : Pwm1_reach s1 = Pwm1_reach s /\ Pwm1_dc s1 = Pwm1_dc s /\
               Pwm1_State s1 = Pwm1_State s /\
               RfDetConfirmSt s1 = RfDetConfirmSt s /\
               Command s1 = Command s).
  { subst s1. case_if; [|tauto].
    pose proof (detect_switch_frame p s) as F; simpl in F; tauto. }
  pose proof (delay_management_frame s1) as F2; simpl in F2.
  pose proof (pwm_management_frame (delay_management s1)) as F3.
  simpl in F3.
  destruct H1 as (A1 & A2 & A3 & A4 & A5).
  destruct F2 as (B1 & B2 & _ & B3 & _ & _ & _ & B4 & B5 & _).
  destruct F3 as (C1 & C2 & C3 & _ & _ & _ & _ & C4 & _ & _ & _ & C5 & _).
  repeat split; congruence.
Qed.

Lemma step_posit_inv (s : state) (e : event) :
  posit_inv s -> posit_inv (step s e) /\ unit_move s (step s e).
Proof.
  intros H. destruct e; simpl.
  - unfold main_body.
    pose proof (confirm_switch_frame s) as F; simpl in F.
    destruct F as (F1 & F2 & _ & F3 & _).
    destruct (posit_inv_frame s (confirm_switch s) F2 F1 F3 H) as [H1 _].
    destruct (positioning_switch_inv button _ H1) as [H2 H3].
    split; [exact H2|]. unfold unit_move in *. rewrite F1, F2 in H3.
    exact H3.
  - pose proof (Timer_A_frame p1in s) as F; simpl in F.
    apply posit_inv_frame; tauto.
  - pose proof (Port1_isr_frame p1ifg p1in s) as F; simpl in F.
    apply posit_inv_frame; tauto.
Qed.

Lemma posit_inv_Init : posit_inv Init.
Proof.
  unfold posit_inv, going_up, going_down; simpl; rf_consts.
  repeat split; try lia; try discriminate; try (right; reflexivity).
Qed.

Lemma run_posit_inv (l : list event) (s : state) :
  posit_inv s -> posit_inv (run s l).
Proof.
  revert s. induction l as [|e l IH]; intros s H; [assumption|].
  rewrite run_cons. apply IH. now apply step_posit_inv.
Qed.

(** Width of the pulse: while the counter rises, the pin is high on the
    ticks that bring the counter up to the duty cycle. *)
Lemma high_ticks_rising (inputs : list Z) (s : state) :
  0 <= Pwm1_cn s ->
  Pwm1_cn s + Z.of_nat (length inputs) <= PWM1_MAXSTEP ->
  high_ticks s inputs
  = Z.max 0 (Z.min (Pwm1_dc s) (Pwm1_cn s + Z.of_nat (length inputs))
             - Pwm1_cn s) /\
  Pwm1_cn (run s (tick_events inputs))
  = Pwm1_cn s + Z.of_nat (length inputs) /\
  Pwm1_dc (run s (tick_events inputs)) = Pwm1_dc s.
Proof.
  revert s. induction inputs as [|p r IH]; intros s H0 Hn.
  - simpl. split_and; try reflexivity; lia.
  - cbn [length] in Hn. rewrite Nat2Z.inj_succ in Hn.
    destruct (Timer_A_pwm s p) as (Hd & Hlt & _);
      [unfold PWM1_MAXSTEP in *; lia|].
    destruct Hlt as [Hc Hout]; [lia|].
    destruct (IH (Timer_A p s)) as (A & B & C); [lia | lia |].
    cbn [high_ticks length tick_events map]. rewrite run_cons. cbn [step].
    unfold tick_events in B, C.
    rewrite Nat2Z.inj_succ, A, B, C, Hc, Hd. split_and; try lia.
    destruct (pwm_out (Timer_A p s)) eqn:O.
    + assert (Pwm1_cn (Timer_A p s) <= Pwm1_dc (Timer_A p s))
        by now apply Hout.
      lia.
    + assert (~ Pwm1_cn (Timer_A p s) <= Pwm1_dc (Timer_A p s)).
      { intros H. apply Hout in H. congruence. }
      lia.
Qed.

Lemma high_ticks_app (l1 l2 : list Z) (s : state) :
  high_ticks s (l1 ++ l2)
  = high_ticks s l1 + high_ticks (run s (tick_events l1)) l2.
Proof.
  revert s. induction l1 as [|p r IH]; intros s.
  - simpl. lia.
  - cbn [app high_ticks tick_events map]. rewrite run_cons. cbn [step].
    unfold tick_events in IH. rewrite IH. lia.
Qed.

(** Over one period, started with the counter at 0, the pin is high for
    as many ticks as the duty cycle. *)
Lemma high_ticks_period (inputs : list Z) (s : state) :
  Pwm1_cn s = 0 -> 0 <= Pwm1_dc s <= PWM1_MAXSTEP ->
  length inputs = Z.to_nat (PWM1_MAXSTEP + 1) ->
  high_ticks s inputs = Pwm1_dc s /\
  Pwm1_cn (run s (tick_events inputs)) = 0.
Proof.
  intros Hc Hd Hl.
  destruct (exists_last (l := inputs)) as (r & p & ->).
  { intros ->. discriminate Hl. }
  rewrite length_app in Hl. cbn [length] in Hl.
  assert (Hr : Z.of_nat (length r) = PWM1_MAXSTEP)
    by (unfold PWM1_MAXSTEP in *; lia).
  destruct (high_ticks_rising r s) as (A & B & C); [lia | lia |].
  rewrite high_ticks_app, run_ticks_snoc, A. cbn [high_ticks].
  destruct (Timer_A_pwm (run s (tick_events r)) p) as (_ & _ & Hge).
  { rewrite B. unfold PWM1_MAXSTEP in *. lia. }
  destruct Hge as [Hz Ho]; [lia|]. rewrite Ho, Hz. split; lia.
Qed.

(** C10. In every state reachable from [Init] the duty cycle lies between
    [POSIT_END] and [POSIT_START]: the goal is one of the two endpoints,
    and every event leaves the duty cycle or moves it by one unit towards
    the goal (so it does not move once equal to the goal).  Over a PWM
    period the pin is high for as many ticks as the duty cycle, so that
    the pulse width, at 0.01 ms per tick, stays within the 380 to 2320
    microseconds accepted by the servomotor. *)
Theorem duty_cycle_band (l : list event) (e : event) :
  let s := run Init l in
  POSIT_END <= Pwm1_dc s <= POSIT_START /\
  (Pwm1_reach s = POSIT_START \/ Pwm1_reach s = POSIT_END) /\
  unit_move s (step s e) /\
  (forall inputs : list Z,
     Pwm1_cn s = 0 -> length inputs = Z.to_nat (PWM1_MAXSTEP + 1) ->
     high_ticks s inputs = Pwm1_dc s) /\
  380 <= pulse_width_us (Pwm1_dc s) <= 2320.
Proof.
  intros s. assert (H : posit_inv s) by apply run_posit_inv, posit_inv_Init.
  destruct (step_posit_inv s e H) as [_ Hm].
  destruct H as (Hdc & Hre & _).
  unfold pulse_width_us. revert Hdc; rf_consts; intros Hdc.
  split_and; try tauto; try lia.
  intros inputs Hc Hl. apply high_ticks_period; try assumption.
  unfold PWM1_MAXSTEP. lia.
Qed.

Lemma duty_cycle_band_witness :
  high_ticks Init (repeat LOW 2001) = PWMINITIALVALUE.
Proof.
  destruct (duty_cycle_band [] (EvTick LOW)) as (_ & _ & _ & H & _).
  apply H; reflexivity.
Defined.

(** *** The duty cycle never wraps *)

Module Pwmtest2Facts.
Import Pwmtest2 Pwmtest2Spec.

Ltac state_cases9 st :=
  let H := fresh in
  assert (H : st = 0 \/ st = 1 \/ st = 2 \/ st = 3 \/ st = 4 \/ st = 5 \/
              st = 6 \/ st = 7 \/ st = 8) by lia;
  destruct H as [-> | [-> | [-> | [-> | [-> | [-> | [-> | [-> | ->]]]]]]]].

Ltac p2_consts :=
  unfold PWM1_MAXSTEP, PWMINITIALVALUE, POSIT1, POSIT2, SPEED, RESET, POSIT,
    POSITOLD, MOVINGUP, MOVINGDOWN, WAITINGUP, WAITINGDOWN, INCREASE,
    DECREASE in *.

Lemma s1_switch_inv (s : state) :
  dc_inv s -> dc_inv (s1_switch s) /\ Pwm1_dc (s1_switch s) = Pwm1_dc s.
Proof.
  destruct s; unfold dc_inv; simpl.
  intros (Hdc & Hst & Hup & Hdn). revert Hup Hdn.
  unfold s1_switch. p2_consts.
  state_cases9 Pwm1_State0; simpl; intros Hup Hdn; use_refl;
    repeat split; intros; try lia; try discriminate.
Qed.

Lemma s2_switch_inv (s : state) :
  dc_inv s -> dc_inv (s2_switch s) /\ dc_move s (s2_switch s).
Proof.
  destruct s; unfold dc_inv, dc_move; simpl.
  intros (Hdc & Hst & Hup & Hdn). revert Hup Hdn.
  unfold s2_switch, posit_case. p2_consts.
  state_cases9 Pwm1_State0; simpl; intros Hup Hdn; use_refl;
    repeat (case_if; simpl in * ); bool_hyps; u16_simpl;
    repeat split; intros; try lia; try discriminate.
Qed.

Lemma led_inv (s : state) :
  let s' :=
    if (Pwm1_dc s >=? 36) && (Pwm1_dc s <=? 220) then LED_ON s
    else LED_OFF s in
  dc_inv s -> dc_inv s' /\ Pwm1_dc s' = Pwm1_dc s.
Proof.
  destruct s; unfold dc_inv, LED_ON, LED_OFF; simpl.
  case_if; simpl; tauto.
Qed.

Lemma main_body_inv (b1 b2 : bool) (s : state) :
  dc_inv s -> dc_inv (main_body b1 b2 s) /\ dc_move s (main_body b1 b2 s).
Proof.
  intros H. unfold main_body.
  set (s1 := if b1 then s1_switch s else s).
  assert (H1 : dc_inv s1 /\ Pwm1_dc s1 = Pwm1_dc s).
  { subst s1. destruct b1; [now apply s1_switch_inv | tauto]. }
  destruct H1 as [H1 E1].
  match goal with
  | |- context [if ?c then s2_switch s1 else s1] =>
      set (s2 := if c then s2_switch s1 else s1)
  end.
  assert (H2 : dc_inv s2 /\ dc_move s1 s2).
  { subst s2. case_if; [now apply s2_switch_inv|].
    split; [assumption | now left]. }
  destruct H2 as [H2 M2].
  destruct (led_inv s2 H2) as [H3 E3]. split; [exact H3|].
  unfold dc_move in *. rewrite E3, <- E1. exact M2.
Qed.

Lemma Timer_A_inv (s : state) :
  dc_inv s -> dc_inv (Timer_A s) /\ dc_move s (Timer_A s).
Proof.
  destruct s; unfold dc_inv, dc_move; simpl.
  unfold Timer_A, PWM1_ON, PWM1_OFF, nonzero.
  repeat (case_if; simpl in * ); tauto.
Qed.

Lemma step_inv (s : state) (e : event) :
  dc_inv s -> dc_inv (step s e) /\ dc_move s (step s e).
Proof.
  destruct e; simpl; [apply main_body_inv | apply Timer_A_inv].
Qed.

Lemma run_inv (l : list event) (s : state) : dc_inv s -> dc_inv (run s l).
Proof.
  revert s. induction l as [|e l IH]; intros s H; [assumption|].
  change (run s (e :: l)) with (run (step s e) l).
  apply IH. now apply step_inv.
Qed.

Lemma Init_inv : dc_inv Init.
Proof.
  unfold dc_inv; simpl; p2_consts.
  repeat split; try lia; try discriminate.
Qed.

Lemma increase_clamped (s : state) :
  Pwm1_State s = INCREASE -> Pwm1_dc s = PWM1_MAXSTEP ->
  Pwm1_dc (main_body false true s) = PWM1_MAXSTEP.
Proof.
  destruct s; simpl. intros -> ->.
  unfold main_body, s2_switch; simpl. reflexivity.
Qed.

Lemma decrease_clamped (s : state) :
  Pwm1_State s = DECREASE -> Pwm1_dc s = 0 ->
  Pwm1_dc (main_body false true s) = 0.
Proof.
  destruct s; simpl. intros -> ->.
  unfold main_body, s2_switch; simpl. reflexivity.
Qed.

End Pwmtest2Facts.

(** C8. In every state reachable from [Init] no increment takes the duty
    cycle above [PWM1_MAXSTEP] and no decrement takes it below 0: after
    every event the duty cycle lies between the two bounds and, when it
    has moved, it has moved by exactly one unit in the integers (in
    pwmtest2.c it may also be assigned one of its three configured
    values), so the 16-bit arithmetic never wraps.  The manual
    increment and decrement of pwmtest2.c stop at the bounds. *)
Theorem duty_cycle_never_wraps :
  (forall (l : list event) (e : event),
     let s := run Init l in
     let s' := step s e in
     0 <= Pwm1_dc s' <= PWM1_MAXSTEP /\
     (Pwm1_dc s' = Pwm1_dc s \/ Pwm1_dc s' = Pwm1_dc s + 1 \/
      Pwm1_dc s' = Pwm1_dc s - 1)) /\
  (forall (l : list Pwmtest2.event) (e : Pwmtest2.event),
     let s := Pwmtest2.run Pwmtest2.Init l in
     let s' := Pwmtest2.step s e in
     0 <= Pwmtest2.Pwm1_dc s' <= Pwmtest2.PWM1_MAXSTEP /\
     Pwmtest2Spec.dc_move s s') /\
  (forall s : Pwmtest2.state,
     Pwmtest2.Pwm1_State s = Pwmtest2.INCREASE ->
     Pwmtest2.Pwm1_dc s = Pwmtest2.PWM1_MAXSTEP ->
     Pwmtest2.Pwm1_dc (Pwmtest2.main_body false true s)
     = Pwmtest2.PWM1_MAXSTEP) /\
  (forall s : Pwmtest2.state,
     Pwmtest2.Pwm1_State s = Pwmtest2.DECREASE ->
     Pwmtest2.Pwm1_dc s = 0 ->
     Pwmtest2.Pwm1_dc (Pwmtest2.main_body false true s) = 0).
Proof.
  split; [|split; [|split]].
  - intros l e s s'.
    assert (H : posit_inv s) by apply run_posit_inv, posit_inv_Init.
    destruct (step_posit_inv s e H) as [H' Hm]. fold s' in H', Hm.
    destruct H' as (Hdc & _). revert Hdc. unfold unit_move in Hm.
    rf_consts. intros Hdc. split; [lia | tauto].
  - intros l e s s'.
    assert (H : Pwmtest2Spec.dc_inv s)
      by apply Pwmtest2Facts.run_inv, Pwmtest2Facts.Init_inv.
    destruct (Pwmtest2Facts.step_inv s e H) as [H' Hm]. fold s' in H', Hm.
    destruct H' as (Hdc & _). split; assumption.
  - exact Pwmtest2Facts.increase_clamped.
  - exact Pwmtest2Facts.decrease_clamped.
Qed.

(** *** The RF envelope qualifier *)

Lemma Timer_A_qualifier (p : Z) (s : state) :
  let s1 := if Pwm1_State s =? POSIT then detect_switch p s else s in
  RfDetState (Timer_A p s) = RfDetState s1 /\
  RfDetCounter (Timer_A p s) = RfDetCounter s1 /\
  RfDetected (Timer_A p s) = RfDetected s1 /\
  Pwm1_State (Timer_A p s) = Pwm1_State s.
Proof.
  intros s1. unfold Timer_A. fold s1.
  pose proof (delay_management_frame s1) as F2; simpl in F2.
  pose proof (pwm_management_frame (delay_management s1)) as F3.
  simpl in F3.
  assert (H1 : Pwm1_State s1 = Pwm1_State s).
  { subst s1. case_if; [|reflexivity].
    pose proof (detect_switch_frame p s) as F; simpl in F; tauto. }
  destruct F2 as (_ & _ & _ & B1 & B2 & B3 & B4 & _).
  destruct F3 as (_ & _ & C1 & _ & C2 & C3 & C4 & _).
  split_and; congruence.
Qed.

(** One tick of the qualifier while the line is read high in [DETHIGH]
    below the threshold. *)
Lemma tick_high_counts (s : state) :
  Pwm1_State s = POSIT -> RfDetState s = DETHIGH ->
  0 <= RfDetCounter s < COUNTHIGH ->
  let s' := Timer_A HIGH s in
  Pwm1_State s' = POSIT /\ RfDetState s' = DETHIGH /\
  RfDetCounter s' = RfDetCounter s + 1 /\ RfDetected s' = RfDetected s.
Proof.
  intros Hp Hd Hc s'. subst s'.
  destruct (Timer_A_qualifier HIGH s) as (-> & -> & -> & ->).
  rewrite Hp. simpl. destruct s; simpl in *. subst.
  unfold detect_switch, TEST_ON, TEST_OFF; simpl.
  unfold COUNTHIGH in *. destruct (Z.ltb_spec RfDetCounter0 625); [|lia].
  simpl. rewrite u16_small by lia. tauto.
Qed.

(** One tick of the qualifier while the line is read low in [DETLOW]
    below the threshold. *)
Lemma tick_low_counts (s : state) :
  Pwm1_State s = POSIT -> RfDetState s = DETLOW ->
  0 <= RfDetCounter s < COUNTLOW ->
  let s' := Timer_A LOW s in
  Pwm1_State s' = POSIT /\ RfDetState s' = DETLOW /\
  RfDetCounter s' = RfDetCounter s + 1 /\ RfDetected s' = RfDetected s.
Proof.
  intros Hp Hd Hc s'. subst s'.
  destruct (Timer_A_qualifier LOW s) as (-> & -> & -> & ->).
  rewrite Hp. simpl. destruct s; simpl in *. subst.
  unfold detect_switch, TEST_ON, TEST_OFF; simpl.
  unfold COUNTLOW in *. destruct (Z.ltb_spec RfDetCounter0 624); [|lia].
  simpl. rewrite u16_small by lia. tauto.
Qed.

Lemma high_run (n : nat) (s : state) :
  Pwm1_State s = POSIT -> RfDetState s = DETHIGH ->
  0 <= RfDetCounter s -> RfDetCounter s + Z.of_nat n <= COUNTHIGH ->
  let s' := run s (tick_events (repeat HIGH n)) in
  Pwm1_State s' = POSIT /\ RfDetState s' = DETHIGH /\
  RfDetCounter s' = RfDetCounter s + Z.of_nat n /\
  RfDetected s' = RfDetected s.
Proof.
  revert s. induction n as [|n IH]; intros s Hp Hd Hc Hn.
  - simpl. split_and; try assumption; try reflexivity; lia.
  - rewrite repeat_succ, run_ticks_cons. cbv zeta.
    destruct (tick_high_counts s Hp Hd) as (Hp' & Hd' & Hc' & He'); [lia|].
    destruct (IH (Timer_A HIGH s) Hp' Hd') as (A & B & C & D); lia.
Qed.

Lemma low_run (n : nat) (s : state) :
  Pwm1_State s = POSIT -> RfDetState s = DETLOW ->
  0 <= RfDetCounter s -> RfDetCounter s + Z.of_nat n <= COUNTLOW ->
  let s' := run s (tick_events (repeat LOW n)) in
  Pwm1_State s' = POSIT /\ RfDetState s' = DETLOW /\
  RfDetCounter s' = RfDetCounter s + Z.of_nat n /\
  RfDetected s' = RfDetected s.
Proof.
  revert s. induction n as [|n IH]; intros s Hp Hd Hc Hn.
  - simpl. split_and; try assumption; try reflexivity; lia.
  - rewrite repeat_succ, run_ticks_cons. cbv zeta.
    destruct (tick_low_counts s Hp Hd) as (Hp' & Hd' & Hc' & He'); [lia|].
    destruct (IH (Timer_A LOW s) Hp' Hd') as (A & B & C & D); lia.
Qed.

(** The state of the qualifier after a clean high interval of
    [COUNTHIGH] ticks followed by a low interval of [COUNTLOW] ticks: the
    first low tick is spent leaving [DETHIGH], so the qualifier is still
    counting in [DETLOW], one unit below the threshold, and [RfDetected]
    has not been written yet. *)
Lemma clean_pattern_state (s : state) :
  Pwm1_State s = POSIT -> RfDetState s = DETHIGH -> RfDetCounter s = 0 ->
  let s' := run s (tick_events (repeat HIGH (Z.to_nat COUNTHIGH)
                                ++ repeat LOW (Z.to_nat COUNTLOW))) in
  Pwm1_State s' = POSIT /\ RfDetState s' = DETLOW /\
  RfDetCounter s' = COUNTLOW - 1 /\ RfDetected s' = RfDetected s.
Proof.
  intros Hp Hd Hc. cbv zeta. rewrite run_ticks_app.
  destruct (high_run (Z.to_nat COUNTHIGH) s Hp Hd) as (A & B & C & D);
    [unfold COUNTHIGH; lia .. |].
  revert A B C D.
  generalize (run s (tick_events (repeat HIGH (Z.to_nat COUNTHIGH)))).
  intros s1 A B C D.
  replace (Z.to_nat COUNTLOW) with (S (Z.to_nat (COUNTLOW - 1)))
    by (unfold COUNTLOW; lia).
  rewrite repeat_succ, run_ticks_cons.
  destruct (Timer_A_qualifier LOW s1) as (E1 & E2 & E3 & E4).
  rewrite A in E1, E2, E3, E4.
  change (POSIT =? POSIT) with true in E1, E2, E3. cbv iota in E1, E2, E3.
  assert (Q : RfDetState (detect_switch LOW s1) = DETLOW /\
              RfDetCounter (detect_switch LOW s1) = 0 /\
              RfDetected (detect_switch LOW s1) = RfDetected s1).
  { revert B C. rewrite Hc. clear. destruct s1; simpl. intros -> ->.
    unfold detect_switch; simpl. tauto. }
  destruct Q as (Q1 & Q2 & Q3).
  destruct (low_run (Z.to_nat (COUNTLOW - 1)) (Timer_A LOW s1))
    as (A' & B' & C' & D'); try congruence.
  - rewrite E2, Q2. lia.
  - rewrite E2, Q2. unfold COUNTLOW. lia.
  - split_and; try assumption.
    + rewrite C', E2, Q2. unfold COUNTLOW. lia.
    + congruence.
Qed.

(** The tick that follows the clean pattern: a high reading ends the
    detection with success at once, a low reading brings the counter to
    the threshold. *)
Lemma tick_after_pattern (p : Z) (s : state) :
  Pwm1_State s = POSIT -> RfDetState s = DETLOW ->
  RfDetCounter s = COUNTLOW - 1 ->
  let s' := Timer_A p s in
  Pwm1_State s' = POSIT /\
  ((nonzero (Z.land p BIT6) = true /\ RfDetState s' = DETEND /\
    RfDetected s' = TRUE) \/
   (nonzero (Z.land p BIT6) = false /\ RfDetState s' = DETLOW /\
    RfDetCounter s' = COUNTLOW)).
Proof.
  intros Hp Hd Hc. cbv zeta.
  destruct (Timer_A_qualifier p s) as (-> & -> & -> & ->).
  rewrite Hp. change (POSIT =? POSIT) with true. cbv iota.
  split; [reflexivity|].
  destruct s; simpl in *. subst.
  unfold detect_switch, TEST_ON, TEST_OFF; simpl.
  destruct (nonzero (Z.land p BIT6)); simpl; [left | right]; tauto.
Qed.

(** At the threshold of [DETLOW] every reading ends the detection with
    success. *)
Lemma tick_at_threshold (p : Z) (s : state) :
  Pwm1_State s = POSIT -> RfDetState s = DETLOW ->
  RfDetCounter s = COUNTLOW ->
  RfDetected (Timer_A p s) = TRUE.
Proof.
  intros Hp Hd Hc.
  destruct (Timer_A_qualifier p s) as (_ & _ & -> & _).
  rewrite Hp. change (POSIT =? POSIT) with true. cbv iota.
  destruct s; simpl in *. subst.
  unfold detect_switch, TEST_ON, TEST_OFF; simpl.
  destruct (nonzero (Z.land p BIT6)); reflexivity.
Qed.

(** In [DETEND] the flag is left alone. *)
Lemma tick_in_detend (p : Z) (s : state) :
  RfDetState s = DETEND -> RfDetected (Timer_A p s) = RfDetected s.
Proof.
  intros Hd.
  destruct (Timer_A_qualifier p s) as (_ & _ & -> & _).
  case_if; [|reflexivity].
  destruct s; simpl in *. subst.
  unfold detect_switch; simpl. case_if; reflexivity.
Qed.

(** A high interval that stops [COUNTOLER + 1] ticks short of
    [COUNTHIGH] is rejected by the first low reading. *)
Lemma short_high_rejected (s : state) :
  Pwm1_State s = POSIT -> RfDetState s = DETHIGH ->
  RfDetCounter s = COUNTHIGH - COUNTOLER - 1 ->
  RfDetected (Timer_A LOW s) = FALSE /\ RfDetState (Timer_A LOW s) = DETEND.
Proof.
  intros Hp Hd Hc.
  destruct (Timer_A_qualifier LOW s) as (-> & _ & -> & _).
  rewrite Hp. change (POSIT =? POSIT) with true. cbv iota.
  destruct s; simpl in *. subst.
  unfold detect_switch; simpl. tauto.
Qed.

(** The clean pattern and the short high interval, the ticks following
    each other without any other event. *)
Lemma clean_and_short_ticks (s : state) :
  Pwm1_State s = POSIT -> RfDetState s = DETHIGH -> RfDetCounter s = 0 ->
  RfDetected
    (run s (tick_events (repeat HIGH (Z.to_nat COUNTHIGH)
                         ++ repeat LOW (Z.to_nat COUNTLOW) ++ [HIGH])))
  = TRUE /\
  (forall p q : Z,
     RfDetected
       (run s (tick_events (repeat HIGH (Z.to_nat COUNTHIGH)
                            ++ repeat LOW (Z.to_nat COUNTLOW) ++ [p; q])))
     = TRUE) /\
  RfDetected
    (run s (tick_events
              (repeat HIGH (Z.to_nat (COUNTHIGH - COUNTOLER - 1)) ++ [LOW])))
  = FALSE.
Proof.
  intros Hp Hd Hc.
  pose proof (clean_pattern_state s Hp Hd Hc) as P. cbv zeta in P.
  split; [|split].
  - rewrite app_assoc, run_ticks_snoc. revert P.
    generalize (run s (tick_events (repeat HIGH (Z.to_nat COUNTHIGH)
                                    ++ repeat LOW (Z.to_nat COUNTLOW)))).
    intros t (A & B & C & _).
    destruct (tick_after_pattern HIGH t A B C) as (_ & [H|H]).
    + tauto.
    + destruct H as (H & _). discriminate H.
  - intros p q.
    change [p; q] with ([p] ++ [q]).
    rewrite app_assoc, app_assoc, run_ticks_snoc, run_ticks_snoc.
    revert P.
    generalize (run s (tick_events (repeat HIGH (Z.to_nat COUNTHIGH)
                                    ++ repeat LOW (Z.to_nat COUNTLOW)))).
    intros t (A & B & C & _).
    destruct (tick_after_pattern p t A B C) as (A' & [H|H]).
    + destruct H as (_ & H1 & H2). now rewrite tick_in_detend.
    + destruct H as (_ & H1 & H2). now apply tick_at_threshold.
  - rewrite run_ticks_snoc.
    destruct (high_run (Z.to_nat (COUNTHIGH - COUNTOLER - 1)) s Hp Hd)
      as (A & B & C & _); [unfold COUNTHIGH, COUNTOLER; lia .. |].
    revert A B C.
    generalize (run s (tick_events
      (repeat HIGH (Z.to_nat (COUNTHIGH - COUNTOLER - 1))))).
    intros t A B C. apply short_high_rejected; try assumption.
    rewrite C, Hc. unfold COUNTHIGH, COUNTOLER. lia.
Qed.

(** The qualifier reads nothing but its own three variables. *)
Lemma detect_switch_local (p : Z) (s s' : state) :
  qualifier s = qualifier s' ->
  qualifier (detect_switch p s) = qualifier (detect_switch p s').
Proof.
  destruct s, s'; unfold qualifier; simpl. intros E.
  injection E as -> -> ->.
  unfold detect_switch, TEST_ON, TEST_OFF, nonzero; simpl.
  repeat (case_if; simpl in * ); reflexivity.
Qed.

Lemma Timer_A_local (p : Z) (s s' : state) :
  Pwm1_State s = POSIT -> Pwm1_State s' = POSIT ->
  qualifier s = qualifier s' ->
  qualifier (Timer_A p s) = qualifier (Timer_A p s').
Proof.
  intros Hp Hp' E. unfold qualifier at 1 2.
  destruct (Timer_A_qualifier p s) as (-> & -> & -> & _).
  destruct (Timer_A_qualifier p s') as (-> & -> & -> & _).
  rewrite Hp, Hp'. change (POSIT =? POSIT) with true. cbv iota.
  now apply detect_switch_local.
Qed.

(** With the machine at rest and no port interrupt, the qualifier only
    sees the readings of the ticks, whatever the main loop does in
    between. *)
Lemma qualifier_projection (l : list event) (s s' : state) :
  no_port l = true -> before_each at_rest s l = true ->
  Pwm1_State s' = POSIT -> qualifier s = qualifier s' ->
  qualifier (run s l) = qualifier (run s' (tick_events (tick_inputs l))).
Proof.
  revert s s'. induction l as [|e l IH]; intros s s' Hn Hr Hp' E.
  - exact E.
  - apply before_each_cons in Hr. destruct Hr as [Hr1 Hr2].
    unfold at_rest in Hr1. apply Z.eqb_eq in Hr1.
    rewrite run_cons. destruct e as [b|p|f p]; cbn [no_port tick_inputs] in *.
    + apply IH; try assumption. rewrite <- E. unfold qualifier. cbn [step].
      unfold main_body.
      pose proof (confirm_switch_frame s) as F1; simpl in F1.
      pose proof (positioning_switch_frame b (confirm_switch s)) as F2.
      simpl in F2.
      destruct F1 as (_ & _ & _ & _ & _ & A1 & A2 & A3 & _).
      destruct F2 as (_ & B1 & B2 & B3 & _).
      now rewrite B1, B2, B3, A1, A2, A3.
    + rewrite run_ticks_cons. apply IH; try assumption.
      * destruct (Timer_A_qualifier p s') as (_ & _ & _ & ->). exact Hp'.
      * now apply Timer_A_local.
    + discriminate Hn.
Qed.

(** *** The qualifier reads bit 6 of the port only *)

Lemma nonzero_land_BIT6 (p : Z) : nonzero (Z.land p BIT6) = line p.
Proof.
  unfold line. destruct (Z.testbit p 6) eqn:T.
  - apply nonzero_true. change BIT6 with (2 ^ 6).
    apply land_pow2_nonzero; [lia | exact T].
  - apply nonzero_false. change BIT6 with (2 ^ 6).
    destruct (Z.eq_dec (Z.land p (2 ^ 6)) 0) as [E | E]; [exact E|].
    apply land_pow2_nonzero in E; [congruence | lia].
Qed.

Lemma detect_switch_line (p q : Z) (s : state) :
  line p = line q -> detect_switch p s = detect_switch q s.
Proof.
  intros H. unfold detect_switch.
  rewrite !(nonzero_land_BIT6 p), !(nonzero_land_BIT6 q), H. reflexivity.
Qed.

Lemma Timer_A_line (p q : Z) (s : state) :
  line p = line q -> Timer_A p s = Timer_A q s.
Proof.
  intros H. unfold Timer_A. now rewrite (detect_switch_line p q s H).
Qed.

Lemma run_ticks_line (inputs : list Z) :
  forall (inputs' : list Z) (s : state),
    map line inputs = map line inputs' ->
    run s (tick_events inputs) = run s (tick_events inputs').
Proof.
  induction inputs as [|p r IH]; intros inputs' s H.
  - destruct inputs'; [reflexivity | discriminate H].
  - destruct inputs' as [|q r']; [discriminate H|].
    cbn [map] in H. injection H as Hp Hr.
    rewrite !run_ticks_cons, (Timer_A_line p q s Hp). now apply IH.
Qed.

Lemma map_line_repeat_HIGH (n : nat) :
  map line (repeat HIGH n) = repeat true n.
Proof. induction n as [|n IH]; [reflexivity|]. cbn [repeat map]. now rewrite IH. Qed.

Lemma map_line_repeat_LOW (n : nat) :
  map line (repeat LOW n) = repeat false n.
Proof. induction n as [|n IH]; [reflexivity|]. cbn [repeat map]. now rewrite IH. Qed.

(** With the machine at rest and no port interrupt, the qualifier only
    sees the levels of the line at the ticks. *)
Lemma qualifier_levels (l : list event) (s : state) (inputs : list Z) :
  no_port l = true -> before_each at_rest s l = true ->
  Pwm1_State s = POSIT ->
  levels l = map line inputs ->
  qualifier (run s l) = qualifier (run s (tick_events inputs)).
Proof.
  intros Hn Hr Hp E.
  rewrite (qualifier_projection l s s Hn Hr Hp eq_refl).
  now rewrite (run_ticks_line (tick_inputs l) inputs s E).
Qed.

Lemma map_line_reading (bs : list bool) : map line (map reading bs) = bs.
Proof.
  induction bs as [|b bs IH]; [reflexivity|].
  cbn [map]. rewrite IH. now destruct b.
Qed.

(** The qualifier after an execution, from the levels of the line. *)
Lemma qualifier_of_levels (l : list event) (s : state) (bs : list bool) :
  no_port l = true -> before_each at_rest s l = true ->
  Pwm1_State s = POSIT -> levels l = bs ->
  qualifier (run s l) = qualifier (run s (tick_events (map reading bs))).
Proof.
  intros Hn Hr Hp E. apply qualifier_levels; try assumption.
  now rewrite map_line_reading.
Qed.

Lemma qualifier_fields (a b : state) :
  qualifier a = qualifier b ->
  RfDetState a = RfDetState b /\ RfDetCounter a = RfDetCounter b /\
  RfDetected a = RfDetected b.
Proof. unfold qualifier. intros Q. injection Q as -> -> ->. tauto. Qed.

(** C5, as the code has it.  The line is bit 6 of [P1IN], whatever the
    other bits.  From [DETHIGH] with [RfDetCounter = 0], in every
    execution in which the positioning machine stays at rest and the
    port interrupt does not fire again: when the ticks have read the
    line high exactly [COUNTHIGH] times and then low exactly [COUNTLOW]
    times, the qualifier is still counting in [DETLOW], one unit below
    the threshold (the first low tick is spent leaving [DETHIGH]), and
    [RfDetected] has not been written; it is [TRUE] after the next tick
    if that tick reads the line high, and after two more ticks whatever
    they read.  If the ticks read the line high only
    [COUNTHIGH - COUNTOLER - 1] times and then low, [RfDetected] is
    [FALSE]. *)
Theorem qualifier_accepts_clean_rejects_short (s : state) (l : list event) :
  Pwm1_State s = POSIT -> RfDetState s = DETHIGH -> RfDetCounter s = 0 ->
  no_port l = true -> before_each at_rest s l = true ->
  let highs := repeat true (Z.to_nat COUNTHIGH) in
  let lows := repeat false (Z.to_nat COUNTLOW) in
  (levels l = highs ++ lows ->
   RfDetState (run s l) = DETLOW /\
   RfDetCounter (run s l) = COUNTLOW - 1 /\
   RfDetected (run s l) = RfDetected s) /\
  (levels l = highs ++ lows ++ [true] -> RfDetected (run s l) = TRUE) /\
  (forall a b : bool,
     levels l = highs ++ lows ++ [a; b] -> RfDetected (run s l) = TRUE) /\
  (levels l = repeat true (Z.to_nat (COUNTHIGH - COUNTOLER - 1)) ++ [false] ->
   RfDetected (run s l) = FALSE).
Proof.
  intros Hp Hd Hc Hn Hr highs lows.
  destruct (clean_and_short_ticks s Hp Hd Hc) as (A & B & C).
  pose proof (clean_pattern_state s Hp Hd Hc) as P. cbv zeta in P.
  split_and.
  - intros E.
    pose proof (qualifier_of_levels l s _ Hn Hr Hp E) as Q.
    unfold highs, lows in Q. rewrite map_app, !map_repeat in Q.
    cbn [reading] in Q. apply qualifier_fields in Q.
    destruct Q as (-> & -> & ->). tauto.
  - intros E.
    pose proof (qualifier_of_levels l s _ Hn Hr Hp E) as Q.
    unfold highs, lows in Q. rewrite !map_app, !map_repeat in Q.
    cbn [reading map] in Q. apply qualifier_fields in Q.
    destruct Q as (_ & _ & ->). exact A.
  - intros a b E.
    pose proof (qualifier_of_levels l s _ Hn Hr Hp E) as Q.
    unfold highs, lows in Q. rewrite !map_app, !map_repeat in Q.
    cbn [reading map] in Q. apply qualifier_fields in Q.
    destruct Q as (_ & _ & ->). apply B.
  - intros E.
    pose proof (qualifier_of_levels l s _ Hn Hr Hp E) as Q.
    rewrite map_app, map_repeat in Q.
    cbn [reading map] in Q. apply qualifier_fields in Q.
    destruct Q as (_ & _ & ->). exact C.
Qed.

(** C5, as stated, fails: after exactly [COUNTHIGH] high ticks and
    [COUNTLOW] low ticks the qualifier is in [DETLOW] and [RfDetected]
    is still [FALSE].  The state is the one reached from [Init] by the
    port interrupt. *)
Lemma clean_pattern_not_yet_detected :
  let s := step Init (EvPort1 BIT6 BIT6) in
  let l := tick_events (repeat HIGH (Z.to_nat COUNTHIGH)
                        ++ repeat LOW (Z.to_nat COUNTLOW)) in
  Pwm1_State s = POSIT /\ RfDetState s = DETHIGH /\ RfDetCounter s = 0 /\
  qualifier (run s l) = (DETLOW, COUNTLOW - 1, FALSE) /\
  RfDetected (run s l) <> TRUE.
Proof. vm_compute. split_and; try reflexivity. discriminate. Qed.

Lemma detect_switch_transitions (p : Z) (s : state) :
  let s' := detect_switch p s in
  (RfDetState s' <> RfDetState s ->
   ((RfDetState s' = DETHIGH \/ RfDetState s' = DETLOW) ->
    RfDetCounter s' = 0) /\
   (RfDetState s' = DETEND ->
    (RfDetected s' = TRUE /\ RfDetCounter s' = 0) \/
    (RfDetected s' = FALSE /\ RfDetCounter s' = RfDetCounter s)) /\
   (RfDetState s' = IDLE -> RfDetCounter s' = RfDetCounter s)) /\
  (RfDetected s' <> RfDetected s ->
   (RfDetState s = DETHIGH \/ RfDetState s = DETLOW) /\
   RfDetState s' = DETEND).
Proof.
  destruct s; unfold detect_switch, TEST_ON, TEST_OFF; simpl.
  rf_consts.
  repeat (case_if; simpl); bool_hyps; subst;
    split_and; intros; split_and; intros;
    try congruence; try lia; try tauto.
Qed.

(** C6, as the code has it.  Whenever an event changes [RfDetState]: the
    counter is 0 on entry into a counting state ([DETHIGH], entered from
    [Port1_isr], and [DETLOW]) and on the successful entry into [DETEND],
    where [RfDetected] is [TRUE]; on the failing entries into [DETEND],
    where [RfDetected] is [FALSE], and on the return from [DETEND] to
    [IDLE] the counter keeps its value.  [RfDetected] changes only on a
    transition from [DETHIGH] or [DETLOW] into [DETEND]. *)
Theorem qualifier_counter_and_flag (s : state) (e : event) :
  let s' := step s e in
  (RfDetState s' <> RfDetState s ->
   ((RfDetState s' = DETHIGH \/ RfDetState s' = DETLOW) ->
    RfDetCounter s' = 0) /\
   (RfDetState s' = DETEND ->
    (RfDetected s' = TRUE /\ RfDetCounter s' = 0) \/
    (RfDetected s' = FALSE /\ RfDetCounter s' = RfDetCounter s)) /\
   (RfDetState s' = IDLE -> RfDetCounter s' = RfDetCounter s)) /\
  (RfDetected s' <> RfDetected s ->
   (RfDetState s = DETHIGH \/ RfDetState s = DETLOW) /\
   RfDetState s' = DETEND).
Proof.
  destruct e; cbn [step]; cbv zeta.
  - unfold main_body.
    pose proof (confirm_switch_frame s) as F1; simpl in F1.
    pose proof (positioning_switch_frame button (confirm_switch s)) as F2.
    simpl in F2.
    destruct F1 as (_ & _ & _ & _ & _ & A1 & A2 & A3 & _).
    destruct F2 as (_ & B1 & B2 & B3 & _).
    rewrite B1, B2, B3, A1, A2, A3. split; intros H; now elim H.
  - destruct (Timer_A_qualifier p1in s) as (-> & -> & -> & _).
    case_if; [apply detect_switch_transitions|].
    split; intros H; now elim H.
  - destruct s; unfold Port1_isr; simpl. rf_consts.
    repeat (case_if; simpl); bool_hyps; subst;
      split_and; intros; split_and; intros;
      try congruence; try lia; try tauto.
Qed.

(** C6, as stated, fails: a failing transition from [DETHIGH] into
    [DETEND] leaves the counter at its value.  The state is the one
    reached from [Init] by the port interrupt and five high readings. *)
Lemma failure_keeps_counter :
  let s := run Init (EvPort1 BIT6 BIT6 :: tick_events (repeat HIGH 5)) in
  let s' := step s (EvTick LOW) in
  RfDetState s = DETHIGH /\ RfDetState s' = DETEND /\
  RfDetCounter s' = 5 /\ RfDetCounter s' <> 0.
Proof. vm_compute. split_and; try reflexivity. discriminate. Qed.

(** *** Triggers during a motion *)

Lemma moving_cases (s : state) :
  moving s = true ->
  Pwm1_State s = MOVINGUP \/ Pwm1_State s = MOVINGDOWN \/
  Pwm1_State s = WAITINGUP \/ Pwm1_State s = WAITINGDOWN.
Proof.
  unfold moving. intros H. bool_hyps; tauto.
Qed.

Lemma positioning_switch_button (b : bool) (s : state) :
  moving s = true -> positioning_switch b s = positioning_switch false s.
Proof.
  intros H. apply moving_cases in H. unfold positioning_switch.
  destruct H as [H | [H | [H | H]]]; rewrite H; simpl;
    rewrite ?orb_true_r; reflexivity.
Qed.

Lemma positioning_switch_reach (b : bool) (s : state) :
  moving s = true ->
  Pwm1_reach (positioning_switch b s) = Pwm1_reach s.
Proof.
  intros H. apply moving_cases in H. unfold positioning_switch.
  destruct s; simpl in *.
  destruct H as [H | [H | [H | H]]]; rewrite H; simpl;
    rewrite ?orb_true_r; repeat (case_if; simpl); reflexivity.
Qed.

Lemma confirm_switch_moving (s : state) :
  moving (confirm_switch s) = moving s.
Proof.
  pose proof (confirm_switch_frame s) as F; simpl in F.
  unfold moving. destruct F as (_ & _ & _ & -> & _). reflexivity.
Qed.

Lemma main_body_button (b : bool) (s : state) :
  moving s = true -> main_body b s = main_body false s.
Proof.
  intros H. unfold main_body. apply positioning_switch_button.
  now rewrite confirm_switch_moving.
Qed.

Lemma step_reach_moving (s : state) (e : event) :
  moving s = true -> Pwm1_reach (step s e) = Pwm1_reach s.
Proof.
  intros H. destruct e; cbn [step].
  - unfold main_body. rewrite positioning_switch_reach.
    + pose proof (confirm_switch_frame s) as F; simpl in F. tauto.
    + now rewrite confirm_switch_moving.
  - pose proof (Timer_A_frame p1in s) as F; simpl in F. tauto.
  - pose proof (Port1_isr_frame p1ifg p1in s) as F; simpl in F. tauto.
Qed.

Lemma release_while_moving_run (l : list event) (s : state) :
  run s (release_while_moving s l) = run s l.
Proof.
  revert s. induction l as [|e l IH]; intros s; [reflexivity|].
  cbn [release_while_moving]. rewrite !run_cons.
  assert (E : step s match e with
                     | EvMain b => EvMain (if moving s then false else b)
                     | _ => e
                     end = step s e).
  { destruct e as [b| |]; try reflexivity.
    destruct (moving s) eqn:M; [|reflexivity].
    cbn [step]. symmetry. now apply main_body_button. }
  rewrite E. apply IH.
Qed.

(** Effect of a different value of [Command] on each block. *)
Ltac command_commutes :=
  unfold nonzero; simpl;
  repeat (case_if; simpl in * ); try reflexivity; congruence.

Lemma detect_switch_command (p c : Z) (s : state) :
  detect_switch p (set_Command c s) = set_Command c (detect_switch p s).
Proof.
  destruct s; unfold detect_switch, TEST_ON, TEST_OFF. command_commutes.
Qed.

Lemma delay_management_command (c : Z) (s : state) :
  delay_management (set_Command c s) = set_Command c (delay_management s).
Proof.
  destruct s; unfold delay_management. command_commutes.
Qed.

Lemma pwm_management_command (c : Z) (s : state) :
  pwm_management (set_Command c s) = set_Command c (pwm_management s).
Proof.
  destruct s; unfold pwm_management, PWM1_ON, PWM1_OFF. command_commutes.
Qed.

Lemma Timer_A_command (p c : Z) (s : state) :
  Timer_A p (set_Command c s) = set_Command c (Timer_A p s).
Proof.
  unfold Timer_A.
  replace (Pwm1_State (set_Command c s)) with (Pwm1_State s)
    by (destruct s; reflexivity).
  case_if.
  - now rewrite detect_switch_command, delay_management_command,
      pwm_management_command.
  - now rewrite delay_management_command, pwm_management_command.
Qed.

Lemma Port1_isr_command (f p c : Z) (s : state) :
  Port1_isr f p (set_Command c s) = set_Command c (Port1_isr f p s).
Proof.
  destruct s; unfold Port1_isr. command_commutes.
Qed.

Lemma confirm_switch_command (c : Z) (s : state) :
  exists c', confirm_switch (set_Command c s)
             = set_Command c' (confirm_switch s).
Proof.
  destruct s; unfold confirm_switch, LED_ON, LED_OFF, nonzero; simpl.
  repeat (case_if; simpl in * );
    first [ now exists c | now exists TRUE | now exists FALSE ].
Qed.

Lemma positioning_switch_command (b : bool) (c : Z) (s : state) :
  moving s = true ->
  (positioning_switch b (set_Command c s) = positioning_switch b s /\
   Pwm1_State (positioning_switch b s) = POSIT) \/
  (positioning_switch b (set_Command c s)
   = set_Command c (positioning_switch b s) /\
   moving (positioning_switch b s) = true).
Proof.
  intros H. apply moving_cases in H. unfold positioning_switch, moving.
  destruct s; simpl in *.
  destruct H as [H | [H | [H | H]]]; rewrite H; simpl;
    rewrite ?orb_true_r; repeat (case_if; simpl); tauto.
Qed.

(** Two executions of the same schedule whose initial states differ in
    [Command] only, the machine moving: they are equal from the return to
    rest onwards, and differ at most in [Command] before. *)
Lemma run_command (l : list event) (s : state) (c : Z) :
  moving s = true ->
  run (set_Command c s) l = run s l \/
  (moving (run s l) = true /\
   exists c', run (set_Command c s) l = set_Command c' (run s l)).
Proof.
  revert s c. induction l as [|e l IH]; intros s c M.
  - right. split; [exact M | now exists c].
  - rewrite !run_cons.
    assert (S : step (set_Command c s) e = step s e \/
                (moving (step s e) = true /\
                 exists c', step (set_Command c s) e
                            = set_Command c' (step s e))).
    { destruct e; cbn [step].
      - unfold main_body.
        destruct (confirm_switch_command c s) as [c' ->].
        destruct (positioning_switch_command button c' (confirm_switch s))
          as [[E _] | [E M']].
        + now rewrite confirm_switch_moving.
        + now left.
        + right. split; [exact M' | now exists c'].
      - right. split.
        + pose proof (Timer_A_frame p1in s) as F; simpl in F.
          unfold moving in *. destruct F as (_ & _ & -> & _). exact M.
        + exists c. apply Timer_A_command.
      - right. split.
        + pose proof (Port1_isr_frame p1ifg p1in s) as F; simpl in F.
          unfold moving in *. destruct F as (_ & _ & _ & -> & _). exact M.
        + exists c. apply Port1_isr_command. }
    destruct S as [-> | [M' [c' ->]]]; [now left | now apply IH].
Qed.

(** C9.  While the machine is moving or waiting, the button has no effect
    on a pass of the main loop, so that releasing it in every such pass of
    a schedule leaves the execution unchanged; no event changes
    [Pwm1_reach]; and an execution started with another value of
    [Command] has the same state, duty cycle and goal throughout and is in
    the very same state whenever the machine is at rest. *)
Theorem trigger_while_moving_absorbed (s : state) :
  moving s = true ->
  (forall b : bool, step s (EvMain b) = step s (EvMain false)) /\
  (forall l : list event, run s (release_while_moving s l) = run s l) /\
  (forall e : event, Pwm1_reach (step s e) = Pwm1_reach s) /\
  (forall (c : Z) (l : list event),
     let r := run s l in
     let r' := run (set_Command c s) l in
     Pwm1_State r' = Pwm1_State r /\ Pwm1_dc r' = Pwm1_dc r /\
     Pwm1_reach r' = Pwm1_reach r /\
     (Pwm1_State r = POSIT -> r' = r)).
Proof.
  intros M. split_and.
  - intros b. cbn [step]. now apply main_body_button.
  - intros l. apply release_while_moving_run.
  - intros e. now apply step_reach_moving.
  - intros c l r r'. subst r r'.
    destruct (run_command l s c M) as [-> | [M' [c' ->]]].
    + tauto.
    + destruct (run s l); simpl. split_and; try reflexivity.
      intros H. unfold moving in M'. simpl in M'. rewrite H in M'.
      discriminate M'.
Qed.

(** *** A motion, from the trigger to the return to rest *)

Lemma Timer_A_delay (p : Z) (s : state) :
  Pwm1_delay (Timer_A p s) =
  if Pwm1_delay s =? 0 then Pwm1_delay s else u16 (Pwm1_delay s - 1).
Proof.
  unfold Timer_A.
  set (s1 := if Pwm1_State s =? POSIT then detect_switch p s else s).
  assert (H1 : Pwm1_delay s1 = Pwm1_delay s).
  { subst s1. case_if; [|reflexivity].
    pose proof (detect_switch_frame p s) as F; simpl in F; tauto. }
  pose proof (pwm_management_frame (delay_management s1)) as F3.
  simpl in F3. destruct F3 as (_ & _ & _ & -> & _).
  rewrite <- H1. clearbody s1. destruct s1; unfold delay_management, nonzero.
  simpl. repeat (case_if; simpl in * ); congruence.
Qed.

Lemma phase_cases (up : bool) (s : state) :
  phase up s = true ->
  Pwm1_State s = MOVING up \/ Pwm1_State s = WAITING up.
Proof.
  unfold phase, going_up, going_down, MOVING, WAITING.
  destruct up; intros H; bool_hyps; tauto.
Qed.

(** The four moves of the positioning switch during a motion. *)
Lemma positioning_switch_motion (up b : bool) (s : state) :
  motion_inv up s ->
  let t := positioning_switch b s in
  (Pwm1_State s = MOVING up /\ Pwm1_dc s = Pwm1_reach s /\
   Pwm1_State t = POSIT /\ Pwm1_dc t = Pwm1_dc s /\
   Pwm1_reach t = Pwm1_reach s /\ Pwm1_delay t = Pwm1_delay s) \/
  (Pwm1_State s = MOVING up /\ Pwm1_dc s <> Pwm1_reach s /\
   Pwm1_State t = WAITING up /\ Pwm1_delay t = SPEED /\
   Pwm1_dc t = (if up then Pwm1_dc s + 1 else Pwm1_dc s - 1) /\
   Pwm1_reach t = Pwm1_reach s) \/
  (Pwm1_State s = WAITING up /\ Pwm1_delay s = 0 /\
   Pwm1_State t = MOVING up /\ Pwm1_dc t = Pwm1_dc s /\
   Pwm1_reach t = Pwm1_reach s /\ Pwm1_delay t = 0) \/
  (Pwm1_State s = WAITING up /\ Pwm1_delay s <> 0 /\
   Pwm1_State t = Pwm1_State s /\ Pwm1_dc t = Pwm1_dc s /\
   Pwm1_reach t = Pwm1_reach s /\ Pwm1_delay t = Pwm1_delay s).
Proof.
  intros (Hph & Hdir & Hdc & Hre & Hdl). cbv zeta.
  apply phase_cases in Hph. unfold positioning_switch.
  destruct s; unfold MOVING, WAITING, is_u16 in *; simpl in *.
  destruct up, Hph as [H | H]; rewrite H; simpl; rewrite ?orb_true_r;
    rf_consts; repeat (case_if; simpl); bool_hyps; u16_simpl;
    first
      [ left; split_and; (reflexivity || lia)
      | right; left; split_and; (reflexivity || lia)
      | right; right; left; split_and; (reflexivity || lia)
      | right; right; right; split_and; (reflexivity || lia) ].
Qed.

Ltac eqb_lia :=
  repeat match goal with
  | |- context [?a =? ?b] => destruct (Z.eqb_spec a b); try lia; simpl
  end.

Ltac motion_unfold :=
  unfold motion_inv, need, motion_potential, stalled, armed_step, phase,
    going_up, going_down, MOVING, WAITING, is_u16 in *;
  rf_consts; simpl in *.

(** Effect of one event during a motion: the machine comes to rest at the
    goal, or it stays on its way, the duty cycle having moved by one unit
    at most, and the alternations still needed are still available. *)
Lemma step_motion (up : bool) (s : state) (e : event) :
  motion_inv up s ->
  let t := step s e in
  (Pwm1_State t = POSIT /\ Pwm1_dc s = Pwm1_reach s /\
   Pwm1_dc t = Pwm1_dc s) \/
  (motion_inv up t /\ Pwm1_reach t = Pwm1_reach s /\
   armed_step s t = true /\
   Z.abs (Pwm1_reach t - Pwm1_dc t)
   + (if Pwm1_dc t =? Pwm1_dc s then 0 else 1)
   = Z.abs (Pwm1_reach s - Pwm1_dc s) /\
   forall (pending : bool) (l : list event),
     need pending s <= alternations pending (e :: l) ->
     need (next_pending pending e) t
     <= alternations (next_pending pending e) l).
Proof.
  intros Hinv t.
  assert (Hph := proj1 Hinv). apply phase_cases in Hph.
  destruct e as [b|p|f p]; cbn [step] in t.
  - (* a pass of the main loop *)
    pose proof (confirm_switch_frame s) as F; simpl in F.
    destruct F as (F1 & F2 & _ & F3 & F4 & _).
    assert (Hc : motion_inv up (confirm_switch s)).
    { unfold motion_inv, phase, going_up, going_down in *.
      rewrite F1, F2, F3, F4. exact Hinv. }
    pose proof (positioning_switch_motion up b _ Hc) as M. cbv zeta in M.
    fold (main_body b s) in M. fold t in M.
    rewrite F1, F2, F3, F4 in M. clear Hc F1 F2 F3 F4.
    clearbody t. destruct s, t. motion_unfold.
    destruct M as [M | [M | [M | M]]];
      [left | right | right | right];
      destruct up; decompose [and] M; clear M; subst;
      decompose [and] Hinv; clear Hinv;
      split_and; try reflexivity; try lia; eqb_lia;
      try (intros pending l; destruct pending; simpl; lia).
  - (* a tick *)
    pose proof (Timer_A_frame p s) as F; simpl in F.
    destruct F as (F1 & F2 & F3 & _).
    pose proof (Timer_A_delay p s) as F4.
    fold t in F1, F2, F3, F4. clearbody t. right.
    destruct s, t. motion_unfold. subst.
    destruct up, Hph as [H | H]; subst; simpl in *;
      decompose [and] Hinv; clear Hinv;
      split_and; try reflexivity; try lia; eqb_lia; u16_simpl; try lia;
      try (intros pending l; destruct pending; simpl;
           eqb_lia; u16_simpl; eqb_lia; lia).
  - (* the port interrupt *)
    pose proof (Port1_isr_frame f p s) as F; simpl in F.
    destruct F as (F1 & F2 & _ & F3 & F4 & _).
    fold t in F1, F2, F3, F4. clearbody t. right.
    destruct s, t. motion_unfold. subst.
    split_and; try tauto; try lia; eqb_lia.
Qed.

Lemma need_pos (up pending : bool) (s : state) :
  motion_inv up s -> 1 <= need pending s.
Proof.
  intros (_ & _ & _ & _ & Hdl).
  unfold need, motion_potential, is_u16 in *. rf_consts.
  pose proof (Z.abs_nonneg (Pwm1_reach s - Pwm1_dc s)).
  repeat case_if; lia.
Qed.

(** Every schedule with enough alternations brings a motion to its end:
    the machine returns to rest at the goal, after as many unit steps as
    the distance, each made on entering a waiting state with the delay
    loaded. *)
Lemma motion_terminates (up : bool) (l : list event) :
  forall (s : state) (pending : bool),
    motion_inv up s ->
    need pending s <= alternations pending l ->
    exists l1 l2 : list event,
      l = l1 ++ l2 /\
      before_each (phase up) s l1 = true /\
      Pwm1_State (run s l1) = POSIT /\
      Pwm1_dc (run s l1) = Pwm1_reach s /\
      dc_changes s l1 = Z.abs (Pwm1_reach s - Pwm1_dc s) /\
      steps_armed s l1 = true.
Proof.
  induction l as [|e l IH]; intros s pending Hinv Hneed.
  - pose proof (need_pos up pending s Hinv). simpl in Hneed. lia.
  - destruct (step_motion up s e Hinv)
      as [(Hp & He & Hd) | (Hinv' & Hre & Harm & Hdist & Hstep)].
    + exists [e], l. cbn [app before_each dc_changes steps_armed run
                         fold_left].
      destruct Hinv as (Hph & _).
      unfold armed_step. rewrite Hph, Hd, Z.eqb_refl, He.
      rewrite Z.sub_diag. split_and; try reflexivity; assumption.
    + destruct (IH (step s e) (next_pending pending e) Hinv'
                  (Hstep pending l Hneed))
        as (l1 & l2 & -> & Hb & Hs & Hdc & Hch & Ha).
      exists (e :: l1), l2.
      cbn [app before_each dc_changes steps_armed]. rewrite run_cons.
      destruct Hinv as (Hph & _).
      rewrite Hph, Hb, Harm, Ha, Hch, <- Hre.
      split_and; try reflexivity; try assumption. lia.
Qed.

Lemma positioning_switch_at_rest (b : bool) (s : state) :
  Pwm1_State s = POSIT -> b = true \/ Command s = TRUE ->
  positioning_switch b s = posit_case s.
Proof.
  intros Hst Htrig. unfold positioning_switch. rewrite Hst. simpl.
  destruct Htrig as [-> | ->]; [reflexivity|].
  simpl. now rewrite orb_true_r.
Qed.

(** C1.  From rest at duty cycle [D], a pass of the main loop with a
    trigger (the button, or [Command] true when the positioning switch
    is reached) sets the goal given by the tie-break rule and starts the
    motion towards it; then, under every schedule in which passes of the
    main loop and timer ticks alternate often enough, the machine is
    back at rest after a prefix of the schedule, with the duty cycle at
    the goal, having stayed in the moving and waiting states of one
    direction, and having changed the duty cycle exactly [|goal - D|]
    times, each time by one unit on entering the waiting state with
    [Pwm1_delay = SPEED].  From 161 the goal is 78, reached through
    [MOVINGDOWN]; from 78 the goal is 161, reached through [MOVINGUP]. *)
Theorem positioning_reaches_goal
  (s : state) (button : bool) (l : list event) :
  wf s ->
  Pwm1_State s = POSIT ->
  button = true \/ Command (confirm_switch s) = TRUE ->
  let D := Pwm1_dc s in
  let target := spec_target POSIT_START POSIT_END D in
  let s1 := step s (EvMain button) in
  Z.abs (target - D) * (SPEED + 2) + 1 <= alternations false l ->
  Pwm1_reach s1 = target /\
  Pwm1_State s1 = spec_direction MOVINGUP MOVINGDOWN target D /\
  Pwm1_dc s1 = D /\
  (D = POSIT_START -> target = POSIT_END /\ Pwm1_State s1 = MOVINGDOWN) /\
  (D = POSIT_END -> target = POSIT_START /\ Pwm1_State s1 = MOVINGUP) /\
  exists l1 l2 : list event,
    l = l1 ++ l2 /\
    before_each (phase (target >? D)) s1 l1 = true /\
    Pwm1_State (run s1 l1) = POSIT /\
    Pwm1_dc (run s1 l1) = target /\
    dc_changes s1 l1 = Z.abs (target - D) /\
    steps_armed s1 l1 = true.
Proof.
  intros Hwf Hst Htrig D target s1 Halt.
  pose proof (confirm_switch_frame s) as F; simpl in F.
  destruct F as (_ & F2 & _ & F3 & F4 & _).
  assert (E : s1 = posit_case (confirm_switch s)).
  { subst s1. cbn [step]. unfold main_body.
    apply positioning_switch_at_rest; [congruence|].
    destruct Htrig as [H | H]; [now left | now right]. }
  pose proof (posit_case_spec (confirm_switch s)) as P. cbv zeta in P.
  rewrite <- E, F2, F4 in P. fold D in P. fold target in P.
  destruct P as (P1 & P2 & P3 & P4 & _). rewrite P1 in P2.
  assert (Hw : is_u16 D /\ is_u16 (Pwm1_delay s))
    by (unfold wf in Hwf; tauto).
  destruct Hw as [HD Hdl].
  assert (Ht : (D = POSIT_START -> target = POSIT_END) /\
               (D = POSIT_END -> target = POSIT_START) /\
               (target = POSIT_START \/ target = POSIT_END)).
  { subst target. unfold spec_target. rf_consts.
    repeat case_if; bool_hyps; split_and; intros; try lia; tauto. }
  destruct Ht as (Ht1 & Ht2 & Ht3).
  split_and; try assumption.
  - intros H. split; [now apply Ht1|]. rewrite P2, (Ht1 H), H. reflexivity.
  - intros H. split; [now apply Ht2|]. rewrite P2, (Ht2 H), H. reflexivity.
  - assert (Hinv : motion_inv (target >? D) s1).
    { unfold motion_inv, phase, going_up, going_down.
      rewrite P1, P2, P3, P4. unfold spec_direction.
      destruct (target >? D) eqn:G; bool_hyps;
        split_and; try reflexivity; try assumption; try lia.
      all: revert Ht3; rf_consts; lia. }
    destruct (motion_terminates (target >? D) l s1 false Hinv)
      as (l1 & l2 & H1 & H2 & H3 & H4 & H5 & H6).
    + unfold need, motion_potential. rewrite P1, P2, P3.
      unfold spec_direction.
      destruct (target >? D); simpl; lia.
    + exists l1, l2. rewrite H4, H5, P1, P3. tauto.
Qed.

Lemma positioning_reaches_goal_witness :
  let s := set_Pwm1_dc 160 Init in
  let s1 := step s (EvMain true) in
  exists l1 l2 : list event,
    round_robin 3003 = l1 ++ l2 /\
    Pwm1_State (run s1 l1) = POSIT /\ Pwm1_dc (run s1 l1) = POSIT_START /\
    dc_changes s1 l1 = 1.
Proof.
  intros s s1.
  assert (Hwf : wf s) by (unfold wf, s, Init; simpl; rf_consts; lia).
  assert (Halt : Z.abs (spec_target POSIT_START POSIT_END (Pwm1_dc s)
                        - Pwm1_dc s) * (SPEED + 2) + 1
                 <= alternations false (round_robin 3003))
    by (vm_compute; discriminate).
  destruct (positioning_reaches_goal s true (round_robin 3003) Hwf eq_refl
              (or_introl eq_refl) Halt)
    as (_ & _ & _ & _ & _ & l1 & l2 & H1 & _ & H3 & H4 & H5 & _).
  exists l1, l2. split_and; assumption.
Defined.

(** *** The command confirmation machine *)

Lemma Timer_A_confirm (p : Z) (s : state) :
  RfDetConfirmSt (Timer_A p s) = RfDetConfirmSt s /\
  Command (Timer_A p s) = Command s /\
  RfLongDelay (Timer_A p s) =
    (if RfPrescaler s =? 0
     then if RfLongDelay s =? 0 then RfLongDelay s
          else u16 (RfLongDelay s - 1)
     else RfLongDelay s) /\
  RfPrescaler (Timer_A p s) =
    (if RfPrescaler s =? 0 then PRESCALER else u16 (RfPrescaler s - 1)).
Proof.
  unfold Timer_A.
  set (s1 := if Pwm1_State s =? POSIT then detect_switch p s else s).
  assert (H1 : RfDetConfirmSt s1 = RfDetConfirmSt s /\
               Command s1 = Command s /\
               RfLongDelay s1 = RfLongDelay s /\
               RfPrescaler s1 = RfPrescaler s).
  { subst s1. case_if; [|tauto].
    pose proof (detect_switch_frame p s) as F; simpl in F; tauto. }
  destruct H1 as (<- & <- & <- & <-).
  pose proof (pwm_management_frame (delay_management s1)) as F3.
  simpl in F3.
  destruct F3 as (_ & _ & _ & _ & _ & _ & _ & -> & -> & -> & _ & -> & _).
  clearbody s1. destruct s1; unfold delay_management, nonzero. simpl.
  repeat (case_if; simpl in * ); split_and; congruence.
Qed.

Lemma main_body_confirm (b : bool) (s : state) :
  RfDetConfirmSt (main_body b s) = RfDetConfirmSt (confirm_switch s) /\
  RfLongDelay (main_body b s) = RfLongDelay (confirm_switch s) /\
  RfPrescaler (main_body b s) = RfPrescaler s /\
  RfDetected (main_body b s) = RfDetected s.
Proof.
  unfold main_body.
  pose proof (positioning_switch_frame b (confirm_switch s)) as F.
  simpl in F.
  pose proof (confirm_switch_frame s) as F1; simpl in F1.
  destruct F as (_ & _ & _ & -> & -> & -> & -> & _).
  destruct F1 as (_ & _ & _ & _ & _ & _ & _ & -> & -> & _).
  tauto.
Qed.

Lemma emissions_app (l1 l2 : list event) (s : state) :
  emissions s (l1 ++ l2) = emissions s l1 + emissions (run s l1) l2.
Proof.
  revert s. induction l1 as [|e l1 IH]; intros s.
  - simpl. lia.
  - cbn [app emissions]. rewrite run_cons, IH. lia.
Qed.

Lemma long_ticks_nonneg (l : list event) (s : state) : 0 <= long_ticks s l.
Proof.
  revert s. induction l as [|e l IH]; intros s; cbn [long_ticks].
  - lia.
  - pose proof (IH (step s e)). case_if; lia.
Qed.

(** The prescaler spaces the long ticks [PRESCALER + 1] ticks apart. *)
Lemma long_ticks_spacing (l : list event) (s : state) :
  wf s ->
  (PRESCALER + 1) * long_ticks s l
  <= ticks l + PRESCALER - Z.min (RfPrescaler s) PRESCALER.
Proof.
  revert s. induction l as [|e l IH]; intros s Hwf.
  - simpl. unfold wf, is_u16, PRESCALER in *. lia.
  - pose proof (IH (step s e) (wf_step s e Hwf)) as H.
    cbn [long_ticks ticks]. destruct e as [b|p|f p]; cbn [long_tick step] in *.
    + destruct (main_body_confirm b s) as (_ & _ & E & _).
      rewrite E in H. lia.
    + destruct (Timer_A_confirm p s) as (_ & _ & _ & E). rewrite E in H.
      unfold wf, is_u16, PRESCALER in *. revert H.
      destruct (Z.eqb_spec (RfPrescaler s) 0); intros H.
      * lia.
      * rewrite u16_small in H by lia. lia.
    + pose proof (Port1_isr_frame f p s) as F; simpl in F.
      destruct F as (_ & _ & _ & _ & _ & _ & _ & E & _).
      rewrite E in H. lia.
Qed.

(** Transition table of the confirmation switch, as seen from one pass
    of the main loop. *)
Lemma main_confirm_table (b : bool) (s : state) :
  let t := step s (EvMain b) in
  (RfDetConfirmSt s = IDLE ->
   (detected s && (Pwm1_State s =? POSIT) = true ->
    RfDetConfirmSt t = VALIDATE /\ RfLongDelay t = VALIDATE_RF) /\
   (detected s && (Pwm1_State s =? POSIT) = false ->
    RfDetConfirmSt t = IDLE /\ RfLongDelay t = RfLongDelay s)) /\
  (RfDetConfirmSt s = VALIDATE ->
   (detected s = true -> RfLongDelay s = 0 ->
    RfDetConfirmSt t = WAITDETEND /\ RfLongDelay t = WAITEND_RF) /\
   (detected s = true -> RfLongDelay s <> 0 ->
    RfDetConfirmSt t = VALIDATE /\ RfLongDelay t = RfLongDelay s) /\
   (detected s = false ->
    RfDetConfirmSt t = IDLE /\ RfLongDelay t = RfLongDelay s)) /\
  (RfDetConfirmSt s = WAITDETEND ->
   (detected s = true ->
    RfDetConfirmSt t = WAITDETEND /\ RfLongDelay t = WAITEND_RF) /\
   (detected s = false -> RfLongDelay s = 0 ->
    RfDetConfirmSt t = IGNORE /\ RfLongDelay t = IGNORE_RF) /\
   (detected s = false -> RfLongDelay s <> 0 ->
    RfDetConfirmSt t = WAITDETEND /\ RfLongDelay t = RfLongDelay s)) /\
  (RfDetConfirmSt s = IGNORE ->
   (RfLongDelay s = 0 ->
    RfDetConfirmSt t = IDLE /\ RfLongDelay t = RfLongDelay s) /\
   (RfLongDelay s <> 0 ->
    RfDetConfirmSt t = IGNORE /\ RfLongDelay t = RfLongDelay s)) /\
  emits s (EvMain b)
  = (RfDetConfirmSt s =? WAITDETEND) && negb (detected s)
    && (RfLongDelay s =? 0).
Proof.
  cbv zeta. cbn [step emits].
  destruct (main_body_confirm b s) as (-> & -> & _ & _).
  destruct s; unfold confirm_switch, LED_ON, LED_OFF, detected, nonzero.
  simpl. rf_consts.
  split_and; try intros ->; simpl; split_and; intros;
    repeat (case_if; simpl in * ); bool_hyps; subst;
    try discriminate; try lia; try tauto; try (split; reflexivity).
Qed.

Lemma tick_confirm_table (p : Z) (s : state) :
  wf s ->
  let t := step s (EvTick p) in
  RfDetConfirmSt t = RfDetConfirmSt s /\
  RfLongDelay t =
    (if long_tick s (EvTick p) then Z.max 0 (RfLongDelay s - 1)
     else RfLongDelay s) /\
  emits s (EvTick p) = false.
Proof.
  intros Hwf. cbv zeta. cbn [step long_tick emits].
  destruct (Timer_A_confirm p s) as (-> & _ & -> & _).
  split_and; try reflexivity.
  unfold wf, is_u16 in Hwf.
  repeat case_if; bool_hyps; u16_simpl; lia.
Qed.

Lemma port_confirm_table (f p : Z) (s : state) :
  let t := step s (EvPort1 f p) in
  RfDetConfirmSt t = RfDetConfirmSt s /\
  RfLongDelay t = RfLongDelay s /\
  long_tick s (EvPort1 f p) = false /\
  emits s (EvPort1 f p) = false.
Proof.
  cbv zeta. cbn [step long_tick emits].
  pose proof (Port1_isr_frame f p s) as F; simpl in F. tauto.
Qed.

Section NoEmission.
Variable Inv : state -> Prop.
Variable G : state -> bool.
Hypothesis Inv_step :
  forall (s : state) (e : event),
    Inv s -> G s = true -> Inv (step s e) /\ emits s e = false.

(** An invariant whose states emit nothing, kept by every event taken
    from a state satisfying the guard, gives executions without
    emission. *)
Lemma no_emission_run (l : list event) (s : state) :
  Inv s -> before_each G s l = true ->
  emissions s l = 0 /\ Inv (run s l).
Proof.
  revert s. induction l as [|e l IH]; intros s Hi Hg.
  - split; [reflexivity | exact Hi].
  - cbn [before_each] in Hg. apply andb_true_iff in Hg.
    destruct Hg as [Hg1 Hg2].
    destruct (Inv_step s e Hi Hg1) as [Hi' He].
    destruct (IH (step s e) Hi' Hg2) as [E I'].
    cbn [emissions]. rewrite run_cons, He, E. split; [reflexivity|exact I'].
Qed.
End NoEmission.

Ltac confirm_tables s e :=
  let T := fresh "T" in
  destruct e as [?b|?p|?f ?p];
  [ pose proof (main_confirm_table b s) as T
  | pose proof (tick_confirm_table p s) as T
  | pose proof (port_confirm_table f p s) as T ];
  cbv zeta in T.

(** While the flag is down, the machine in [IDLE] or [VALIDATE] stays
    there. *)
Lemma quiet_step (s : state) (e : event) :
  wf s /\ (RfDetConfirmSt s = IDLE \/ RfDetConfirmSt s = VALIDATE) ->
  not_detected s = true ->
  (wf (step s e) /\
   (RfDetConfirmSt (step s e) = IDLE \/
    RfDetConfirmSt (step s e) = VALIDATE)) /\
  emits s e = false.
Proof.
  intros [Hwf Hc] Hd. unfold not_detected in Hd. fold (detected s) in Hd.
  apply negb_true_iff in Hd.
  split; [split; [now apply wf_step|]|]; confirm_tables s e.
  - destruct T as (T1 & T2 & _). rewrite Hd in *. simpl in T1.
    destruct Hc as [Hc | Hc].
    + left. now apply T1.
    + left. now apply T2.
  - destruct (T Hwf) as (-> & _). exact Hc.
  - destruct T as (-> & _). exact Hc.
  - destruct T as (_ & _ & _ & _ & ->).
    destruct Hc as [-> | ->]; reflexivity.
  - now destruct (T Hwf) as (_ & _ & ->).
  - now destruct T as (_ & _ & _ & ->).
Qed.

(** A pulse that lasts fewer long ticks than the budget is not
    validated. *)
Lemma budget_step (s : state) (e : event) :
  wf s -> 0 < validate_budget s ->
  validate_budget s - (if long_tick s e then 1 else 0)
  <= validate_budget (step s e) /\
  emits s e = false.
Proof.
  intros Hwf Hb. unfold validate_budget in *.
  destruct (Z.eqb_spec (RfDetConfirmSt s) IDLE) as [Hc | Hc].
  - confirm_tables s e.
    + destruct T as (T1 & _ & _ & _ & ->). rewrite Hc. split; [|reflexivity].
      specialize (T1 Hc). destruct T1 as [Ta Tb].
      destruct (detected s && (Pwm1_State s =? POSIT)).
      * destruct (Ta eq_refl) as [-> ->]. simpl. unfold VALIDATE_RF. lia.
      * destruct (Tb eq_refl) as [-> _]. simpl. lia.
    + destruct (T Hwf) as (-> & _ & ->). rewrite Hc. simpl.
      split; [|reflexivity]. case_if; unfold VALIDATE_RF; lia.
    + destruct T as (-> & _ & -> & ->). rewrite Hc. simpl. split; [lia|easy].
  - destruct (Z.eqb_spec (RfDetConfirmSt s) VALIDATE) as [Hv | Hv]; [|lia].
    confirm_tables s e.
    + destruct T as (_ & T2 & _ & _ & ->). rewrite Hv. split; [|reflexivity].
      specialize (T2 Hv). destruct T2 as (_ & Ta & Tb). cbn [long_tick].
      destruct (detected s).
      * assert (Z0 : RfLongDelay s <> 0) by lia.
        destruct (Ta eq_refl Z0) as [-> ->]. simpl. lia.
      * destruct (Tb eq_refl) as [-> _]. simpl. lia.
    + destruct (T Hwf) as (-> & -> & ->). split; [|reflexivity].
      rewrite Hv. change (VALIDATE =? IDLE) with false.
      rewrite Z.eqb_refl. cbv iota. case_if; lia.
    + destruct T as (-> & -> & -> & ->). split; [|reflexivity].
      rewrite Hv. change (VALIDATE =? IDLE) with false.
      rewrite Z.eqb_refl. cbv iota. lia.
Qed.

Lemma pulse_phase (l : list event) (s : state) :
  wf s -> long_ticks s l < validate_budget s ->
  emissions s l = 0 /\
  (RfDetConfirmSt (run s l) = IDLE \/ RfDetConfirmSt (run s l) = VALIDATE).
Proof.
  revert s. induction l as [|e l IH]; intros s Hwf Hb.
  - split; [reflexivity|]. simpl in *. unfold validate_budget in Hb.
    destruct (Z.eqb_spec (RfDetConfirmSt s) IDLE); [now left|].
    destruct (Z.eqb_spec (RfDetConfirmSt s) VALIDATE); [now right | lia].
  - cbn [long_ticks] in Hb. pose proof (long_ticks_nonneg l (step s e)).
    destruct (budget_step s e Hwf) as [B E];
      [destruct (long_tick s e); lia|].
    destruct (IH (step s e) (wf_step s e Hwf)) as [E' C];
      [destruct (long_tick s e); lia|].
    cbn [emissions]. rewrite run_cons, E, E'. split; [reflexivity | exact C].
Qed.

(** While the flag is up, the machine in [VALIDATE] or [WAITDETEND]
    emits nothing and stays there; once in [WAITDETEND] it stays in
    [WAITDETEND], with at most [WAITEND_RF] on the countdown after the
    first pass of the main loop. *)
Lemma hold_step (s : state) (e : event) :
  wf s /\ (RfDetConfirmSt s = VALIDATE \/
           (RfDetConfirmSt s = WAITDETEND /\ RfLongDelay s <= WAITEND_RF)) ->
  detected s = true ->
  (wf (step s e) /\
   (RfDetConfirmSt (step s e) = VALIDATE \/
    (RfDetConfirmSt (step s e) = WAITDETEND /\
     RfLongDelay (step s e) <= WAITEND_RF))) /\
  emits s e = false.
Proof.
  intros [Hwf Hc] Hd.
  split; [split; [now apply wf_step|]|]; confirm_tables s e.
  - destruct T as (_ & T2 & T3 & _). rewrite Hd in *.
    destruct Hc as [Hc | [Hc Hl]].
    + destruct (T2 Hc) as (Ta & Tb & _).
      destruct (Z.eq_dec (RfLongDelay s) 0) as [Z0 | Z0].
      * right. destruct (Ta eq_refl Z0) as [-> ->]. split; [easy|lia].
      * left. now destruct (Tb eq_refl Z0).
    + right. destruct (T3 Hc) as (Ta & _).
      destruct (Ta eq_refl) as [-> ->]. split; [easy|lia].
  - destruct (T Hwf) as (-> & -> & _).
    destruct Hc as [Hc | [Hc Hl]]; [now left | right].
    split; [exact Hc|]. unfold wf, is_u16 in Hwf. case_if; lia.
  - destruct T as (-> & -> & _). exact Hc.
  - destruct T as (_ & _ & _ & _ & ->). rewrite Hd. simpl.
    now rewrite andb_false_r.
  - now destruct (T Hwf) as (_ & _ & ->).
  - now destruct T as (_ & _ & _ & ->).
Qed.

Lemma waitdetend_held_step (s : state) (e : event) :
  wf s /\ RfDetConfirmSt s = WAITDETEND /\ RfLongDelay s <= WAITEND_RF ->
  detected s = true ->
  (wf (step s e) /\ RfDetConfirmSt (step s e) = WAITDETEND /\
   RfLongDelay (step s e) <= WAITEND_RF) /\
  emits s e = false.
Proof.
  intros (Hwf & Hc & Hl) Hd.
  destruct (hold_step s e (conj Hwf (or_intror (conj Hc Hl))) Hd)
    as [[Hwf' _] He].
  split; [|exact He]. split; [exact Hwf'|]. confirm_tables s e.
  - destruct T as (_ & _ & T3 & _). destruct (T3 Hc) as (Ta & _).
    destruct (Ta Hd) as [-> ->]. split; [easy|lia].
  - destruct (T Hwf) as (-> & -> & _). split; [exact Hc|].
    unfold wf, is_u16 in Hwf. case_if; lia.
  - destruct T as (-> & -> & _). tauto.
Qed.

(** After the emission, flag down: the machine stays in [IGNORE] or
    [IDLE]. *)
Lemma after_emission_step (s : state) (e : event) :
  wf s /\ (RfDetConfirmSt s = IGNORE \/ RfDetConfirmSt s = IDLE) ->
  not_detected s = true ->
  (wf (step s e) /\
   (RfDetConfirmSt (step s e) = IGNORE \/
    RfDetConfirmSt (step s e) = IDLE)) /\
  emits s e = false.
Proof.
  intros [Hwf Hc] Hd. unfold not_detected in Hd. fold (detected s) in Hd.
  apply negb_true_iff in Hd.
  split; [split; [now apply wf_step|]|]; confirm_tables s e.
  - destruct T as (T1 & _ & _ & T4 & _). rewrite Hd in *. simpl in T1.
    destruct Hc as [Hc | Hc].
    + destruct (T4 Hc) as (Ta & Tb).
      destruct (Z.eq_dec (RfLongDelay s) 0) as [Z0 | Z0].
      * right. now destruct (Ta Z0).
      * left. now destruct (Tb Z0).
    + right. now apply T1.
  - destruct (T Hwf) as (-> & _). exact Hc.
  - destruct T as (-> & _). exact Hc.
  - destruct T as (_ & _ & _ & _ & ->).
    destruct Hc as [-> | ->]; reflexivity.
  - now destruct (T Hwf) as (_ & _ & ->).
  - now destruct T as (_ & _ & _ & ->).
Qed.

(** The countdown of [VALIDATE] while the flag is up. *)
Lemma validate_countdown (l : list event) (s : state) :
  wf s -> RfDetConfirmSt s = VALIDATE ->
  before_each detected s l = true ->
  (RfDetConfirmSt (run s l) = WAITDETEND /\
   RfLongDelay (run s l) <= WAITEND_RF) \/
  (RfDetConfirmSt (run s l) = VALIDATE /\
   RfLongDelay (run s l) <= Z.max 0 (RfLongDelay s - long_ticks s l)).
Proof.
  revert s. induction l as [|e l IH]; intros s Hwf Hc Hd.
  - right. split; [exact Hc|]. simpl. lia.
  - apply before_each_cons in Hd. destruct Hd as [Hd1 Hd2].
    rewrite run_cons. cbn [long_ticks].
    destruct (hold_step s e (conj Hwf (or_introl Hc)) Hd1)
      as [[Hwf' [Hv | [Hw Hl]]] _].
    + destruct (IH (step s e) Hwf' Hv Hd2) as [H | [H1 H2]];
        [now left | right].
      split; [exact H1|].
      assert (B : RfLongDelay (step s e)
                  <= Z.max 0 (RfLongDelay s
                              - (if long_tick s e then 1 else 0))).
      { confirm_tables s e.
        - destruct T as (_ & T2 & _). destruct (T2 Hc) as (Ta & Tb & _).
          cbn [long_tick]. rewrite Hd1 in *.
          destruct (Z.eq_dec (RfLongDelay s) 0) as [Z0 | Z0].
          + destruct (Ta eq_refl Z0) as [E _]. rewrite Hv in E.
            discriminate E.
          + destruct (Tb eq_refl Z0) as [_ ->]. lia.
        - destruct (T Hwf) as (_ & -> & _). case_if; lia.
        - destruct T as (_ & -> & -> & _). lia. }
      pose proof (long_ticks_nonneg l (step s e)). lia.
    + left.
      destruct (no_emission_run _ _ waitdetend_held_step l (step s e))
        as [_ (_ & A & B)]; [tauto | exact Hd2 | tauto].
Qed.

(** The countdown of [WAITDETEND] while the flag is down: no emission
    before it runs out, one at the first pass of the main loop after it
    has, and none afterwards. *)
Lemma wait_countdown (l : list event) (s : state) :
  wf s -> RfDetConfirmSt s = WAITDETEND ->
  before_each not_detected s l = true ->
  (emissions s l = 0 /\ RfDetConfirmSt (run s l) = WAITDETEND /\
   RfLongDelay (run s l) <= Z.max 0 (RfLongDelay s - long_ticks s l)) \/
  (emissions s l = 1 /\
   (RfDetConfirmSt (run s l) = IGNORE \/ RfDetConfirmSt (run s l) = IDLE)).
Proof.
  revert s. induction l as [|e l IH]; intros s Hwf Hc Hd.
  - left. split_and; [reflexivity | exact Hc | simpl; lia].
  - apply before_each_cons in Hd. destruct Hd as [Hd1 Hd2].
    rewrite run_cons. cbn [long_ticks emissions].
    pose proof (wf_step s e Hwf) as Hwf'.
    assert (Hnd : detected s = false).
    { unfold not_detected in Hd1. fold (detected s) in Hd1.
      now apply negb_true_iff in Hd1. }
    assert (Hrest :
      forall E B : Z,
        emits s e = false -> RfDetConfirmSt (step s e) = WAITDETEND ->
        RfLongDelay (step s e)
        <= Z.max 0 (RfLongDelay s - (if long_tick s e then 1 else 0)) ->
        ((if emits s e then 1 else 0) + emissions (step s e) l = 0 /\
         RfDetConfirmSt (run (step s e) l) = WAITDETEND /\
         RfLongDelay (run (step s e) l)
         <= Z.max 0 (RfLongDelay s
                     - ((if long_tick s e then 1 else 0)
                        + long_ticks (step s e) l))) \/
        ((if emits s e then 1 else 0) + emissions (step s e) l = 1 /\
         (RfDetConfirmSt (run (step s e) l) = IGNORE \/
          RfDetConfirmSt (run (step s e) l) = IDLE))).
    { intros _ _ He Hw Hl. rewrite He.
      pose proof (long_ticks_nonneg l (step s e)).
      destruct (IH (step s e) Hwf' Hw Hd2) as [(A & B & C) | (A & B)].
      - left. split_and; [lia | exact B | lia].
      - right. split; [lia | exact B]. }
    confirm_tables s e.
    + destruct T as (_ & _ & T3 & _ & Te). destruct (T3 Hc) as (_ & Ta & Tb).
      assert (Te' : emits s (EvMain b) = (RfLongDelay s =? 0))
        by (rewrite Te, Hc, Hnd; reflexivity).
      clear Te. rename Te' into Te.
      destruct (Z.eq_dec (RfLongDelay s) 0) as [Z0 | Z0].
      * right. destruct (Ta Hnd Z0) as [Hi _].
        rewrite Z0 in Te. change (0 =? 0) with true in Te. rewrite Te.
        destruct (no_emission_run _ _ after_emission_step l
                    (step s (EvMain b))) as [-> [_ B]];
          [tauto | exact Hd2 |].
        split; [reflexivity | exact B].
      * destruct (Tb Hnd Z0) as [Hw Hl].
        apply (Hrest 0 0); [|exact Hw|cbn [long_tick]; lia].
        rewrite Te. now apply Z.eqb_neq.
    + destruct (T Hwf) as (Hw & Hl & He).
      apply (Hrest 0 0); [exact He | congruence | rewrite Hl].
      case_if; lia.
    + destruct T as (Hw & Hl & Hlt & He).
      apply (Hrest 0 0); [exact He | congruence | rewrite Hl, Hlt; lia].
Qed.

(** In [IGNORE] nothing is emitted before the countdown has run out. *)
Lemma ignore_phase (l : list event) (s : state) :
  wf s -> RfDetConfirmSt s = IGNORE ->
  long_ticks s l < RfLongDelay s ->
  emissions s l = 0 /\ RfDetConfirmSt (run s l) = IGNORE.
Proof.
  revert s. induction l as [|e l IH]; intros s Hwf Hc Hl.
  - split; [reflexivity | exact Hc].
  - rewrite run_cons. cbn [long_ticks emissions] in *.
    pose proof (wf_step s e Hwf) as Hwf'.
    pose proof (long_ticks_nonneg l (step s e)) as Hn.
    assert (Hstep : emits s e = false /\
                    RfDetConfirmSt (step s e) = IGNORE /\
                    RfLongDelay s - (if long_tick s e then 1 else 0)
                    <= RfLongDelay (step s e)).
    { confirm_tables s e.
      - destruct T as (_ & _ & _ & T4 & ->). destruct (T4 Hc) as (_ & Tb).
        cbn [long_tick] in *.
        destruct Tb as [-> ->]; [lia|]. rewrite Hc. split_and; easy || lia.
      - destruct (T Hwf) as (-> & -> & ->).
        split_and; [reflexivity | exact Hc | case_if; lia].
      - destruct T as (-> & -> & -> & ->).
        split_and; [reflexivity | exact Hc | lia]. }
    destruct Hstep as (-> & Hi & Hld).
    destruct (IH (step s e) Hwf' Hi) as [-> C]; [lia|].
    split; [reflexivity | exact C].
Qed.

Lemma emissions_nonneg (l : list event) (s : state) : 0 <= emissions s l.
Proof.
  revert s. induction l as [|e l IH]; intros s; cbn [emissions].
  - lia.
  - pose proof (IH (step s e)). case_if; lia.
Qed.

Lemma confirm_switch_raises (s : state) :
  Command (confirm_switch s) = TRUE ->
  Command s = TRUE \/
  (RfDetConfirmSt s =? WAITDETEND)
  && (RfDetConfirmSt (confirm_switch s) =? IGNORE) = true.
Proof.
  destruct s; unfold confirm_switch, LED_ON, LED_OFF, nonzero; simpl.
  rf_consts.
  repeat (case_if; simpl in * ); intros Hr;
    try discriminate Hr; auto.
Qed.

Lemma confirm_switch_emits (s : state) :
  (RfDetConfirmSt s =? WAITDETEND)
  && (RfDetConfirmSt (confirm_switch s) =? IGNORE) = true ->
  Command (confirm_switch s) = TRUE.
Proof.
  destruct s; unfold confirm_switch, LED_ON, LED_OFF, nonzero; simpl.
  rf_consts.
  repeat (case_if; simpl in * ); intros Hr;
    try discriminate Hr; try reflexivity;
    bool_hyps; subst; discriminate.
Qed.

Lemma positioning_switch_lowers (b : bool) (s : state) :
  Command (positioning_switch b s) = Command s \/
  Command (positioning_switch b s) = FALSE.
Proof.
  destruct s; unfold positioning_switch, posit_case; simpl.
  repeat (case_if; simpl in * ); tauto.
Qed.

(** [Command] is raised by an emission only. *)
Lemma command_raised_by_emission (s : state) (e : event) :
  Command s <> TRUE -> emits s e = false -> Command (step s e) <> TRUE.
Proof.
  intros Hc He. destruct e as [b|p|f p]; cbn [step emits] in *.
  - unfold main_body.
    destruct (positioning_switch_lowers b (confirm_switch s)) as [-> | ->];
      [|discriminate].
    intros H. apply confirm_switch_raises in H. destruct H as [H | H].
    + contradiction.
    + rewrite H in He. discriminate He.
  - destruct (Timer_A_confirm p s) as (_ & -> & _). exact Hc.
  - pose proof (Port1_isr_frame f p s) as F; simpl in F.
    destruct F as (_ & _ & _ & _ & _ & _ & _ & _ & _ & _ & -> & _).
    exact Hc.
Qed.

Lemma command_stays_low (l : list event) (s : state) :
  Command s <> TRUE -> emissions s l = 0 -> Command (run s l) <> TRUE.
Proof.
  revert s. induction l as [|e l IH]; intros s Hc He; [exact Hc|].
  rewrite run_cons. cbn [emissions] in He.
  pose proof (emissions_nonneg l (step s e)).
  destruct (emits s e) eqn:E; [lia|].
  apply IH; [now apply command_raised_by_emission | lia].
Qed.

(** A held flag followed by a dropped flag: state of the machine at the
    end of the held part. *)
Lemma hold_part (s : state) (b0 b1 : bool) (c d : list event) :
  wf s -> RfDetConfirmSt s = IDLE -> Pwm1_State s = POSIT ->
  before_each detected s (EvMain b0 :: c ++ EvMain b1 :: d) = true ->
  VALIDATE_RF <= long_ticks (step s (EvMain b0)) c ->
  let s' := run s (EvMain b0 :: c ++ EvMain b1 :: d) in
  emissions s (EvMain b0 :: c ++ EvMain b1 :: d) = 0 /\
  wf s' /\ RfDetConfirmSt s' = WAITDETEND /\ RfLongDelay s' <= WAITEND_RF.
Proof.
  intros Hwf Hc Hp Hd Hlt. cbv zeta.
  apply before_each_cons in Hd. destruct Hd as [Hd0 Hd].
  rewrite before_each_app in Hd. apply andb_true_iff in Hd.
  destruct Hd as [Hdc Hd]. apply before_each_cons in Hd.
  destruct Hd as [Hd1 Hdd].
  rewrite run_cons, run_app, run_cons.
  cbn [emissions]. rewrite emissions_app. cbn [emissions].
  (* the arming pass *)
  pose proof (main_confirm_table b0 s) as T. cbv zeta in T.
  destruct T as (T1 & _ & _ & _ & Te). destruct (T1 Hc) as (Ta & _).
  rewrite Hd0, Hp in Ta. destruct (Ta eq_refl) as [Hv Hl]. clear Ta T1.
  rewrite Hc in Te. change (IDLE =? WAITDETEND) with false in Te.
  cbn [andb] in Te. rewrite Te. clear Te.
  set (s0 := step s (EvMain b0)) in *.
  assert (Hwf0 : wf s0) by now apply wf_step.
  (* the validation *)
  destruct (no_emission_run _ _ hold_step c s0) as [Ec [Hwf2 _]];
    [tauto | exact Hdc |].
  pose proof (validate_countdown c s0 Hwf0 Hv Hdc) as V.
  set (s2 := run s0 c) in *.
  (* the pass that ends it *)
  assert (H3 : emits s2 (EvMain b1) = false /\
               RfDetConfirmSt (step s2 (EvMain b1)) = WAITDETEND /\
               RfLongDelay (step s2 (EvMain b1)) <= WAITEND_RF).
  { pose proof (main_confirm_table b1 s2) as T. cbv zeta in T.
    destruct T as (_ & T2 & T3 & _ & ->). rewrite Hd1.
    rewrite andb_false_r. split; [reflexivity|].
    destruct V as [[Vw _] | [Vv Vl]].
    - destruct (T3 Vw) as (Ta & _). destruct (Ta Hd1) as [-> ->].
      split; [reflexivity | lia].
    - destruct (T2 Vv) as (Ta & _).
      assert (Z0 : RfLongDelay s2 = 0).
      { unfold wf, is_u16 in Hwf2. rewrite Hl in Vl. lia. }
      destruct (Ta Hd1 Z0) as [-> ->]. split; [reflexivity | lia]. }
  destruct H3 as (-> & Hw3 & Hl3).
  set (s3 := step s2 (EvMain b1)) in *.
  assert (Hwf3 : wf s3) by now apply wf_step.
  destruct (no_emission_run _ _ waitdetend_held_step d s3)
    as [-> (Hwf4 & Hw4 & Hl4)]; [tauto | exact Hdd |].
  rewrite Ec. split_and; try assumption. reflexivity.
Qed.

(** The dropped part: exactly one emission. *)
Lemma drop_part (s : state) (b : bool) (e f : list event) :
  wf s -> RfDetConfirmSt s = WAITDETEND -> RfLongDelay s <= WAITEND_RF ->
  before_each not_detected s (e ++ EvMain b :: f) = true ->
  WAITEND_RF <= long_ticks s e ->
  emissions s (e ++ EvMain b :: f) = 1.
Proof.
  intros Hwf Hw Hl Hd Hlt.
  rewrite before_each_app in Hd. apply andb_true_iff in Hd.
  destruct Hd as [Hde Hd]. apply before_each_cons in Hd.
  destruct Hd as [Hd1 Hdf].
  rewrite emissions_app. cbn [emissions].
  assert (Hwf1 : wf (run s e)) by now apply wf_run.
  assert (Hnd : detected (run s e) = false).
  { unfold not_detected in Hd1. fold (detected (run s e)) in Hd1.
    now apply negb_true_iff in Hd1. }
  destruct (wait_countdown e s Hwf Hw Hde) as [(E & W & L) | (E & C)].
  - (* the countdown has run out: this pass emits *)
    assert (Z0 : RfLongDelay (run s e) = 0).
    { unfold wf, is_u16 in Hwf1. lia. }
    pose proof (main_confirm_table b (run s e)) as T. cbv zeta in T.
    destruct T as (_ & _ & T3 & _ & Te). destruct (T3 W) as (_ & Ta & _).
    destruct (Ta Hnd Z0) as [Hi _].
    rewrite W, Hnd, Z0 in Te. change (emits (run s e) (EvMain b) = true) in Te.
    rewrite Te.
    destruct (no_emission_run _ _ after_emission_step f
                (step (run s e) (EvMain b))) as [-> _];
      [split; [now apply wf_step | now left] | exact Hdf |].
    lia.
  - (* it has emitted already *)
    destruct (after_emission_step (run s e) (EvMain b) (conj Hwf1 C) Hd1)
      as [I ->].
    destruct (no_emission_run _ _ after_emission_step f
                (step (run s e) (EvMain b)) I Hdf) as [-> _].
    lia.
Qed.

(** The prescaler stays within its period. *)
Lemma prescaler_step (s : state) (e : event) :
  wf s -> RfPrescaler s <= PRESCALER -> RfPrescaler (step s e) <= PRESCALER.
Proof.
  intros Hwf H. destruct e as [b|p|f p]; cbn [step].
  - destruct (main_body_confirm b s) as (_ & _ & -> & _). exact H.
  - destruct (Timer_A_confirm p s) as (_ & _ & _ & ->).
    unfold wf, is_u16, PRESCALER in *.
    destruct (Z.eqb_spec (RfPrescaler s) 0); [lia|].
    rewrite u16_small by lia. lia.
  - pose proof (Port1_isr_frame f p s) as F; simpl in F.
    destruct F as (_ & _ & _ & _ & _ & _ & _ & -> & _). exact H.
Qed.

Lemma prescaler_run (l : list event) (s : state) :
  wf s -> RfPrescaler s <= PRESCALER -> RfPrescaler (run s l) <= PRESCALER.
Proof.
  revert s. induction l as [|e l IH]; intros s Hwf H; [exact H|].
  rewrite run_cons. apply IH; [now apply wf_step | now apply prescaler_step].
Qed.

(** No more than [PRESCALER + 1] ticks from a long tick to the next. *)
Lemma long_ticks_lower (l : list event) (s : state) :
  wf s -> RfPrescaler s <= PRESCALER ->
  ticks l <= (PRESCALER + 1) * long_ticks s l + RfPrescaler s.
Proof.
  revert s. induction l as [|e l IH]; intros s Hwf Hp.
  - simpl. unfold wf, is_u16 in *. lia.
  - pose proof (IH (step s e) (wf_step s e Hwf) (prescaler_step s e Hwf Hp))
      as H.
    cbn [long_ticks ticks]. destruct e as [b|p|f p]; cbn [long_tick step] in *.
    + destruct (main_body_confirm b s) as (_ & _ & E & _).
      rewrite E in H. lia.
    + destruct (Timer_A_confirm p s) as (_ & _ & _ & E). rewrite E in H.
      unfold wf, is_u16, PRESCALER in *. revert H.
      destruct (Z.eqb_spec (RfPrescaler s) 0); intros H.
      * lia.
      * rewrite u16_small in H by lia. lia.
    + pose proof (Port1_isr_frame f p s) as F; simpl in F.
      destruct F as (_ & _ & _ & _ & _ & _ & _ & E & _).
      rewrite E in H. lia.
Qed.

(** Enough ticks contain enough long ticks. *)
Lemma long_ticks_of_ticks (l : list event) (s : state) (n : Z) :
  wf s -> RfPrescaler s <= PRESCALER ->
  n * (PRESCALER + 1) <= ticks l -> n <= long_ticks s l.
Proof.
  intros Hwf Hp H. pose proof (long_ticks_lower l s Hwf Hp) as L.
  unfold PRESCALER in *. lia.
Qed.

(** A held flag followed by a dropped flag, the two delays counted in
    ticks. *)
Lemma hold_drop_in_ticks (s : state) (b0 b1 b2 : bool) (c d e f : list event) :
  wf s -> RfPrescaler s <= PRESCALER ->
  RfDetConfirmSt s = IDLE -> Pwm1_State s = POSIT ->
  before_each detected s (EvMain b0 :: c ++ EvMain b1 :: d) = true ->
  VALIDATE_RF * (PRESCALER + 1) <= ticks c ->
  before_each not_detected (run s (EvMain b0 :: c ++ EvMain b1 :: d))
    (e ++ EvMain b2 :: f) = true ->
  WAITEND_RF * (PRESCALER + 1) <= ticks e ->
  emissions s ((EvMain b0 :: c ++ EvMain b1 :: d) ++ e ++ EvMain b2 :: f) = 1.
Proof.
  intros Hwf Hp Hc Hr Hh Hv Hd Hw.
  assert (Lc : VALIDATE_RF <= long_ticks (step s (EvMain b0)) c).
  { apply long_ticks_of_ticks;
      [now apply wf_step | now apply prescaler_step | exact Hv]. }
  assert (Le : WAITEND_RF
               <= long_ticks (run s (EvMain b0 :: c ++ EvMain b1 :: d)) e).
  { apply long_ticks_of_ticks;
      [now apply wf_run | now apply prescaler_run | exact Hw]. }
  rewrite emissions_app.
  destruct (hold_part s b0 b1 c d Hwf Hc Hr Hh Lc) as (-> & W1 & W2 & W3).
  now rewrite (drop_part _ b2 e f W1 W2 W3 Hd Le).
Qed.




(** *** Witnesses *)

Lemma pwm_output_level_witness :
  Pwm1_cn (Timer_A LOW Init) = 1 /\ pwm_out (Timer_A LOW Init) = true.
Proof.
  destruct (pwm_output_level Init LOW wf_Init) as (_ & H & _).
  destruct H as [H1 H2]; [unfold PWM1_MAXSTEP; simpl; lia|].
  split; [exact H1|]. apply H2. rewrite H1. simpl. unfold PWMINITIALVALUE.
  lia.
Defined.

Lemma duty_cycle_never_wraps_witness :
  Pwmtest2.Pwm1_dc
    (Pwmtest2.main_body false true
       (Pwmtest2.set_Pwm1_dc Pwmtest2.PWM1_MAXSTEP
          (Pwmtest2.set_Pwm1_State Pwmtest2.INCREASE Pwmtest2.Init)))
  = Pwmtest2.PWM1_MAXSTEP /\
  Pwmtest2.Pwm1_dc
    (Pwmtest2.main_body false true
       (Pwmtest2.set_Pwm1_dc 0
          (Pwmtest2.set_Pwm1_State Pwmtest2.DECREASE Pwmtest2.Init)))
  = 0.
Proof.
  destruct duty_cycle_never_wraps as (_ & _ & H1 & H2).
  split; [apply H1 | apply H2]; reflexivity.
Defined.

Lemma qualifier_accepts_clean_rejects_short_witness :
  let s := Port1_isr BIT6 BIT6 Init in
  RfDetected
    (run s (EvMain false
            :: tick_events (repeat 96 (Z.to_nat COUNTHIGH)
                            ++ repeat 32 (Z.to_nat COUNTLOW) ++ [64])))
  = TRUE /\
  RfDetected
    (run s (EvMain false
            :: tick_events
                 (repeat 65 (Z.to_nat (COUNTHIGH - COUNTOLER - 1))
                  ++ [1])))
  = FALSE.
Proof.
  intros s. split.
  - refine (proj1 (proj2 (qualifier_accepts_clean_rejects_short s _
                            eq_refl eq_refl eq_refl _ _)) _).
    + vm_compute. reflexivity.
    + vm_compute. reflexivity.
    + vm_compute. reflexivity.
  - refine (proj2 (proj2 (proj2 (qualifier_accepts_clean_rejects_short s _
                            eq_refl eq_refl eq_refl _ _))) _).
    + vm_compute. reflexivity.
    + vm_compute. reflexivity.
    + vm_compute. reflexivity.
Defined.

Lemma qualifier_counter_and_flag_witness :
  let s := run Init (EvPort1 BIT6 BIT6 :: tick_events (repeat HIGH 5)) in
  let s' := step s (EvTick LOW) in
  RfDetected s' = FALSE /\ RfDetCounter s' = RfDetCounter s.
Proof.
  intros s s'.
  destruct (qualifier_counter_and_flag s (EvTick LOW)) as [H _].
  fold s' in H.
  assert (N : RfDetState s' <> RfDetState s) by (vm_compute; discriminate).
  destruct (H N) as (_ & H2 & _).
  destruct (H2 eq_refl) as [[A _] | [A B]].
  - vm_compute in A. discriminate A.
  - split; assumption.
Defined.

Lemma trigger_while_moving_absorbed_witness :
  let s := step Init (EvMain true) in
  step s (EvMain true) = step s (EvMain false) /\
  Pwm1_reach (step s (EvMain true)) = Pwm1_reach s.
Proof.
  intros s.
  destruct (trigger_while_moving_absorbed s eq_refl) as (H1 & _ & H3 & _).
  split; [apply H1 | apply H3].
Defined.

(** * Further properties of the code *)

Import RfMore.

(** ** testButton *)

Lemma wait_release_some (button : Z) (reads : list Z) (v : Z)
  (rest : list Z) :
  Buttons.wait_release button reads = Some (v, rest) <->
  v = TRUE /\
  exists (held : list Z) (r0 : Z),
    reads = held ++ r0 :: rest /\
    Forall (Buttons.pressed button) held /\ Buttons.released button r0.
Proof.
  revert rest. induction reads as [|r reads IH]; intros rest; simpl.
  - split; [discriminate|]. intros (_ & held & r0 & E & _).
    destruct held; discriminate E.
  - destruct (nonzero (Buttons.button_bit button r)) eqn:N.
    + apply nonzero_true in N. rewrite IH. split.
      * intros (-> & held & r0 & -> & F & R). split; [reflexivity|].
        exists (r :: held), r0. split_and; auto.
      * intros (-> & held & r0 & E & F & R). split; [reflexivity|].
        destruct held as [|x held]; simpl in E; injection E as <- E.
        -- contradiction.
        -- exists held, r0. inversion F. split_and; auto.
    + apply nonzero_false in N. split.
      * intros [= <- <-]. split; [reflexivity|].
        exists [], r. split_and; auto.
      * intros (-> & held & r0 & E & F & R).
        destruct held as [|x held]; simpl in E; injection E as <- E.
        -- now subst.
        -- inversion F; subst. contradiction.
Qed.

Lemma wait_release_none (button : Z) (reads : list Z) :
  Buttons.wait_release button reads = None <->
  Forall (Buttons.pressed button) reads.
Proof.
  induction reads as [|r reads IH]; simpl.
  - split; auto.
  - destruct (nonzero (Buttons.button_bit button r)) eqn:N.
    + apply nonzero_true in N. rewrite IH. split.
      * intros F. now constructor.
      * intros F. now inversion F.
    + apply nonzero_false in N. split; [discriminate|].
      intros F. inversion F; subst. contradiction.
Qed.

(** X1.  [testButton] reports a press once, when the release is seen: it
    returns [TRUE] exactly when the bit of the button is set in the first
    two readings at least and in all the readings up to the first one
    with the bit clear, which is the last one it consumes; it returns
    [FALSE] after one reading with the bit clear, or after a reading with
    the bit set followed by one with the bit clear; and it has not
    returned as long as all the readings have the bit set. *)
Theorem testButton_reports_release (button : Z) (reads : list Z) :
  (forall rest : list Z,
     Buttons.testButton button reads = Some (TRUE, rest) <->
     exists (held : list Z) (r0 : Z),
       reads = held ++ r0 :: rest /\ (2 <= length held)%nat /\
       Forall (Buttons.pressed button) held /\ Buttons.released button r0) /\
  (forall rest : list Z,
     Buttons.testButton button reads = Some (FALSE, rest) <->
     (exists r0 : Z, reads = r0 :: rest /\ Buttons.released button r0) \/
     (exists r1 r0 : Z,
        reads = r1 :: r0 :: rest /\
        Buttons.pressed button r1 /\ Buttons.released button r0)) /\
  (Buttons.testButton button reads = None <->
   Forall (Buttons.pressed button) reads) /\
  (forall (v : Z) (rest : list Z),
     Buttons.testButton button reads = Some (v, rest) ->
     v = TRUE \/ v = FALSE).
Proof.
  unfold Buttons.testButton.
  destruct reads as [|r1 rest1].
  { split_and.
    - intros rest. split; [discriminate|].
      intros (held & r0 & E & _). destruct held; discriminate E.
    - intros rest. split; [discriminate|].
      intros [(r0 & E & _) | (r1 & r0 & E & _)]; discriminate E.
    - split; auto.
    - discriminate. }
  destruct (nonzero (Buttons.button_bit button r1)) eqn:N1.
  2:{ apply nonzero_false in N1. split_and.
      - intros rest. split; [discriminate|].
        intros (held & r0 & E & L & F & R).
        destruct held as [|x held]; [simpl in L; lia|].
        inversion E; subst. inversion F; subst. contradiction.
      - intros rest. split.
        + intros E. inversion E; subst. left. now exists r1.
        + intros [(r0 & E & R) | (x & r0 & E & P & R)];
            inversion E; subst; [reflexivity | contradiction].
      - split; [discriminate|]. intros F. inversion F; subst. contradiction.
      - intros v rest E. inversion E. now right. }
  apply nonzero_true in N1.
  destruct rest1 as [|r2 rest2].
  { split_and.
    - intros rest. split; [discriminate|].
      intros (held & r0 & E & L & _).
      destruct held as [|x [|y held]]; simpl in *; try lia; discriminate E.
    - intros rest. split; [discriminate|].
      intros [(r0 & E & R) | (x & r0 & E & _)];
        [inversion E; subst; contradiction | discriminate E].
    - split; auto.
    - discriminate. }
  destruct (nonzero (Buttons.button_bit button r2)) eqn:N2.
  - apply nonzero_true in N2. split_and.
    + intros rest. rewrite wait_release_some. split.
      * intros (_ & held & r0 & -> & F & R).
        exists (r1 :: r2 :: held), r0. split_and; auto. simpl. lia.
      * intros (held & r0 & E & L & F & R). split; [reflexivity|].
        destruct held as [|x [|y held]]; simpl in L; try lia.
        inversion E; subst. inversion F as [|? ? _ F']; subst.
        inversion F'; subst. now exists held, r0.
    + intros rest. rewrite wait_release_some. split.
      * intros (E & _). discriminate E.
      * intros [(r0 & E & R) | (x & r0 & E & P & R)];
          inversion E; subst; contradiction.
    + rewrite wait_release_none. split.
      * intros F. now repeat constructor.
      * intros F. inversion F as [|? ? _ F']. now inversion F'.
    + intros v rest E. apply wait_release_some in E. now left.
  - apply nonzero_false in N2. split_and.
    + intros rest. split; [discriminate|].
      intros (held & r0 & E & L & F & R).
      destruct held as [|x [|y held]]; simpl in L; try lia.
      inversion E; subst. inversion F as [|? ? _ F']; subst.
      inversion F'; subst. contradiction.
    + intros rest. split.
      * intros E. inversion E; subst. right. now exists r1, r2.
      * intros [(r0 & E & R) | (x & r0 & E & P & R)];
          inversion E; subst; [contradiction | reflexivity].
    + split; [discriminate|]. intros F. inversion F as [|? ? _ F'].
      inversion F'; subst. contradiction.
    + intros v rest E. inversion E. now right.
Qed.

Lemma testButton_reports_release_witness :
  Buttons.testButton Buttons.S2_BUTTON [64; 64; 64; 0; 5] = Some (TRUE, [5]) /\
  Buttons.testButton Buttons.S2_BUTTON [64; 0; 5] = Some (FALSE, [5]).
Proof.
  split.
  - destruct (testButton_reports_release Buttons.S2_BUTTON [64; 64; 64; 0; 5])
      as (H & _).
    apply H. exists [64; 64; 64], 0. split; [reflexivity|].
    split; [simpl; lia|]. split; [|reflexivity].
    repeat constructor; discriminate.
  - destruct (testButton_reports_release Buttons.S2_BUTTON [64; 0; 5])
      as (_ & H & _).
    apply H. right. exists 64, 0. split; [reflexivity|].
    split; [discriminate | reflexivity].
Defined.

Lemma land_mask_small (r m : Z) :
  0 <= m < 256 -> Z.land r m mod 256 = Z.land r m.
Proof.
  intros Hm. apply Z.mod_small.
  assert (N : 0 <= Z.land r m) by (apply Z.land_nonneg; lia).
  split; [exact N|].
  destruct (Z.eq_dec (Z.land r m) 0) as [->|Hz]; [lia|].
  assert (Hm0 : m <> 0).
  { intros ->. rewrite Z.land_0_r in Hz. contradiction. }
  assert (L : Z.log2 (Z.land r m) <= Z.log2 m).
  { assert (Hb : Z.testbit (Z.land r m) (Z.log2 (Z.land r m)) = true)
      by (apply Z.bit_log2; lia).
    rewrite Z.land_spec in Hb. apply andb_true_iff in Hb.
    destruct Hb as [_ Hb].
    destruct (Z_le_gt_dec (Z.log2 (Z.land r m)) (Z.log2 m)); [assumption|].
    rewrite Z.bits_above_log2 in Hb by lia. discriminate Hb. }
  assert (Z.log2 m < 8).
  { apply Z.log2_lt_pow2; [lia|]. change (2 ^ 8) with 256. lia. }
  assert (P : 0 < Z.land r m) by lia.
  change 256 with (2 ^ 8). apply (proj2 (Z.log2_lt_pow2 _ 8 P)). lia.
Qed.

(** X2.  [testButton] looks at one bit of the port only: bit [7 - button]
    (P2.7 for [S1_BUTTON], P2.6 for [S2_BUTTON]); a button number from 8
    to 15 is never seen pressed (a shift of the 16-bit constant by more
    is undefined). *)
Theorem button_bit_of_port (button r : Z) :
  0 <= button < 16 ->
  (Buttons.pressed button r <->
   button <= 7 /\ Z.testbit r (7 - button) = true).
Proof.
  intros [Hb _]. unfold Buttons.pressed, Buttons.button_bit.
  destruct (Z_le_gt_dec button 7) as [Hle|Hgt].
  - assert (E : Z.shiftr 128 button = 2 ^ (7 - button)).
    { rewrite Z.shiftr_div_pow2 by assumption.
      change 128 with (2 ^ 7).
      replace 7 with ((7 - button) + button) at 1 by lia.
      rewrite Z.pow_add_r by lia. apply Z.div_mul.
      apply Z.pow_nonzero; lia. }
    rewrite E, land_mask_small.
    + rewrite land_pow2_nonzero by lia. tauto.
    + split; [apply Z.pow_nonneg; lia|].
      change 256 with (2 ^ 8). apply Z.pow_lt_mono_r; lia.
  - assert (E : Z.shiftr 128 button = 0).
    { rewrite Z.shiftr_div_pow2 by assumption. apply Z.div_small.
      split; [lia|]. change 128 with (2 ^ 7).
      apply Z.pow_lt_mono_r; lia. }
    rewrite E, Z.land_0_r. change (0 mod 256) with 0.
    split; [intros H; now elim H | lia].
Qed.

Lemma button_bit_of_port_witness :
  Buttons.pressed Buttons.S2_BUTTON 64 <->
  Buttons.S2_BUTTON <= 7 /\ Z.testbit 64 (7 - Buttons.S2_BUTTON) = true.
Proof.
  apply (button_bit_of_port Buttons.S2_BUTTON 64).
  unfold Buttons.S2_BUTTON. lia.
Defined.

(** ** Invariants of rf_motor.c *)

Ltac bits1 :=
  rewrite ?Z.lor_spec, ?Z.land_spec, ?Z.lnot_spec by lia;
  repeat match goal with
  | |- context [Z.testbit (Z.pos ?p) ?i] =>
      let v := eval vm_compute in (Z.testbit (Z.pos p) i) in
      change (Z.testbit (Z.pos p) i) with v
  end;
  cbn [negb andb orb];
  rewrite ?orb_false_r, ?andb_true_r, ?orb_true_r, ?andb_false_r.

Ltac bits := repeat (progress bits1).

Ltac cases4 st :=
  let H := fresh in
  assert (H : st = 0 \/ st = 1 \/ st = 2 \/ st = 3) by lia;
  destruct H as [-> | [-> | [-> | ->]]].

Lemma confirm_switch_confirm_inv (s : state) :
  confirm_inv s -> confirm_inv (confirm_switch s).
Proof.
  destruct s; unfold confirm_inv, led; simpl.
  intros (Hc & Hcm & Hci & Hled & Hld & Hpr & Hsd & Hdl).
  revert Hci Hled.
  unfold confirm_switch, LED_ON, LED_OFF, nonzero. rf_consts.
  cases4 RfDetConfirmSt0; simpl; intros Hci Hled;
    repeat (case_if; simpl); bits; bool_hyps;
    split_and; try lia; try tauto;
    try (split; intros; (reflexivity || discriminate || lia));
    try (intros; lia);
    try (revert Hled; destruct (Z.testbit P1OUT0 0);
         intuition (lia || discriminate)).
Qed.

Ltac led_finish :=
  match goal with
  | H : Z.testbit ?x 0 = true <-> _ |- _ =>
      revert H; destruct (Z.testbit x 0); intuition (lia || discriminate)
  end.

Lemma positioning_switch_confirm_inv (b : bool) (s : state) :
  confirm_inv s -> confirm_inv (positioning_switch b s).
Proof.
  destruct s; unfold confirm_inv, led; simpl.
  intros (Hc & Hcm & Hci & Hled & Hld & Hpr & Hsd & Hdl).
  unfold positioning_switch, posit_case. rf_consts.
  repeat (case_if; simpl); split_and; try lia; try tauto;
    try (intros; discriminate); auto.
Qed.

Lemma detect_switch_confirm_inv (p : Z) (s : state) :
  confirm_inv s -> confirm_inv (detect_switch p s).
Proof.
  destruct s; unfold confirm_inv, led; simpl.
  intros (Hc & Hcm & Hci & Hled & Hld & Hpr & Hsd & Hdl).
  unfold detect_switch, TEST_ON, TEST_OFF. rf_consts.
  repeat (case_if; simpl); bits; split_and; try lia; try tauto.
Qed.

Lemma delay_management_confirm_inv (s : state) :
  confirm_inv s -> confirm_inv (delay_management s).
Proof.
  destruct s; unfold confirm_inv, led; simpl.
  intros (Hc & Hcm & Hci & Hled & Hld & Hpr & Hsd & Hdl).
  unfold delay_management, nonzero. rf_consts. subst. simpl.
  repeat (case_if; simpl in *); bool_hyps; u16_simpl;
    split_and; try lia; tauto.
Qed.

Lemma pwm_management_confirm_inv (s : state) :
  confirm_inv s -> confirm_inv (pwm_management s).
Proof.
  destruct s; unfold confirm_inv, led; simpl.
  intros (Hc & Hcm & Hci & Hled & Hld & Hpr & Hsd & Hdl).
  unfold pwm_management, PWM1_ON, PWM1_OFF. rf_consts.
  repeat (case_if; simpl); bits; split_and; try lia; tauto.
Qed.

Lemma Port1_isr_confirm_inv (f p : Z) (s : state) :
  confirm_inv s -> confirm_inv (Port1_isr f p s).
Proof.
  destruct s; unfold confirm_inv, led; simpl.
  intros (Hc & Hcm & Hci & Hled & Hld & Hpr & Hsd & Hdl).
  unfold Port1_isr. rf_consts.
  repeat (case_if; simpl); split_and; try lia; tauto.
Qed.

Lemma step_confirm_inv (s : state) (e : event) :
  confirm_inv s -> confirm_inv (step s e).
Proof.
  intros H. destruct e; cbn [step].
  - now apply positioning_switch_confirm_inv, confirm_switch_confirm_inv.
  - unfold Timer_A.
    apply pwm_management_confirm_inv, delay_management_confirm_inv.
    case_if; [now apply detect_switch_confirm_inv | assumption].
  - now apply Port1_isr_confirm_inv.
Qed.

Lemma Init_confirm_inv : confirm_inv Init.
Proof.
  unfold confirm_inv, led; simpl. rf_consts.
  split_and; try lia; auto; try discriminate.
  split; discriminate.
Qed.

Lemma run_confirm_inv (l : list event) (s : state) :
  confirm_inv s -> confirm_inv (run s l).
Proof.
  revert s. induction l as [|e l IH]; intros s H; [assumption|].
  rewrite run_cons. apply IH. now apply step_confirm_inv.
Qed.

Lemma confirm_switch_detect_inv (s : state) :
  detect_inv s -> detect_inv (confirm_switch s).
Proof.
  destruct s; unfold detect_inv, test_pin, edge_enabled; simpl.
  intros (Hd & Hen & Ht & Hde & Hct).
  unfold confirm_switch, LED_ON, LED_OFF. rf_consts.
  repeat (case_if; simpl); bits; split_and; try lia; tauto.
Qed.

Lemma positioning_switch_detect_inv (b : bool) (s : state) :
  detect_inv s -> detect_inv (positioning_switch b s).
Proof.
  destruct s; unfold detect_inv, test_pin, edge_enabled; simpl.
  intros (Hd & Hen & Ht & Hde & Hct).
  unfold positioning_switch, posit_case. rf_consts.
  repeat (case_if; simpl); split_and; try lia; tauto.
Qed.

Ltac enable_finish :=
  match goal with
  | H : Z.testbit ?x 6 = true <-> _ |- _ =>
      revert H; destruct (Z.testbit x 6); intuition (lia || discriminate)
  end.

Lemma detect_switch_detect_inv (p : Z) (s : state) :
  detect_inv s -> detect_inv (detect_switch p s).
Proof.
  destruct s; unfold detect_inv, test_pin, edge_enabled; simpl.
  intros (Hd & Hen & Ht & Hde & Hct). revert Hen.
  unfold detect_switch, TEST_ON, TEST_OFF. rf_consts.
  cases4 RfDetState0; simpl; intros Hen;
    repeat (case_if; simpl); bits; bool_hyps; u16_simpl;
    split_and; try lia; try tauto; try reflexivity;
    try (split; intros; (reflexivity || discriminate || lia));
    try enable_finish.
Qed.

Lemma delay_management_detect_inv (s : state) :
  detect_inv s -> detect_inv (delay_management s).
Proof.
  destruct s; unfold detect_inv, test_pin, edge_enabled; simpl.
  intros (Hd & Hen & Ht & Hde & Hct).
  unfold delay_management. rf_consts.
  repeat (case_if; simpl); split_and; try lia; tauto.
Qed.

Lemma pwm_management_detect_inv (s : state) :
  detect_inv s -> detect_inv (pwm_management s).
Proof.
  destruct s; unfold detect_inv, test_pin, edge_enabled; simpl.
  intros (Hd & Hen & Ht & Hde & Hct).
  unfold pwm_management, PWM1_ON, PWM1_OFF. rf_consts.
  repeat (case_if; simpl); bits; split_and; try lia; tauto.
Qed.

Lemma Port1_isr_detect_inv (f p : Z) (s : state) :
  detect_inv s -> detect_inv (Port1_isr f p s).
Proof.
  destruct s; unfold detect_inv, test_pin, edge_enabled; simpl.
  intros (Hd & Hen & Ht & Hde & Hct).
  unfold Port1_isr. rf_consts.
  repeat (case_if; simpl); bits; split_and; try lia; try tauto;
    try (split; intros; (reflexivity || discriminate || lia)).
Qed.

Lemma step_detect_inv (s : state) (e : event) :
  detect_inv s -> detect_inv (step s e).
Proof.
  intros H. destruct e; cbn [step].
  - now apply positioning_switch_detect_inv, confirm_switch_detect_inv.
  - unfold Timer_A.
    apply pwm_management_detect_inv, delay_management_detect_inv.
    case_if; [now apply detect_switch_detect_inv | assumption].
  - now apply Port1_isr_detect_inv.
Qed.

Lemma Init_detect_inv : detect_inv Init.
Proof.
  unfold detect_inv, test_pin, edge_enabled; simpl. rf_consts.
  split_and; try lia; auto. split; reflexivity.
Qed.

Lemma run_detect_inv (l : list event) (s : state) :
  detect_inv s -> detect_inv (run s l).
Proof.
  revert s. induction l as [|e l IH]; intros s H; [assumption|].
  rewrite run_cons. apply IH. now apply step_detect_inv.
Qed.

Lemma main_body_rest_inv (b : bool) (s : state) :
  rest_inv s -> rest_inv (main_body b s).
Proof.
  destruct s; unfold rest_inv; simpl. intros (Hr & Hc).
  unfold main_body, positioning_switch, posit_case, confirm_switch,
    LED_ON, LED_OFF, nonzero. rf_consts. simpl.
  repeat (case_if; simpl in * ); bool_hyps; subst;
    split; try lia; try (intros; lia).
Qed.

Lemma step_rest_inv (s : state) (e : event) :
  rest_inv s -> rest_inv (step s e).
Proof.
  intros H. destruct e as [b|p|f p]; cbn [step].
  - now apply main_body_rest_inv.
  - unfold rest_inv in *.
    destruct (Timer_A_frame p s) as (_ & _ & -> & _ & ->). exact H.
  - unfold rest_inv in *.
    pose proof (Port1_isr_frame f p s) as F. simpl in F.
    destruct F as (_ & _ & _ & -> & _ & _ & _ & _ & _ & _ & -> & _).
    exact H.
Qed.

Lemma run_rest_inv (l : list event) (s : state) :
  rest_inv s -> rest_inv (run s l).
Proof.
  revert s. induction l as [|e l IH]; intros s H; [assumption|].
  rewrite run_cons. apply IH. now apply step_rest_inv.
Qed.

Lemma Init_rest_inv : rest_inv Init.
Proof. unfold rest_inv; simpl. rf_consts. split; [lia | discriminate]. Qed.

(** ** The trigger, with the interrupts served inside a pass *)

(** The executions by whole passes are among those by switches. *)
Lemma run_as_fine (l : list event) (s : state) :
  run s l = Fine.run s (flat_map Fine.pass l).
Proof.
  revert s. induction l as [|e l IH]; intros s; [reflexivity|].
  rewrite run_cons. cbn [flat_map]. unfold Fine.run.
  rewrite fold_left_app. fold (Fine.run (fold_left Fine.step (Fine.pass e) s)
                                 (flat_map Fine.pass l)).
  rewrite IH. destruct e; reflexivity.
Qed.

Lemma Timer_A_confirm_inv (p : Z) (s : state) :
  confirm_inv s -> confirm_inv (Timer_A p s).
Proof.
  intros H. unfold Timer_A.
  apply pwm_management_confirm_inv, delay_management_confirm_inv.
  case_if; [now apply detect_switch_confirm_inv | assumption].
Qed.

Lemma fine_confirm_inv (l : list Fine.event) (s : state) :
  confirm_inv s -> confirm_inv (Fine.run s l).
Proof.
  revert s. induction l as [|e l IH]; intros s H; [assumption|].
  change (Fine.run s (e :: l)) with (Fine.run (Fine.step s e) l).
  apply IH. destruct e as [|b|p|f p]; cbn [Fine.step].
  - now apply confirm_switch_confirm_inv.
  - now apply positioning_switch_confirm_inv.
  - now apply Timer_A_confirm_inv.
  - now apply Port1_isr_confirm_inv.
Qed.

(** The positioning switch leaves no trigger pending at rest, and
    starts the motion on a trigger found at rest. *)
Lemma positioning_switch_consumes (b : bool) (s : state) :
  let s' := positioning_switch b s in
  (Command s' = TRUE -> moving s' = true) /\
  (Command s = TRUE -> Pwm1_State s = POSIT ->
   Command s' = FALSE /\ moving s' = true).
Proof.
  destruct s; unfold moving, positioning_switch, posit_case; simpl.
  rf_consts.
  repeat (inner_case_if; simpl in * ); bool_hyps; subst;
    split; intros; try split; try reflexivity; try lia; try discriminate.
Qed.

Lemma fine_pending (l : list Fine.event) :
  forall (s : state) (acc : bool),
    (acc = true -> Command s = TRUE -> moving s = true) ->
    Fine.posit_last acc l = true ->
    Command (Fine.run s l) = TRUE -> moving (Fine.run s l) = true.
Proof.
  induction l as [|e l IH]; intros s acc H Hl.
  - apply H. exact Hl.
  - change (Fine.run s (e :: l)) with (Fine.run (Fine.step s e) l).
    destruct e as [|b|p|f p]; cbn [Fine.posit_last Fine.step] in *.
    + apply (IH _ false); [discriminate | exact Hl].
    + apply (IH _ true); [|exact Hl]. intros _.
      apply (positioning_switch_consumes b s).
    + apply (IH _ acc); [|exact Hl]. unfold moving.
      destruct (Timer_A_frame p s) as (_ & _ & -> & _ & ->). exact H.
    + apply (IH _ acc); [|exact Hl]. unfold moving.
      pose proof (Port1_isr_frame f p s) as F. simpl in F.
      destruct F as (_ & _ & _ & -> & _ & _ & _ & _ & _ & _ & -> & _).
      exact H.
Qed.

(** An execution made of whole passes ends after a positioning switch,
    or before the first pass. *)
Lemma posit_last_passes (l : list event) (acc : bool) :
  acc = true -> Fine.posit_last acc (flat_map Fine.pass l) = true.
Proof.
  revert acc. induction l as [|e l IH]; intros acc H; [exact H|].
  destruct e as [b|p|f p]; cbn [flat_map Fine.pass app Fine.posit_last].
  - now apply IH.
  - now apply IH.
  - now apply IH.
Qed.

(** X3.  The trigger, with the interrupts served anywhere between the
    two switches of the main loop.  In every execution from [Init],
    [Command] is [FALSE] or [TRUE], and it is [TRUE] only while the
    confirmation machine is in [IGNORE].  A trigger raised by the
    confirmation switch can be pending with the arm at rest until the
    positioning switch runs: that switch takes it, clears [Command] and
    starts the motion; and whenever the positioning switch has run
    since the confirmation switch last did, a pending trigger means
    that the arm is moving. *)
Theorem trigger_consumed_by_positioning_switch (l : list Fine.event) :
  let s := Fine.run Init l in
  (Command s = FALSE \/ Command s = TRUE) /\
  (Command s = TRUE -> RfDetConfirmSt s = IGNORE) /\
  (Fine.posit_last true l = true -> Command s = TRUE -> moving s = true) /\
  (forall b : bool,
     Command s = TRUE -> Pwm1_State s = POSIT ->
     Command (positioning_switch b s) = FALSE /\
     moving (positioning_switch b s) = true).
Proof.
  cbv zeta.
  pose proof (fine_confirm_inv l Init Init_confirm_inv) as (_ & A & B & _).
  split_and.
  - exact A.
  - exact B.
  - apply (fine_pending l Init true). intros _ H. discriminate H.
  - intros b. apply (positioning_switch_consumes b (Fine.run Init l)).
Qed.

Lemma trigger_consumed_by_positioning_switch_witness :
  let s := Fine.run Init Fine.command_raised in
  Command s = TRUE /\ Pwm1_State s = POSIT /\
  Command (positioning_switch false s) = FALSE /\
  moving (positioning_switch false s) = true.
Proof.
  intros s.
  assert (C : Command s = TRUE) by (vm_compute; reflexivity).
  assert (P : Pwm1_State s = POSIT) by (vm_compute; reflexivity).
  destruct (trigger_consumed_by_positioning_switch Fine.command_raised)
    as (_ & _ & _ & H).
  destruct (H false C P) as [H1 H2]. split_and; assumption.
Defined.

(** X4.  In every execution from [Init], the LED (P1.0) is on exactly
    while the confirmation machine is in [WAITDETEND], that is between
    the validation of a detection and the emission of the trigger. *)
Theorem led_marks_validated_detection (l : list event) :
  led (run Init l) = true <-> RfDetConfirmSt (run Init l) = WAITDETEND.
Proof.
  pose proof (run_confirm_inv l Init Init_confirm_inv) as H.
  unfold confirm_inv in H. tauto.
Qed.

(** X5.  In every execution from [Init], the interrupt of the input line
    P1.6 is enabled exactly while the qualifier is in [IDLE], and the
    test pin P1.5 is low between any two events. *)
Theorem edge_interrupt_enabled_iff_idle (l : list event) :
  (edge_enabled (run Init l) = true <-> RfDetState (run Init l) = IDLE) /\
  test_pin (run Init l) = false.
Proof.
  pose proof (run_detect_inv l Init Init_detect_inv) as H.
  unfold detect_inv in H. tauto.
Qed.

(** X6.  In every execution from [Init], the selectors of the three
    switches hold one of their named states: the [default:] arms of the
    confirmation switch, of the positioning switch and of the detection
    switch are never taken. *)
Theorem switch_selectors_in_range (l : list event) :
  let s := run Init l in
  IDLE <= RfDetConfirmSt s <= IGNORE /\
  POSIT <= Pwm1_State s <= WAITINGDOWN /\
  IDLE <= RfDetState s <= DETEND.
Proof.
  cbv zeta.
  pose proof (run_confirm_inv l Init Init_confirm_inv) as (A & _).
  pose proof (run_rest_inv l Init Init_rest_inv) as (B & _).
  pose proof (run_detect_inv l Init Init_detect_inv) as (C & _).
  rf_consts. lia.
Qed.

(** X7.  In every execution from [Init], the countdowns never exceed
    their reload values: [RfPrescaler <= PRESCALER],
    [RfLongDelay <= IGNORE_RF], [Pwm1_delay <= SPEED], the run-length
    counter of the qualifier never exceeds [COUNTHIGH], and
    [RfShortDelay] is always zero (its countdown in [Timer_A] never
    runs). *)
Theorem countdowns_bounded (l : list event) :
  let s := run Init l in
  0 <= RfPrescaler s <= PRESCALER /\
  0 <= RfLongDelay s <= IGNORE_RF /\
  0 <= Pwm1_delay s <= SPEED /\
  0 <= RfDetCounter s <= COUNTHIGH /\
  RfShortDelay s = 0.
Proof.
  cbv zeta.
  pose proof (run_confirm_inv l Init Init_confirm_inv)
    as (_ & _ & _ & _ & A & B & C & D).
  pose proof (run_detect_inv l Init Init_detect_inv) as (_ & _ & _ & _ & E).
  tauto.
Qed.

(** ** The speed of the arm *)

Lemma positioning_switch_lag (b : bool) (s : state) :
  let s' := positioning_switch b s in
  SPEED * (if Pwm1_dc s' =? Pwm1_dc s then 0 else 1) + lag s <= lag s'.
Proof.
  destruct s; unfold lag, positioning_switch, posit_case; simpl.
  rf_consts.
  repeat (inner_case_if; simpl in * ); bool_hyps; subst; lia.
Qed.

Lemma confirm_switch_lag (s : state) : lag (confirm_switch s) = lag s.
Proof.
  pose proof (confirm_switch_frame s) as F. simpl in F.
  destruct F as (_ & _ & _ & A & B & _). unfold lag. now rewrite A, B.
Qed.

Lemma step_lag (s : state) (e : event) :
  wf s ->
  SPEED * (if Pwm1_dc (step s e) =? Pwm1_dc s then 0 else 1) + lag s
  <= (match e with EvTick _ => 1 | _ => 0 end) + lag (step s e).
Proof.
  intros Hwf. destruct e as [b|p|f p]; cbn [step].
  - unfold main_body.
    pose proof (positioning_switch_lag b (confirm_switch s)) as H.
    cbv zeta in H. rewrite confirm_switch_lag in H.
    pose proof (confirm_switch_frame s) as F. simpl in F.
    destruct F as (_ & A & _). rewrite A in H. lia.
  - destruct (Timer_A_frame p s) as (_ & A & B & _).
    pose proof (Timer_A_delay p s) as D.
    rewrite A, Z.eqb_refl. unfold lag. rewrite B, D.
    assert (U : is_u16 (Pwm1_delay s)) by (unfold wf in Hwf; tauto).
    unfold is_u16 in U. unfold SPEED.
    destruct (Z.eqb_spec (Pwm1_delay s) 0).
    + case_if; lia.
    + rewrite u16_small by lia. case_if; lia.
  - pose proof (Port1_isr_frame f p s) as F. simpl in F.
    destruct F as (_ & A & _ & B & C & _).
    unfold lag. rewrite A, B, C, Z.eqb_refl. lia.
Qed.

(** X8.  The speed limit of the arm.  In every execution from a state
    whose variables are in their C ranges, whatever the button, the
    input line and the schedule do, the duty cycle changes at most once
    per [SPEED] timer ticks: [SPEED] times the number of events that
    change [Pwm1_dc] is at most the number of ticks plus [SPEED], less
    the part of the current delay that is still to run. *)
Theorem duty_cycle_slew_rate (s : state) (l : list event) :
  wf s ->
  SPEED * dc_changes s l <= ticks l + SPEED - lag s.
Proof.
  revert s. induction l as [|e l IH]; intros s Hwf.
  - cbn [dc_changes ticks]. unfold lag, SPEED. case_if; lia.
  - cbn [dc_changes]. pose proof (step_lag s e Hwf) as H.
    pose proof (IH (step s e) (wf_step s e Hwf)) as H'.
    assert (T : ticks (e :: l)
                = (match e with EvTick _ => 1 | _ => 0 end) + ticks l).
    { destruct e; cbn [ticks]; lia. }
    rewrite T. unfold SPEED in *. lia.
Qed.

Lemma duty_cycle_slew_rate_witness :
  let l := [EvMain true; EvMain true; EvTick LOW; EvMain false] in
  SPEED * dc_changes Init l <= ticks l + SPEED - lag Init.
Proof.
  intros l. apply (duty_cycle_slew_rate Init l).
  unfold wf, Init; simpl; rf_consts; lia.
Defined.

(** ** The qualifier *)

Lemma step_frozen (s : state) (e : event) :
  no_port [e] = true -> in_motion s = true ->
  qualifier (step s e) = qualifier s /\ P1IE (step s e) = P1IE s.
Proof.
  intros Hn Hm. unfold qualifier. destruct e as [b|p|f p]; cbn [step].
  - unfold main_body.
    pose proof (confirm_switch_frame s) as F1; simpl in F1.
    pose proof (positioning_switch_frame b (confirm_switch s)) as F2.
    simpl in F2.
    destruct F1 as (_ & _ & _ & _ & _ & A1 & A2 & A3 & _ & A4).
    destruct F2 as (_ & B1 & B2 & B3 & _ & _ & _ & _ & _ & B4).
    now rewrite B1, B2, B3, B4, A1, A2, A3, A4.
  - destruct (Timer_A_qualifier p s) as (-> & -> & -> & _).
    unfold in_motion, at_rest in Hm. apply negb_true_iff in Hm.
    rewrite Hm. split; [reflexivity|]. unfold Timer_A. rewrite Hm.
    pose proof (delay_management_frame s) as F2; simpl in F2.
    pose proof (pwm_management_frame (delay_management s)) as F3.
    simpl in F3.
    destruct F2 as (_ & _ & _ & _ & _ & _ & _ & _ & _ & _ & A).
    destruct F3 as (_ & _ & _ & _ & _ & _ & _ & _ & _ & _ & _ & _ & B).
    now rewrite B, A.
  - discriminate Hn.
Qed.

(** X9.  While the arm moves the qualifier is frozen: in every execution
    in which the positioning machine is away from [POSIT] before each
    event and the port interrupt does not fire, the state of the
    qualifier, its run-length counter, [RfDetected] and the interrupt
    enable register are left as they were; the time the input line
    spends high or low during a motion is not measured. *)
Theorem qualifier_frozen_while_moving (s : state) (l : list event) :
  no_port l = true -> before_each in_motion s l = true ->
  qualifier (run s l) = qualifier s /\ P1IE (run s l) = P1IE s.
Proof.
  revert s. induction l as [|e l IH]; intros s Hn Hm.
  - split; reflexivity.
  - apply before_each_cons in Hm. destruct Hm as [Hm1 Hm2].
    assert (Hn1 : no_port [e] = true /\ no_port l = true).
    { destruct e; cbn [no_port] in *; try discriminate; auto. }
    destruct Hn1 as [Hn1 Hn2].
    rewrite run_cons.
    destruct (IH (step s e) Hn2 Hm2) as [-> ->].
    now apply step_frozen.
Qed.

Lemma qualifier_frozen_while_moving_witness :
  let s := step Init (EvMain true) in
  let l := [EvTick HIGH; EvMain false; EvTick LOW] in
  qualifier (run s l) = qualifier s /\ P1IE (run s l) = P1IE s.
Proof.
  intros s l. apply (qualifier_frozen_while_moving s l); reflexivity.
Defined.

Lemma settled_tick (p : Z) (s : state) :
  RfDetState s = DETEND \/ RfDetState s = IDLE ->
  (RfDetState (Timer_A p s) = DETEND \/ RfDetState (Timer_A p s) = IDLE) /\
  RfDetected (Timer_A p s) = RfDetected s.
Proof.
  intros H.
  destruct (Timer_A_qualifier p s) as (-> & _ & -> & _).
  case_if; [|tauto].
  destruct s; simpl in *. unfold detect_switch; simpl.
  unfold DETEND, IDLE, DETHIGH, DETLOW in *.
  destruct H as [-> | ->]; simpl; [|tauto].
  case_if; simpl; tauto.
Qed.

Lemma settled_run (inputs : list Z) (s : state) :
  RfDetState s = DETEND \/ RfDetState s = IDLE ->
  RfDetected (run s (tick_events inputs)) = RfDetected s.
Proof.
  revert s. induction inputs as [|p r IH]; intros s H; [reflexivity|].
  rewrite run_ticks_cons.
  destruct (settled_tick p s H) as [H1 H2].
  now rewrite IH.
Qed.

Ltac tick_eval p s Hp :=
  let E1 := fresh in let E2 := fresh in let E3 := fresh in
  let E4 := fresh in
  destruct (Timer_A_qualifier p s) as (E1 & E2 & E3 & E4);
  rewrite ?E1, ?E2, ?E3, ?E4; clear E1 E2 E3 E4;
  rewrite Hp; simpl; destruct s; simpl in *; subst;
  unfold detect_switch, TEST_ON, TEST_OFF; simpl.

(** The low reading that ends the high interval. *)
Lemma dethigh_low_tick (s : state) :
  Pwm1_State s = POSIT -> RfDetState s = DETHIGH ->
  let s' := Timer_A LOW s in
  Pwm1_State s' = POSIT /\
  if COUNTHIGH - COUNTOLER <=? RfDetCounter s
  then RfDetState s' = DETLOW /\ RfDetCounter s' = 0 /\
       RfDetected s' = RfDetected s
  else RfDetState s' = DETEND /\ RfDetected s' = FALSE.
Proof.
  intros Hp Hd s'. subst s'. tick_eval LOW s Hp.
  rewrite Z.geb_leb. case_if; simpl; tauto.
Qed.

(** A high reading at the limit of the high interval. *)
Lemma dethigh_high_limit (s : state) :
  Pwm1_State s = POSIT -> RfDetState s = DETHIGH ->
  RfDetCounter s = COUNTHIGH ->
  let s' := Timer_A HIGH s in
  Pwm1_State s' = POSIT /\ RfDetState s' = DETLOW /\ RfDetCounter s' = 0 /\
  RfDetected s' = RfDetected s.
Proof.
  intros Hp Hd Hc s'. subst s'. tick_eval HIGH s Hp. tauto.
Qed.

(** The high reading that ends the low interval. *)
Lemma detlow_high_tick (s : state) :
  Pwm1_State s = POSIT -> RfDetState s = DETLOW ->
  let s' := Timer_A HIGH s in
  RfDetState s' = DETEND /\
  RfDetected s' =
    if COUNTLOW - COUNTOLER <=? RfDetCounter s then TRUE else FALSE.
Proof.
  intros Hp Hd s'. subst s'. tick_eval HIGH s Hp.
  rewrite Z.geb_leb. case_if; simpl; tauto.
Qed.

(** A low reading at the limit of the low interval. *)
Lemma detlow_low_limit (s : state) :
  Pwm1_State s = POSIT -> RfDetState s = DETLOW ->
  RfDetCounter s = COUNTLOW ->
  let s' := Timer_A LOW s in
  RfDetState s' = DETEND /\ RfDetected s' = TRUE.
Proof.
  intros Hp Hd Hc s'. subst s'. tick_eval LOW s Hp. tauto.
Qed.

(** The low interval: from [DETLOW] with the counter at zero, [m] low
    readings and then a high one. *)
Lemma low_phase (m : nat) (s : state) :
  Pwm1_State s = POSIT -> RfDetState s = DETLOW -> RfDetCounter s = 0 ->
  RfDetected (run s (tick_events (repeat LOW m ++ [HIGH]))) =
  if COUNTLOW - COUNTOLER <=? Z.of_nat m then TRUE else FALSE.
Proof.
  intros Hp Hd Hc.
  destruct (Z.le_gt_cases (Z.of_nat m) COUNTLOW) as [Hm | Hm].
  - rewrite run_ticks_snoc.
    destruct (low_run m s Hp Hd) as (A & B & C & _); [lia .. |].
    revert A B C. generalize (run s (tick_events (repeat LOW m))).
    intros t A B C.
    destruct (detlow_high_tick t A B) as (_ & ->).
    now rewrite C, Hc.
  - assert (E : m = (Z.to_nat COUNTLOW + S (m - S (Z.to_nat COUNTLOW)))%nat)
      by (unfold COUNTLOW in *; lia).
    rewrite E at 1. rewrite repeat_app, <- app_assoc, run_ticks_app.
    destruct (low_run (Z.to_nat COUNTLOW) s Hp Hd) as (A & B & C & _);
      [unfold COUNTLOW; lia .. |].
    revert A B C.
    generalize (run s (tick_events (repeat LOW (Z.to_nat COUNTLOW)))).
    intros t A B C.
    rewrite repeat_succ, <- app_comm_cons, run_ticks_cons.
    destruct (detlow_low_limit t A B) as (D1 & D2).
    { rewrite C, Hc. unfold COUNTLOW. lia. }
    rewrite settled_run by tauto. rewrite D2.
    destruct (Z.leb_spec (COUNTLOW - COUNTOLER) (Z.of_nat m));
      [reflexivity | unfold COUNTLOW, COUNTOLER in *; lia].
Qed.

(** The whole pulse, the ticks following each other. *)
Lemma window_ticks (h n : nat) (s : state) :
  Pwm1_State s = POSIT -> RfDetState s = DETHIGH -> RfDetCounter s = 0 ->
  (1 <= n)%nat ->
  RfDetected
    (run s (tick_events (repeat HIGH h ++ repeat LOW n ++ [HIGH]))) =
  if accepted (Z.of_nat h) (Z.of_nat n) then TRUE else FALSE.
Proof.
  intros Hp Hd Hc Hn. unfold accepted.
  destruct n as [|n]; [lia|].
  replace (Z.of_nat (S n) - 1) with (Z.of_nat n) by lia.
  destruct (Z.le_gt_cases (Z.of_nat h) COUNTHIGH) as [Hh | Hh].
  - (* the first low reading ends the high interval *)
    rewrite run_ticks_app.
    destruct (high_run h s Hp Hd) as (A & B & C & _); [lia .. |].
    revert A B C. generalize (run s (tick_events (repeat HIGH h))).
    intros t A B C.
    rewrite repeat_succ, <- app_comm_cons, run_ticks_cons.
    pose proof (dethigh_low_tick t A B) as D. cbv zeta in D.
    rewrite C, Hc, Z.add_0_l in D. destruct D as (D0 & D).
    destruct (Z.leb_spec (Z.of_nat h) COUNTHIGH) as [_ | ?]; [|lia].
    replace (Z.of_nat h <=? COUNTHIGH + 1) with true
      by (symmetry; apply Z.leb_le; lia).
    destruct (COUNTHIGH - COUNTOLER <=? Z.of_nat h).
    + destruct D as (D1 & D2 & _). cbn [andb].
      now apply low_phase.
    + destruct D as (D1 & D2). cbn [andb].
      rewrite settled_run by tauto. exact D2.
  - (* the high interval runs into the limit *)
    assert (E : h = (Z.to_nat COUNTHIGH + S (h - S (Z.to_nat COUNTHIGH)))%nat)
      by (unfold COUNTHIGH in *; lia).
    rewrite E at 1. rewrite repeat_app, <- app_assoc, run_ticks_app.
    destruct (high_run (Z.to_nat COUNTHIGH) s Hp Hd) as (A & B & C & _);
      [unfold COUNTHIGH; lia .. |].
    revert A B C.
    generalize (run s (tick_events (repeat HIGH (Z.to_nat COUNTHIGH)))).
    intros t A B C.
    rewrite repeat_succ, <- app_comm_cons, run_ticks_cons.
    destruct (dethigh_high_limit t A B) as (D0 & D1 & D2 & _).
    { rewrite C, Hc. unfold COUNTHIGH. lia. }
    destruct (Z.leb_spec (Z.of_nat h) COUNTHIGH) as [? | _]; [lia|].
    replace (COUNTHIGH - COUNTOLER <=? Z.of_nat h) with true
      by (symmetry; apply Z.leb_le; unfold COUNTHIGH, COUNTOLER in *; lia).
    cbn [andb].
    destruct (Z.leb_spec (Z.of_nat h) (COUNTHIGH + 1)) as [Hh' | Hh'].
    + (* exactly one reading beyond the limit *)
      replace (h - S (Z.to_nat COUNTHIGH))%nat with 0%nat
        by (unfold COUNTHIGH in *; lia).
      cbn [repeat app].
      now apply (low_phase (S n)).
    + (* a second high reading in [DETLOW] is rejected *)
      cbn [andb].
      destruct (h - S (Z.to_nat COUNTHIGH))%nat as [|k] eqn:K;
        [unfold COUNTHIGH in *; lia|].
      rewrite repeat_succ, <- app_comm_cons, run_ticks_cons.
      destruct (detlow_high_tick (Timer_A HIGH t) D0 D1) as (F1 & F2).
      rewrite settled_run by tauto. rewrite F2, D2.
      reflexivity.
Qed.

(** X10.  The tolerance window of the qualifier.  The line is bit 6 of
    [P1IN], whatever the other bits.  From [DETHIGH] with
    [RfDetCounter = 0], in every execution in which the positioning
    machine stays at rest and the port interrupt does not fire again,
    if the ticks read the line high [h] times, then low [n >= 1] times,
    then high again, [RfDetected] ends [TRUE] exactly when
    [COUNTHIGH - COUNTOLER <= h <= COUNTHIGH + 1] and the low interval,
    less the tick that ended a high interval of at most [COUNTHIGH]
    ticks, lasted at least [COUNTLOW - COUNTOLER] ticks; it ends [FALSE]
    otherwise.  A low interval has no upper limit. *)
Theorem qualifier_tolerance_window (s : state) (l : list event) (h n : nat) :
  Pwm1_State s = POSIT -> RfDetState s = DETHIGH -> RfDetCounter s = 0 ->
  no_port l = true -> before_each at_rest s l = true ->
  (1 <= n)%nat ->
  levels l = repeat true h ++ repeat false n ++ [true] ->
  RfDetected (run s l) =
  if accepted (Z.of_nat h) (Z.of_nat n) then TRUE else FALSE.
Proof.
  intros Hp Hd Hc Hn Hr Hn1 E.
  pose proof (qualifier_of_levels l s _ Hn Hr Hp E) as Q.
  rewrite !map_app, !map_repeat in Q. cbn [reading map] in Q.
  apply qualifier_fields in Q. destruct Q as (_ & _ & ->).
  apply window_ticks; assumption.
Qed.

Lemma qualifier_tolerance_window_witness :
  let s := step Init (EvPort1 BIT6 BIT6) in
  let l := EvMain false :: tick_events (repeat 96 3 ++ repeat 32 2 ++ [65]) in
  RfDetected (run s l) = FALSE.
Proof.
  intros s l.
  apply (qualifier_tolerance_window s l 3 2); try reflexivity. lia.
Defined.

(** ** pwmtest2.c *)

Module Pwmtest2Extra.
Import Pwmtest2 Pwmtest2Spec Pwmtest2More Pwmtest2Facts.

Lemma p2_Timer_A_frame (s : state) :
  Pwm1_reach (Timer_A s) = Pwm1_reach s /\ Pwm1_dc (Timer_A s) = Pwm1_dc s /\
  Pwm1_State (Timer_A s) = Pwm1_State s /\ led (Timer_A s) = led s.
Proof.
  destruct s; unfold Timer_A, PWM1_ON, PWM1_OFF, led; simpl.
  repeat case_if; simpl; bits; split_and; reflexivity.
Qed.

Lemma p2_run_cons (s : state) (e : event) (l : list event) :
  run s (e :: l) = run (step s e) l.
Proof. reflexivity. Qed.

Lemma p2_run_app (s : state) (l1 l2 : list event) :
  run s (l1 ++ l2) = run (run s l1) l2.
Proof. unfold run. apply fold_left_app. Qed.

Lemma main_body_increase (b2 : bool) (s : state) :
  0 <= Pwm1_dc s <= PWM1_MAXSTEP -> Pwm1_State s = INCREASE ->
  Pwm1_State (main_body false b2 s) = INCREASE /\
  Pwm1_dc (main_body false b2 s)
  = Z.min (Pwm1_dc s + (if b2 then 1 else 0)) PWM1_MAXSTEP.
Proof.
  destruct s; simpl. intros H ->.
  unfold main_body, s2_switch, LED_ON, LED_OFF; simpl. p2_consts.
  destruct b2; simpl; repeat (inner_case_if; simpl in * ); bool_hyps;
    u16_simpl; split; try reflexivity; lia.
Qed.

Lemma main_body_decrease (b2 : bool) (s : state) :
  0 <= Pwm1_dc s <= PWM1_MAXSTEP -> Pwm1_State s = DECREASE ->
  Pwm1_State (main_body false b2 s) = DECREASE /\
  Pwm1_dc (main_body false b2 s)
  = Z.max (Pwm1_dc s - (if b2 then 1 else 0)) 0.
Proof.
  destruct s; simpl. intros H ->.
  unfold main_body, s2_switch, LED_ON, LED_OFF; simpl. p2_consts.
  destruct b2; simpl; repeat (inner_case_if; simpl in * ); bool_hyps;
    u16_simpl; split; try reflexivity; lia.
Qed.

Lemma main_body_mode (b1 : bool) (s : state) :
  is_mode (Pwm1_State s) = true ->
  is_mode (Pwm1_State (main_body b1 false s)) = true /\
  mode_index (Pwm1_State (main_body b1 false s))
  = (mode_index (Pwm1_State s) + (if b1 then 1 else 0)) mod 5 /\
  Pwm1_dc (main_body b1 false s) = Pwm1_dc s.
Proof.
  destruct s; unfold is_mode, mode_index; simpl. intros H.
  unfold main_body, s1_switch, LED_ON, LED_OFF; simpl. revert H. p2_consts.
  intros H. bool_hyps; subst; destruct b1; simpl;
    repeat (inner_case_if; simpl in * ); auto.
Qed.

Lemma s1_ignored (b2 : bool) (s : state) :
  moving s = true -> main_body true b2 s = main_body false b2 s.
Proof.
  destruct s; unfold moving; simpl. intros H.
  unfold main_body, s1_switch; simpl. revert H. p2_consts.
  intros H. bool_hyps; subst; reflexivity.
Qed.

Lemma main_body_led (b1 b2 : bool) (s : state) :
  led_ok (main_body b1 b2 s).
Proof.
  unfold main_body.
  set (s1 := if b1 then s1_switch s else s). clearbody s1.
  match goal with
  | |- context [if ?c then s2_switch s1 else s1] =>
      set (s2 := if c then s2_switch s1 else s1)
  end.
  clearbody s2. destruct s2; unfold led_ok, led, LED_ON, LED_OFF; simpl.
  case_if; simpl; bits; bool_hyps; split; intros;
    try reflexivity; try discriminate; lia.
Qed.

Lemma run_led (l : list event) (s : state) :
  led_ok s -> led_ok (run s l).
Proof.
  revert s. induction l as [|e l IH]; intros s H; [assumption|].
  rewrite p2_run_cons. apply IH. destruct e as [b1 b2|]; cbn [step].
  - apply main_body_led.
  - unfold led_ok in *.
    destruct (p2_Timer_A_frame s) as (_ & -> & _ & ->). exact H.
Qed.

Lemma p2_Timer_A_pwm (s : state) :
  0 <= Pwm1_cn s <= PWM1_MAXSTEP ->
  Pwm1_dc (Timer_A s) = Pwm1_dc s /\
  (Pwm1_cn s < PWM1_MAXSTEP ->
   Pwm1_cn (Timer_A s) = Pwm1_cn s + 1 /\
   (pwm_out (Timer_A s) = true <-> Pwm1_cn (Timer_A s) <= Pwm1_dc s)) /\
  (Pwm1_cn s = PWM1_MAXSTEP ->
   Pwm1_cn (Timer_A s) = 0 /\ pwm_out (Timer_A s) = false).
Proof.
  destruct s; unfold Timer_A, PWM1_ON, PWM1_OFF, pwm_out; simpl.
  p2_consts. intros H.
  repeat (inner_case_if; simpl in * ); bits; bool_hyps; u16_simpl;
    split_and; intros; split_and; try reflexivity; try lia;
    split; intros; try reflexivity; try discriminate; lia.
Qed.

Lemma p2_high_ticks_rising (n : nat) (s : state) :
  0 <= Pwm1_cn s -> Pwm1_cn s + Z.of_nat n <= PWM1_MAXSTEP ->
  high_ticks s n
  = Z.max 0 (Z.min (Pwm1_dc s) (Pwm1_cn s + Z.of_nat n) - Pwm1_cn s) /\
  Pwm1_cn (run s (repeat EvTick n)) = Pwm1_cn s + Z.of_nat n /\
  Pwm1_dc (run s (repeat EvTick n)) = Pwm1_dc s.
Proof.
  revert s. induction n as [|n IH]; intros s H0 Hn.
  - cbn. split_and; try reflexivity; lia.
  - rewrite Nat2Z.inj_succ in *.
    destruct (p2_Timer_A_pwm s) as (Hd & Hlt & _); [lia|].
    destruct Hlt as [Hc Hout]; [lia|].
    destruct (IH (Timer_A s)) as (A & B & C); [lia | lia |].
    cbn [high_ticks repeat]. rewrite p2_run_cons. cbn [step].
    rewrite A, B, C, Hc, Hd. split_and; try lia.
    destruct (pwm_out (Timer_A s)) eqn:O.
    + assert (Pwm1_cn (Timer_A s) <= Pwm1_dc s) by now apply Hout.
      lia.
    + assert (~ Pwm1_cn (Timer_A s) <= Pwm1_dc s).
      { intros H. apply Hout in H. congruence. }
      lia.
Qed.

Lemma high_ticks_add (n m : nat) (s : state) :
  high_ticks s (n + m)
  = high_ticks s n + high_ticks (run s (repeat EvTick n)) m.
Proof.
  revert s. induction n as [|n IH]; intros s.
  - cbn. lia.
  - cbn [Nat.add high_ticks repeat]. rewrite p2_run_cons.
    cbn [step]. rewrite IH. lia.
Qed.

End Pwmtest2Extra.


(** X11.  Manual adjustment in pwmtest2.c.  In the mode [INCREASE], in
    every execution in which S1 stays released, the mode is kept and the
    duty cycle is the initial one plus the number of passes that found
    S2 pressed, saturating at [PWM1_MAXSTEP]; in the mode [DECREASE] it
    is the initial one less that number, saturating at 0.  The timer
    ticks in between change nothing. *)
Theorem manual_adjust_saturates (s : Pwmtest2.state)
  (l : list Pwmtest2.event) :
  0 <= Pwmtest2.Pwm1_dc s <= Pwmtest2.PWM1_MAXSTEP ->
  Pwmtest2More.s1_released l = true ->
  (Pwmtest2.Pwm1_State s = Pwmtest2.INCREASE ->
   Pwmtest2.Pwm1_State (Pwmtest2.run s l) = Pwmtest2.INCREASE /\
   Pwmtest2.Pwm1_dc (Pwmtest2.run s l)
   = Z.min (Pwmtest2.Pwm1_dc s + Pwmtest2More.s2_presses l)
           Pwmtest2.PWM1_MAXSTEP) /\
  (Pwmtest2.Pwm1_State s = Pwmtest2.DECREASE ->
   Pwmtest2.Pwm1_State (Pwmtest2.run s l) = Pwmtest2.DECREASE /\
   Pwmtest2.Pwm1_dc (Pwmtest2.run s l)
   = Z.max (Pwmtest2.Pwm1_dc s - Pwmtest2More.s2_presses l) 0).
Proof.
  revert s. induction l as [|e l IH]; intros s Hdc Hr.
  - cbn. split; intros H; (split; [exact H | lia]).
  - rewrite Pwmtest2Extra.p2_run_cons.
    destruct e as [b1 b2|]; cbn [Pwmtest2More.s1_released] in Hr;
      cbn [Pwmtest2More.s2_presses Pwmtest2.step].
    + apply andb_true_iff in Hr. destruct Hr as [Hb Hr].
      apply negb_true_iff in Hb. subst b1.
      assert (P : 0 <= (if b2 then 1 else 0) <= 1) by (destruct b2; lia).
      split; intros Hs.
      * destruct (Pwmtest2Extra.main_body_increase b2 s Hdc Hs) as [A B].
        destruct (IH (Pwmtest2.main_body false b2 s)) as [IH1 _];
          [rewrite B; unfold Pwmtest2.PWM1_MAXSTEP in *; lia | exact Hr |].
        destruct (IH1 A) as [C D]. split; [exact C|].
        rewrite D, B. unfold Pwmtest2.PWM1_MAXSTEP in *.
        assert (0 <= Pwmtest2More.s2_presses l).
        { clear. induction l as [|[b1 b2'|] l IHl];
            cbn [Pwmtest2More.s2_presses]; try lia.
          destruct b2'; lia. }
        lia.
      * destruct (Pwmtest2Extra.main_body_decrease b2 s Hdc Hs) as [A B].
        destruct (IH (Pwmtest2.main_body false b2 s)) as [_ IH2];
          [rewrite B; unfold Pwmtest2.PWM1_MAXSTEP in *; lia | exact Hr |].
        destruct (IH2 A) as [C D]. split; [exact C|].
        rewrite D, B. unfold Pwmtest2.PWM1_MAXSTEP in *.
        assert (0 <= Pwmtest2More.s2_presses l).
        { clear. induction l as [|[b1 b2'|] l IHl];
            cbn [Pwmtest2More.s2_presses]; try lia.
          destruct b2'; lia. }
        lia.
    + destruct (Pwmtest2Extra.p2_Timer_A_frame s) as (_ & A & B & _).
      destruct (IH (Pwmtest2.Timer_A s)) as [IH1 IH2];
        [rewrite A; exact Hdc | exact Hr |].
      rewrite A, B in *. split; assumption.
Qed.


(** X12.  Mode selection in pwmtest2.c.  From one of the five modes, in
    every execution in which S2 stays released, the machine stays in a
    mode, each pass that finds S1 pressed selects the next mode in the
    cycle RESET, POSIT, POSITOLD, INCREASE, DECREASE (so five presses
    bring the mode back), and the duty cycle is not touched.  While the
    arm moves, S1 is ignored. *)
Theorem mode_selection_cycle (s : Pwmtest2.state) (l : list Pwmtest2.event) :
  (Pwmtest2More.is_mode (Pwmtest2.Pwm1_State s) = true ->
   Pwmtest2More.s2_released l = true ->
   Pwmtest2More.is_mode (Pwmtest2.Pwm1_State (Pwmtest2.run s l)) = true /\
   Pwmtest2More.mode_index (Pwmtest2.Pwm1_State (Pwmtest2.run s l))
   = (Pwmtest2More.mode_index (Pwmtest2.Pwm1_State s)
      + Pwmtest2More.s1_presses l) mod 5 /\
   Pwmtest2.Pwm1_dc (Pwmtest2.run s l) = Pwmtest2.Pwm1_dc s) /\
  (forall b2 : bool,
     Pwmtest2More.moving s = true ->
     Pwmtest2.main_body true b2 s = Pwmtest2.main_body false b2 s).
Proof.
  split; [|intros b2; apply Pwmtest2Extra.s1_ignored].
  revert s. induction l as [|e l IH]; intros s Hm Hr.
  - cbn. split_and; try assumption; try reflexivity.
    rewrite Z.add_0_r. symmetry. apply Z.mod_small.
    unfold Pwmtest2More.mode_index. repeat case_if; lia.
  - rewrite Pwmtest2Extra.p2_run_cons.
    destruct e as [b1 b2|]; cbn [Pwmtest2More.s2_released] in Hr;
      cbn [Pwmtest2More.s1_presses Pwmtest2.step].
    + apply andb_true_iff in Hr. destruct Hr as [Hb Hr].
      apply negb_true_iff in Hb. subst b2.
      destruct (Pwmtest2Extra.main_body_mode b1 s Hm) as (A & B & C).
      destruct (IH (Pwmtest2.main_body b1 false s) A Hr) as (D & E & F).
      split_and; [exact D | | congruence].
      rewrite E, B, Z.add_mod_idemp_l by lia. f_equal. lia.
    + destruct (Pwmtest2Extra.p2_Timer_A_frame s) as (_ & A & B & _).
      destruct (IH (Pwmtest2.Timer_A s)) as (D & E & F);
        [rewrite B; exact Hm | exact Hr |].
      rewrite A, B in *. split_and; assumption.
Qed.

(** X13.  The debug LED of pwmtest2.c.  Once the main loop has made a
    pass, whatever happened before and whatever follows, the LED (P1.0)
    is on exactly when the duty cycle is within the range of the
    servomotor, from 36 to 220 steps. *)
Theorem led_shows_servo_range (s : Pwmtest2.state)
  (l1 l2 : list Pwmtest2.event) (b1 b2 : bool) :
  let s' := Pwmtest2.run s (l1 ++ Pwmtest2.EvMain b1 b2 :: l2) in
  Pwmtest2More.led s' = true <-> 36 <= Pwmtest2.Pwm1_dc s' <= 220.
Proof.
  cbv zeta. rewrite Pwmtest2Extra.p2_run_app, Pwmtest2Extra.p2_run_cons.
  apply Pwmtest2Extra.run_led. cbn [Pwmtest2.step].
  apply Pwmtest2Extra.main_body_led.
Qed.


(** X14.  The PWM period of pwmtest2.c.  From a state with the counter
    at 0 and the duty cycle between 0 and [PWM1_MAXSTEP], the next
    [PWM1_MAXSTEP + 1] ticks leave the PWM pin high on exactly
    [Pwm1_dc] of them and bring the counter back to 0: the period is
    [PWM1_MAXSTEP + 1] ticks and the pulse width is the duty cycle. *)
Theorem pwmtest2_pulse_width (s : Pwmtest2.state) :
  Pwmtest2.Pwm1_cn s = 0 ->
  0 <= Pwmtest2.Pwm1_dc s <= Pwmtest2.PWM1_MAXSTEP ->
  let n := Z.to_nat (Pwmtest2.PWM1_MAXSTEP + 1) in
  Pwmtest2More.high_ticks s n = Pwmtest2.Pwm1_dc s /\
  Pwmtest2.Pwm1_cn (Pwmtest2.run s (repeat Pwmtest2.EvTick n)) = 0 /\
  Pwmtest2.Pwm1_dc (Pwmtest2.run s (repeat Pwmtest2.EvTick n))
  = Pwmtest2.Pwm1_dc s.
Proof.
  intros Hc Hd n.
  assert (E : n = (Z.to_nat Pwmtest2.PWM1_MAXSTEP + 1)%nat)
    by (unfold n, Pwmtest2.PWM1_MAXSTEP; lia).
  rewrite E. clear E n.
  destruct (Pwmtest2Extra.p2_high_ticks_rising
              (Z.to_nat Pwmtest2.PWM1_MAXSTEP) s) as (A & B & C);
    [lia | unfold Pwmtest2.PWM1_MAXSTEP; lia |].
  rewrite Pwmtest2Extra.high_ticks_add, repeat_app, Pwmtest2Extra.p2_run_app, A.
  revert B C.
  generalize (Pwmtest2.run s
                (repeat Pwmtest2.EvTick (Z.to_nat Pwmtest2.PWM1_MAXSTEP))).
  intros t B C. cbn [repeat Pwmtest2More.high_ticks].
  rewrite Pwmtest2Extra.p2_run_cons. cbn [Pwmtest2.step Pwmtest2.run fold_left].
  destruct (Pwmtest2Extra.p2_Timer_A_pwm t) as (D & _ & F).
  { rewrite B, Hc. unfold Pwmtest2.PWM1_MAXSTEP. lia. }
  destruct F as [F1 F2].
  { rewrite B, Hc. unfold Pwmtest2.PWM1_MAXSTEP. lia. }
  rewrite F2, F1, D, C. unfold Pwmtest2.PWM1_MAXSTEP in *.
  split_and; try reflexivity. lia.
Qed.

Lemma manual_adjust_saturates_witness :
  let s := Pwmtest2.run Pwmtest2.Init
             [Pwmtest2.EvMain true false; Pwmtest2.EvMain true false;
              Pwmtest2.EvMain true false] in
  let l := [Pwmtest2.EvMain false true; Pwmtest2.EvTick;
            Pwmtest2.EvMain false true] in
  Pwmtest2.Pwm1_dc (Pwmtest2.run s l) = 38.
Proof.
  intros s l. destruct (manual_adjust_saturates s l) as [H _].
  - simpl. unfold Pwmtest2.PWM1_MAXSTEP, Pwmtest2.PWMINITIALVALUE. lia.
  - reflexivity.
  - destruct (H eq_refl) as [_ ->]. reflexivity.
Defined.

Lemma mode_selection_cycle_witness :
  let l := repeat (Pwmtest2.EvMain true false) 5 in
  Pwmtest2More.mode_index (Pwmtest2.Pwm1_State (Pwmtest2.run Pwmtest2.Init l))
  = 0.
Proof.
  intros l. destruct (mode_selection_cycle Pwmtest2.Init l) as [H _].
  destruct (H eq_refl eq_refl) as (_ & -> & _). reflexivity.
Defined.

Lemma pwmtest2_pulse_width_witness :
  Pwmtest2More.high_ticks Pwmtest2.Init 2001 = Pwmtest2.PWMINITIALVALUE.
Proof.
  destruct (pwmtest2_pulse_width Pwmtest2.Init) as (H & _).
  - reflexivity.
  - simpl. unfold Pwmtest2.PWM1_MAXSTEP, Pwmtest2.PWMINITIALVALUE. lia.
  - exact H.
Defined.

(** ** pwmled.c *)

Lemma testButton_click (button : Z) (held : list Z) (r0 : Z)
  (rest : list Z) :
  (2 <= length held)%nat -> Forall (Buttons.pressed button) held ->
  Buttons.released button r0 ->
  Buttons.testButton button (held ++ r0 :: rest) = Some (TRUE, rest).
Proof.
  intros Hl F R.
  destruct held as [|r1 [|r2 held]]; cbn [length] in Hl; try lia.
  inversion F as [|? ? P1 F1]; subst. inversion F1 as [|? ? P2 F2]; subst.
  cbn [app Buttons.testButton].
  apply nonzero_true in P1. apply nonzero_true in P2. rewrite P1, P2.
  apply wait_release_some. split; [reflexivity|].
  exists held, r0. auto.
Qed.

Lemma testButton_idle (button q : Z) (rest : list Z) :
  Buttons.released button q ->
  Buttons.testButton button (q :: rest) = Some (FALSE, rest).
Proof.
  intros R. apply nonzero_false in R. cbn [Buttons.testButton].
  now rewrite R.
Qed.

Lemma testButton_glitch (button r1 r2 : Z) (rest : list Z) :
  Buttons.pressed button r1 -> Buttons.released button r2 ->
  Buttons.testButton button (r1 :: r2 :: rest) = Some (FALSE, rest).
Proof.
  intros P R. apply nonzero_true in P. apply nonzero_false in R.
  cbn [Buttons.testButton]. now rewrite P, R.
Qed.

Module PwmledFacts.
Import Pwmled.

Lemma s1_pressed_spec (s : state) :
  0 <= DutyCycle s <= PWMMAXSTEP ->
  let s' := s1_pressed s in
  DutyCycle s' = Z.min (DutyCycle s + 1) PWMMAXSTEP /\
  CCR1 s' = DutyCycle s' /\ CCR0 s' = CCR0 s /\ led s' = true.
Proof.
  destruct s; unfold s1_pressed, LED_ON, led, PWMMAXSTEP; simpl. intros H.
  case_if; simpl; bits; bool_hyps; u16_simpl; split_and;
    try reflexivity; lia.
Qed.

Lemma s2_pressed_spec (s : state) :
  0 <= DutyCycle s <= PWMMAXSTEP ->
  let s' := s2_pressed s in
  DutyCycle s' = Z.max (DutyCycle s - 1) 0 /\
  CCR1 s' = DutyCycle s' /\ CCR0 s' = CCR0 s /\ led s' = false.
Proof.
  destruct s; unfold s2_pressed, LED_OFF, led, PWMMAXSTEP; simpl. intros H.
  case_if; simpl; bits; bool_hyps; u16_simpl; split_and;
    try reflexivity; lia.
Qed.

Lemma led_main_body_inv (b1 b2 : bool) (s : state) :
  duty_inv s -> duty_inv (main_body b1 b2 s).
Proof.
  unfold duty_inv, main_body. intros (A & B & C).
  assert (H1 : let s1 := if b1 then s1_pressed s else s in
               0 <= DutyCycle s1 <= PWMMAXSTEP /\ CCR1 s1 = DutyCycle s1 /\
               CCR0 s1 = PWMMAXSTEP).
  { destruct b1; cbv zeta; [|tauto].
    destruct (s1_pressed_spec s A) as (D & E & F & _).
    split_and; [| | exact E | congruence];
      rewrite D; unfold PWMMAXSTEP in *; lia. }
  cbv zeta in H1. revert H1.
  generalize (if b1 then s1_pressed s else s). intros s1 (A1 & B1 & C1).
  destruct b2; [|tauto].
  destruct (s2_pressed_spec s1 A1) as (D & E & F & _).
  split_and; [| | exact E | congruence];
    rewrite D; unfold PWMMAXSTEP in *; lia.
Qed.

Lemma led_run_inv (l : list (bool * bool)) (s : state) :
  duty_inv s -> duty_inv (run s l).
Proof.
  revert s. induction l as [|e l IH]; intros s H; [assumption|].
  apply IH. now apply led_main_body_inv.
Qed.

End PwmledFacts.

(** X15.  The duty cycle of pwmled.c.  After [Init] and any number of
    passes of the main loop, whatever the buttons do, [DutyCycle] lies
    between 0 and [PWMMAXSTEP], the compare register [CCR1] holds
    [DutyCycle] and [CCR0] holds [PWMMAXSTEP]: the compare value never
    exceeds the period of the timer and the 16-bit variable never
    wraps. *)
Theorem pwmled_duty_cycle_range (l : list (bool * bool)) :
  let s := Pwmled.run Pwmled.Init l in
  0 <= Pwmled.DutyCycle s <= Pwmled.PWMMAXSTEP /\
  Pwmled.CCR1 s = Pwmled.DutyCycle s /\
  Pwmled.CCR0 s = Pwmled.PWMMAXSTEP.
Proof.
  cbv zeta. apply PwmledFacts.led_run_inv.
  unfold Pwmled.duty_inv. cbn.
  unfold Pwmled.PWMMAXSTEP, Pwmled.PWMINITIALVALUE. lia.
Qed.

(** X16.  A click in pwmled.c, from the port to the timer.  When the
    readings of [P2IN] show S1 pressed at least twice in a row and then
    released, and S2 released on the next reading, the pass of the main
    loop consumes exactly these readings, raises [DutyCycle] by one
    (not beyond [PWMMAXSTEP]), copies it to [CCR1] and lights the LED;
    the same gesture on S2, after a reading with S1 released, lowers
    [DutyCycle] by one (not below 0) and puts the LED out.  A button
    read pressed only once and then released changes nothing. *)
Theorem pwmled_click (s : Pwmled.state) (held : list Z) (r0 q : Z)
  (rest : list Z) :
  0 <= Pwmled.DutyCycle s <= Pwmled.PWMMAXSTEP ->
  (2 <= length held)%nat ->
  (Forall (Buttons.pressed Buttons.S1_BUTTON) held ->
   Buttons.released Buttons.S1_BUTTON r0 ->
   Buttons.released Buttons.S2_BUTTON q ->
   exists s',
     Pwmled.main_pass (held ++ r0 :: q :: rest) s = Some (s', rest) /\
     Pwmled.DutyCycle s'
     = Z.min (Pwmled.DutyCycle s + 1) Pwmled.PWMMAXSTEP /\
     Pwmled.CCR1 s' = Pwmled.DutyCycle s' /\ Pwmled.led s' = true) /\
  (Buttons.released Buttons.S1_BUTTON q ->
   Forall (Buttons.pressed Buttons.S2_BUTTON) held ->
   Buttons.released Buttons.S2_BUTTON r0 ->
   exists s',
     Pwmled.main_pass (q :: held ++ r0 :: rest) s = Some (s', rest) /\
     Pwmled.DutyCycle s' = Z.max (Pwmled.DutyCycle s - 1) 0 /\
     Pwmled.CCR1 s' = Pwmled.DutyCycle s' /\ Pwmled.led s' = false) /\
  (forall r1 : Z,
     Buttons.pressed Buttons.S1_BUTTON r1 ->
     Buttons.released Buttons.S1_BUTTON r0 ->
     Buttons.released Buttons.S2_BUTTON q ->
     Pwmled.main_pass (r1 :: r0 :: q :: rest) s = Some (s, rest)).
Proof.
  intros Hd Hl. split_and.
  - intros F R1 R2. exists (Pwmled.s1_pressed s).
    unfold Pwmled.main_pass.
    rewrite (testButton_click _ held r0 (q :: rest) Hl F R1).
    rewrite (testButton_idle _ q rest R2).
    destruct (PwmledFacts.s1_pressed_spec s Hd) as (A & B & _ & D).
    split_and; auto.
  - intros R1 F R2. exists (Pwmled.s2_pressed s).
    unfold Pwmled.main_pass.
    rewrite (testButton_idle _ q _ R1).
    rewrite (testButton_click _ held r0 rest Hl F R2).
    destruct (PwmledFacts.s2_pressed_spec s Hd) as (A & B & _ & D).
    split_and; auto.
  - intros r1 P R1 R2. unfold Pwmled.main_pass.
    rewrite (testButton_glitch _ r1 r0 (q :: rest) P R1).
    now rewrite (testButton_idle _ q rest R2).
Qed.

Lemma pwmled_click_witness :
  exists s',
    Pwmled.main_pass ([128; 128; 128] ++ 0 :: 0 :: [64]) Pwmled.Init
    = Some (s', [64]) /\
    Pwmled.DutyCycle s'
    = Z.min (Pwmled.DutyCycle Pwmled.Init + 1) Pwmled.PWMMAXSTEP /\
    Pwmled.CCR1 s' = Pwmled.DutyCycle s' /\ Pwmled.led s' = true.
Proof.
  destruct (pwmled_click Pwmled.Init [128; 128; 128] 0 0 [64]) as (H & _).
  - simpl. unfold Pwmled.PWMMAXSTEP. lia.
  - simpl. lia.
  - apply H.
    + repeat constructor; discriminate.
    + reflexivity.
    + reflexivity.
Defined.

(** ** thermo.c *)

Module ThermoFacts.
Import Thermo.

Lemma s32_small (x : Z) : -2147483648 <= x < 2147483648 -> s32 x = x.
Proof. intros H. unfold s32. rewrite Z.mod_small; lia. Qed.

Lemma accumulate_short (n : nat) (samples : list Z) (temp : Z) :
  (length samples < n)%nat -> accumulate n samples temp = None.
Proof.
  revert samples temp. induction n as [|n IH]; intros samples temp H.
  - lia.
  - destruct samples as [|a rest]; [reflexivity|].
    cbn [accumulate]. apply IH. cbn [length] in H. lia.
Qed.

Lemma celsius_mono (a b : Z) : a <= b -> celsius a <= celsius b.
Proof.
  intros H. unfold celsius. apply Z.quot_le_mono; lia.
Qed.

Lemma Read_Temp_five (a0 a1 a2 a3 a4 : Z) (rest : list Z) :
  is_u16 a0 -> is_u16 a1 -> is_u16 a2 -> is_u16 a3 -> is_u16 a4 ->
  Read_Temp (a0 :: a1 :: a2 :: a3 :: a4 :: rest)
  = Some (celsius ((a0 + a1 + a2 + a3 + a4) / 5), rest).
Proof.
  unfold is_u16. intros H0 H1 H2 H3 H4.
  unfold Read_Temp, AVTEMP. change (Z.to_nat 5) with 5%nat.
  cbn [accumulate].
  rewrite !u16_small by lia.
  rewrite (s32_small (0 + a0)) by lia.
  rewrite (s32_small (0 + a0 + a1)) by lia.
  rewrite (s32_small (0 + a0 + a1 + a2)) by lia.
  rewrite (s32_small (0 + a0 + a1 + a2 + a3)) by lia.
  rewrite (s32_small (0 + a0 + a1 + a2 + a3 + a4)) by lia.
  rewrite Z.add_0_l. cbv zeta.
  set (sum := a0 + a1 + a2 + a3 + a4).
  assert (Hs : 0 <= sum <= 327675) by (unfold sum; lia).
  rewrite (Z.quot_div_nonneg sum 5) by lia.
  assert (Ha : 0 <= sum / 5 <= 65535).
  { split; [apply Z.div_pos; lia|].
    apply Z.div_le_upper_bound; lia. }
  rewrite (s32_small (sum / 5)) by lia.
  rewrite (s32_small (sum / 5 - 673)) by lia.
  rewrite (s32_small ((sum / 5 - 673) * 423)) by lia.
  fold (celsius (sum / 5)).
  assert (Hc : celsius 0 <= celsius (sum / 5) <= celsius 65535)
    by (split; apply celsius_mono; lia).
  change (celsius 0) with (-278) in Hc.
  change (celsius 65535) with 26793 in Hc.
  rewrite s32_small by lia. reflexivity.
Qed.

End ThermoFacts.

(** X17.  [Read_Temp] of thermo.c.  The routine returns once five
    conversions have been read, and not before.  On five readings of the
    16-bit register it returns the conversion formula applied to their
    truncated mean, computed as on unbounded integers: none of the
    32-bit operations overflows.  The readings that follow are left
    for later calls. *)
Theorem Read_Temp_mean (samples : list Z) :
  ((length samples < 5)%nat -> Thermo.Read_Temp samples = None) /\
  (forall (a0 a1 a2 a3 a4 : Z) (rest : list Z),
     samples = a0 :: a1 :: a2 :: a3 :: a4 :: rest ->
     Forall is_u16 [a0; a1; a2; a3; a4] ->
     Thermo.Read_Temp samples
     = Some (Thermo.celsius ((a0 + a1 + a2 + a3 + a4) / 5), rest)).
Proof.
  split.
  - intros H. unfold Thermo.Read_Temp.
    now rewrite ThermoFacts.accumulate_short.
  - intros a0 a1 a2 a3 a4 rest -> F.
    inversion F as [|? ? H0 F0]; subst. inversion F0 as [|? ? H1 F1]; subst.
    inversion F1 as [|? ? H2 F2]; subst. inversion F2 as [|? ? H3 F3]; subst.
    inversion F3 as [|? ? H4 F4]; subst.
    now apply ThermoFacts.Read_Temp_five.
Qed.

Lemma Read_Temp_mean_witness :
  Thermo.Read_Temp [700; 701; 702; 703; 704; 9]
  = Some (Thermo.celsius ((700 + 701 + 702 + 703 + 704) / 5), [9]).
Proof.
  destruct (Read_Temp_mean [700; 701; 702; 703; 704; 9]) as [_ H].
  apply H; [reflexivity|].
  repeat constructor; unfold is_u16; lia.
Defined.

Module ThermoFacts2.
Import Thermo.

Lemma celsius_step (m : Z) : celsius (m + 1) <= celsius m + 1.
Proof.
  unfold celsius. Z.quot_rem_to_equations. lia.
Qed.

Lemma celsius_range (m : Z) : is_adc10 m -> -278 <= celsius m <= 144.
Proof.
  unfold is_adc10. intros H.
  assert (Hc : celsius 0 <= celsius m <= celsius 1023)
    by (split; apply ThermoFacts.celsius_mono; lia).
  change (celsius 0) with (-278) in Hc.
  change (celsius 1023) with 144 in Hc. exact Hc.
Qed.

End ThermoFacts2.

(** X18.  The scale of [Read_Temp].  On five readings of the 10-bit
    converter the result lies between -278 and 144 degrees; it does not
    decrease when no reading decreases, and raising every reading by
    one count raises it by at most one degree. *)
Theorem Read_Temp_scale (a0 a1 a2 a3 a4 b0 b1 b2 b3 b4 : Z)
  (rest : list Z) :
  Forall Thermo.is_adc10 [a0; a1; a2; a3; a4] ->
  Forall Thermo.is_adc10 [b0; b1; b2; b3; b4] ->
  exists t u : Z,
    Thermo.Read_Temp (a0 :: a1 :: a2 :: a3 :: a4 :: rest) = Some (t, rest) /\
    Thermo.Read_Temp (b0 :: b1 :: b2 :: b3 :: b4 :: rest) = Some (u, rest) /\
    -278 <= t <= 144 /\
    (a0 <= b0 -> a1 <= b1 -> a2 <= b2 -> a3 <= b3 -> a4 <= b4 -> t <= u) /\
    (b0 = a0 + 1 -> b1 = a1 + 1 -> b2 = a2 + 1 -> b3 = a3 + 1 ->
     b4 = a4 + 1 -> u <= t + 1).
Proof.
  intros Fa Fb.
  inversion Fa as [|? ? A0 F0]; subst. inversion F0 as [|? ? A1 F1]; subst.
  inversion F1 as [|? ? A2 F2]; subst. inversion F2 as [|? ? A3 F3]; subst.
  inversion F3 as [|? ? A4 F4]; subst. clear Fa F0 F1 F2 F3 F4.
  inversion Fb as [|? ? B0 F0]; subst. inversion F0 as [|? ? B1 F1]; subst.
  inversion F1 as [|? ? B2 F2]; subst. inversion F2 as [|? ? B3 F3]; subst.
  inversion F3 as [|? ? B4 F4]; subst. clear Fb F0 F1 F2 F3 F4.
  unfold Thermo.is_adc10 in *.
  exists (Thermo.celsius ((a0 + a1 + a2 + a3 + a4) / 5)),
         (Thermo.celsius ((b0 + b1 + b2 + b3 + b4) / 5)).
  split_and.
  - apply ThermoFacts.Read_Temp_five; unfold is_u16; lia.
  - apply ThermoFacts.Read_Temp_five; unfold is_u16; lia.
  - apply ThermoFacts2.celsius_range. unfold Thermo.is_adc10.
    split; [apply Z.div_pos; lia | apply Z.div_le_upper_bound; lia].
  - apply ThermoFacts2.celsius_range. unfold Thermo.is_adc10.
    split; [apply Z.div_pos; lia | apply Z.div_le_upper_bound; lia].
  - intros. apply ThermoFacts.celsius_mono, Z.div_le_mono; lia.
  - intros -> -> -> -> ->.
    replace (a0 + 1 + (a1 + 1) + (a2 + 1) + (a3 + 1) + (a4 + 1))
      with ((a0 + a1 + a2 + a3 + a4) + 1 * 5) by lia.
    rewrite Z.div_add by lia. apply ThermoFacts2.celsius_step.
Qed.

Lemma Read_Temp_scale_witness :
  exists t u : Z,
    Thermo.Read_Temp [673; 673; 673; 673; 673] = Some (t, []) /\
    Thermo.Read_Temp [674; 674; 674; 674; 674] = Some (u, []) /\
    -278 <= t <= 144 /\
    (673 <= 674 -> 673 <= 674 -> 673 <= 674 -> 673 <= 674 -> 673 <= 674 ->
     t <= u) /\
    (674 = 673 + 1 -> 674 = 673 + 1 -> 674 = 673 + 1 -> 674 = 673 + 1 ->
     674 = 673 + 1 -> u <= t + 1).
Proof.
  apply (Read_Temp_scale 673 673 673 673 673 674 674 674 674 674 []);
    repeat constructor; unfold Thermo.is_adc10; lia.
Defined.

(** ** xtoa, itoa and ltoa *)

Module XtoaFacts.
Import Thermo Xtoa.

Lemma load_app (pre : list Z) (x : Z) (rest : list Z) :
  load (pre ++ x :: rest) (Z.of_nat (length pre)) = Some x.
Proof.
  unfold load. destruct (Z.ltb_spec (Z.of_nat (length pre)) 0); [lia|].
  rewrite Nat2Z.id, nth_error_app2 by lia.
  now rewrite Nat.sub_diag.
Qed.

Lemma store_app (pre : list Z) (x c : Z) (rest : list Z) :
  store (pre ++ x :: rest) (Z.of_nat (length pre)) c
  = Some (pre ++ c :: rest).
Proof.
  unfold store. rewrite length_app. cbn [length].
  destruct (Z.leb_spec 0 (Z.of_nat (length pre))); [|lia].
  destruct (Z.ltb_spec (Z.of_nat (length pre))
              (Z.of_nat (length pre + S (length rest)))); [|lia].
  cbn [andb]. rewrite Nat2Z.id.
  rewrite firstn_app, Nat.sub_diag, firstn_all, firstn_O, app_nil_r.
  rewrite skipn_app, skipn_all2 by lia.
  replace (S (length pre) - length pre)%nat with 1%nat by lia.
  reflexivity.
Qed.

Lemma store_end (m : list Z) (c : Z) :
  store m (Z.of_nat (length m)) c = None.
Proof.
  unfold store. destruct (Z.ltb_spec (Z.of_nat (length m))
                            (Z.of_nat (length m))); [lia|].
  now rewrite andb_false_r.
Qed.

End XtoaFacts.

Module XtoaLoops.
Import Thermo Xtoa XtoaFacts.

(** A digit below 36 is stored as its character. *)
Lemma to_char_digit (d : Z) :
  0 <= d < 36 ->
  to_char d = (if d >? 9 then d + 87 else d + 48) /\
  char_value (to_char d) = Some d /\ to_char d <> 0 /\ to_char d <> 45.
Proof.
  intros H. unfold to_char, u8, u16, char_value.
  destruct (Z.gtb_spec d 9).
  - rewrite (Z.mod_small (d - 10 + 97)) by lia.
    rewrite Z.mod_small by lia.
    destruct (Z.leb_spec 48 (d - 10 + 97)); [|lia].
    destruct (Z.leb_spec (d - 10 + 97) 57); [lia|]. cbn [andb].
    destruct (Z.leb_spec 97 (d - 10 + 97)); [|lia].
    destruct (Z.leb_spec (d - 10 + 97) 122); [|lia]. cbn [andb].
    split_and; try lia. f_equal. lia.
  - rewrite (Z.mod_small (d + 48)) by lia.
    rewrite Z.mod_small by lia.
    destruct (Z.leb_spec 48 (d + 48)); [|lia].
    destruct (Z.leb_spec (d + 48) 57); [|lia]. cbn [andb].
    split_and; try lia. f_equal. lia.
Qed.

(** The digits of a number: their count and the number they write. *)
Lemma lsd_length (F : nat) (radix val : Z) (k : nat) :
  2 <= radix -> 0 <= val < radix ^ Z.of_nat k -> (1 <= k)%nat ->
  (1 <= F)%nat ->
  (1 <= length (lsd F radix val) <= k)%nat.
Proof.
  intros Hr. revert val k. induction F as [|F IH]; intros val k Hv Hk HF.
  - lia.
  - cbn [lsd length].
    destruct (Z.gtb_spec (val / radix) 0) as [Hq | Hq]; [|cbn [length]; lia].
    destruct k as [|[|k]]; try lia.
    + (* k = 1: the quotient is zero *)
      change (Z.of_nat 1) with 1 in Hv. rewrite Z.pow_1_r in Hv.
      rewrite Z.div_small in Hq by lia. lia.
    + destruct F as [|F].
      * cbn [lsd length]. lia.
      * destruct (IH (val / radix) (S k)) as [A B]; try lia.
        split; [apply Z.div_pos; lia|].
        apply Z.div_lt_upper_bound; [lia|].
        rewrite <- Z.pow_succ_r by lia.
        replace (Z.succ (Z.of_nat (S k))) with (Z.of_nat (S (S k))) by lia.
        lia.
Qed.

Lemma lsd_value (F : nat) (radix val : Z) :
  2 <= radix -> 0 <= val < 2 ^ Z.of_nat F -> (1 <= F)%nat ->
  value radix (lsd F radix val) = val /\
  Forall (fun d => 0 <= d < radix) (lsd F radix val).
Proof.
  intros Hr. revert val. induction F as [|F IH]; intros val Hv HF; [lia|].
  cbn [lsd value].
  assert (Hm : 0 <= val mod radix < radix) by (apply Z.mod_pos_bound; lia).
  destruct (Z.gtb_spec (val / radix) 0) as [Hq | Hq].
  - destruct F as [|F].
    + change (2 ^ Z.of_nat 1) with 2 in Hv.
      rewrite Z.div_small in Hq by lia. lia.
    + destruct (IH (val / radix)) as [A B]; try lia.
      { split; [lia|].
        apply Z.div_lt_upper_bound; [lia|].
        rewrite Nat2Z.inj_succ, Z.pow_succ_r in Hv by lia.
        nia. }
      split; [|constructor; assumption].
      rewrite A. pose proof (Z.div_mod val radix). lia.
  - cbn [value]. split; [|constructor; [assumption | constructor]].
    assert (val / radix = 0).
    { assert (0 <= val / radix) by (apply Z.div_pos; lia). lia. }
    pose proof (Z.div_mod val radix). nia.
Qed.

(** The first loop stores the digits, when they fit. *)
Lemma digits_loop_fits (f : nat) :
  forall (F : nat) (radix val : Z) (pre mid post : list Z),
    2 <= radix < 65536 -> 0 <= val ->
    length mid = length (lsd f radix val) ->
    (length (lsd f radix val) <= F)%nat ->
    (1 <= f)%nat -> val < 2 ^ Z.of_nat f ->
    digits_loop F val radix (pre ++ mid ++ post) (Z.of_nat (length pre))
    = Some (pre ++ map to_char (lsd f radix val) ++ post,
            Z.of_nat (length pre + length mid)).
Proof.
  induction f as [|f IH]; intros F radix val pre mid post Hr Hv Hl HF Hf Hlt;
    [lia|].
  cbn [lsd] in *.
  assert (Hm : 0 <= val mod radix < radix) by (apply Z.mod_pos_bound; lia).
  destruct F as [|F]; [cbn [length] in HF; lia|].
  destruct mid as [|x mid]; [discriminate Hl|].
  cbn [digits_loop]. unfold u16 at 1. rewrite (Z.mod_small (val mod radix)) by lia.
  cbn [app]. rewrite store_app.
  destruct (Z.gtb_spec (val / radix) 0) as [Hq | Hq].
  - cbn [length] in Hl, HF. injection Hl as Hl.
    destruct f as [|f].
    { change (2 ^ Z.of_nat 1) with 2 in Hlt.
      rewrite Z.div_small in Hq by lia. lia. }
    replace (pre ++ to_char (val mod radix) :: mid ++ post)
      with ((pre ++ [to_char (val mod radix)]) ++ mid ++ post)
      by now rewrite <- app_assoc.
    replace (Z.of_nat (length pre) + 1)
      with (Z.of_nat (length (pre ++ [to_char (val mod radix)])))
      by (rewrite length_app; cbn [length]; lia).
    assert (Hq' : val / radix < 2 ^ Z.of_nat (S f)).
    { apply Z.div_lt_upper_bound; [lia|].
      rewrite (Nat2Z.inj_succ (S f)), Z.pow_succ_r in Hlt by lia. nia. }
    rewrite (IH F radix (val / radix)); try lia.
    cbn [map app]. rewrite <- app_assoc. cbn [app].
    rewrite length_app. cbn [length]. do 2 f_equal. lia.
  - cbn [length] in Hl. injection Hl as Hl.
    destruct mid; [|discriminate Hl].
    cbn [map app length]. do 2 f_equal. lia.
Qed.

(** The first loop leaves the memory when the digits do not fit. *)
Lemma digits_loop_overrun (f : nat) :
  forall (F : nat) (radix val : Z) (pre mid : list Z),
    2 <= radix < 65536 -> 0 <= val ->
    (length mid < length (lsd f radix val))%nat ->
    digits_loop F val radix (pre ++ mid) (Z.of_nat (length pre)) = None.
Proof.
  induction f as [|f IH]; intros F radix val pre mid Hr Hv Hl;
    [cbn [lsd length] in Hl; lia|].
  cbn [lsd] in Hl.
  destruct F as [|F]; [reflexivity|].
  cbn [digits_loop].
  destruct mid as [|x mid].
  - rewrite app_nil_r, store_end. reflexivity.
  - rewrite store_app.
    destruct (Z.gtb_spec (val / radix) 0) as [Hq | Hq].
    + cbn [length] in Hl.
      replace (pre ++ to_char (u16 (val mod radix)) :: mid)
        with ((pre ++ [to_char (u16 (val mod radix))]) ++ mid)
        by now rewrite <- app_assoc.
      replace (Z.of_nat (length pre) + 1)
        with (Z.of_nat (length (pre ++ [to_char (u16 (val mod radix))])))
        by (rewrite length_app; cbn [length]; lia).
      apply IH; lia.
    + cbn [length] in Hl. lia.
Qed.

(** With the radix 1 the first loop never ends on a positive value. *)
Lemma digits_loop_radix_1 (F : nat) :
  forall (val : Z) (m : list Z) (p : Z),
    0 < val -> digits_loop F val 1 m p = None.
Proof.
  induction F as [|F IH]; intros val m p Hv; [reflexivity|].
  cbn [digits_loop]. destruct (store m p _); [|reflexivity].
  rewrite Z.div_1_r.
  destruct (Z.gtb_spec val 0); [|lia]. now apply IH.
Qed.

(** The second loop reverses the bytes between the two pointers. *)
Lemma reverse_loop_spec (F : nat) :
  forall (pre seg post : list Z),
    (1 <= length seg <= 2 * F)%nat ->
    reverse_loop F (pre ++ seg ++ post) (Z.of_nat (length pre))
      (Z.of_nat (length pre + length seg) - 1)
    = Some (pre ++ rev seg ++ post).
Proof.
  induction F as [|F IH]; intros pre seg post Hl; [lia|].
  destruct seg as [|x seg]; [cbn [length] in Hl; lia|].
  destruct (exists_last (l := x :: seg)) as (body & y & E);
    [discriminate|].
  destruct body as [|x' body].
  - (* one byte *)
    cbn [app] in E. injection E as -> ->.
    cbn [reverse_loop length rev app].
    replace (Z.of_nat (length pre + 1) - 1) with (Z.of_nat (length pre))
      by lia.
    rewrite load_app, store_app, store_app.
    destruct (Z.ltb_spec (Z.of_nat (length pre) + 1)
                (Z.of_nat (length pre) - 1)); [lia | reflexivity].
  - cbn [app] in E. injection E as <- ->.
    cbn [reverse_loop].
    assert (P : Z.of_nat (length pre + length (x :: body ++ [y])) - 1
                = Z.of_nat (length (pre ++ x :: body))).
    { rewrite !length_app. cbn [length]. rewrite length_app. cbn [length].
      lia. }
    rewrite P.
    assert (M : pre ++ (x :: body ++ [y]) ++ post
                = (pre ++ x :: body) ++ y :: post).
    { rewrite <- !app_assoc. cbn [app]. rewrite <- app_assoc. reflexivity. }
    rewrite M at 1. rewrite load_app.
    change (pre ++ (x :: body ++ [y]) ++ post)
      with (pre ++ x :: (body ++ [y]) ++ post) at 1.
    rewrite load_app, M, store_app. rewrite <- app_assoc. cbn [app].
    rewrite store_app.
    rewrite length_app. cbn [length].
    destruct (Z.ltb_spec (Z.of_nat (length pre) + 1)
                (Z.of_nat (length pre + S (length body)) - 1)) as [Hc | Hc].
    + (* at least two bytes are left between the pointers *)
      replace (pre ++ y :: body ++ x :: post)
        with ((pre ++ [y]) ++ body ++ (x :: post))
        by (rewrite <- app_assoc; reflexivity).
      replace (Z.of_nat (length pre) + 1)
        with (Z.of_nat (length (pre ++ [y])))
        by (rewrite length_app; cbn [length]; lia).
      replace (Z.of_nat (length pre + S (length body)) - 1)
        with (Z.of_nat (length (pre ++ [y]) + length body) - 1)
        by (rewrite length_app; cbn [length]; lia).
      rewrite IH.
      * f_equal. cbn [rev]. rewrite rev_app_distr. cbn [rev app].
        rewrite <- !app_assoc. cbn [app]. reflexivity.
      * cbn [length] in Hl. rewrite length_app in Hl. cbn [length] in Hl.
        lia.
    + (* none or one *)
      f_equal. cbn [rev]. rewrite rev_app_distr. cbn [rev app].
      assert (B : (length body <= 1)%nat) by lia.
      destruct body as [|z [|z' body]]; cbn [length] in B; try lia;
        cbn [rev app]; reflexivity.
Qed.

End XtoaLoops.

Module XtoaCore.
Import Thermo Xtoa XtoaFacts XtoaLoops.

(** The three steps that follow the sign: the digits, the NUL and the
    reversal. *)
Lemma digits_and_reversal (F : nat) (radix val : Z) (pre rest : list Z) :
  2 <= radix < 65536 -> 0 <= val < 2 ^ 32 ->
  (S (length rest) <= F)%nat ->
  let ds := lsd 32 radix val in
  match digits_loop F val radix (pre ++ rest) (Z.of_nat (length pre)) with
  | None => None
  | Some (m2, p) =>
      match store m2 p 0 with
      | None => None
      | Some m3 => reverse_loop F m3 (Z.of_nat (length pre)) (p - 1)
      end
  end
  = if (length ds <? length rest)%nat
    then Some (pre ++ map to_char (rev ds) ++ 0 :: skipn (S (length ds)) rest)
    else None.
Proof.
  intros Hr Hv HF ds.
  assert (Hd : (1 <= length ds <= 32)%nat).
  { apply lsd_length; lia. }
  destruct (Nat.ltb_spec (length ds) (length rest)) as [Hl | Hl].
  - rewrite <- (firstn_skipn (length ds) rest) at 1.
    rewrite (digits_loop_fits 32 F radix val pre (firstn (length ds) rest)
               (skipn (length ds) rest)); try lia;
      try (rewrite firstn_length_le by lia; fold ds; lia);
      try (fold ds; lia).
    fold ds. rewrite firstn_length_le by lia.
    destruct (skipn (length ds) rest) as [|z post] eqn:E.
    { apply (f_equal (@length Z)) in E. rewrite length_skipn in E.
      cbn [length] in E. lia. }
    assert (E' : skipn (S (length ds)) rest = post).
    { replace (S (length ds)) with (1 + length ds)%nat by lia.
      rewrite <- skipn_skipn, E. reflexivity. }
    rewrite E'.
    replace (pre ++ map to_char ds ++ z :: post)
      with ((pre ++ map to_char ds) ++ z :: post)
      by now rewrite <- app_assoc.
    replace (Z.of_nat (length pre + length ds))
      with (Z.of_nat (length (pre ++ map to_char ds)))
      by (now rewrite length_app, length_map).
    rewrite store_app.
    rewrite <- app_assoc.
    replace (Z.of_nat (length (pre ++ map to_char ds)) - 1)
      with (Z.of_nat (length pre + length (map to_char ds)) - 1)
      by (rewrite length_app; reflexivity).
    rewrite reverse_loop_spec by (rewrite length_map; lia).
    now rewrite map_rev.
  - destruct (Nat.eq_dec (length rest) (length ds)) as [E | E].
    + rewrite <- (app_nil_r rest) at 1.
      rewrite (digits_loop_fits 32 F radix val pre rest []); try lia;
        try (fold ds; lia).
      rewrite app_nil_r.
      replace (Z.of_nat (length pre + length rest))
        with (Z.of_nat (length (pre ++ map to_char (lsd 32 radix val))))
        by (rewrite length_app, length_map; fold ds; lia).
      now rewrite store_end.
    + rewrite (digits_loop_overrun 32); try lia. reflexivity.
      fold ds. lia.
Qed.

(** What [xtoa] writes: the sign, the digits from the most significant
    one and the NUL, or nothing when they do not fit. *)
Lemma xtoa_core (val : Z) (m : list Z) (radix negative : Z) :
  2 <= radix < 65536 -> 0 <= val < 2 ^ 32 ->
  let v1 := if nonzero negative then u32 (- s32 val) else val in
  let str := (if nonzero negative then [45] else [])
             ++ map to_char (rev (lsd 32 radix v1)) in
  xtoa val m radix negative
  = if (length str <? length m)%nat
    then Some (str ++ 0 :: skipn (S (length str)) m)
    else None.
Proof.
  intros Hr Hv v1 str. unfold xtoa, xtoa_with.
  assert (Hd : (1 <= length (lsd 32 radix v1))%nat).
  { assert (0 <= v1 < 2 ^ 32).
    { unfold v1. case_if; [|assumption]. unfold u32.
      change (2 ^ 32) with 4294967296. apply Z.mod_pos_bound. lia. }
    apply (lsd_length 32 radix v1 32); lia. }
  destruct (Z.eqb_spec radix 0) as [|_]; [lia|].
  unfold str, v1. destruct (nonzero negative).
  - destruct m as [|z m].
    + reflexivity.
    + change (store (z :: m) 0 45)
        with (store ([] ++ z :: m) (Z.of_nat (length (@nil Z))) 45).
      rewrite store_app. cbn [app].
      change (45 :: m) with ([45] ++ m).
      change 1 with (Z.of_nat (length [45])) at 1 2.
      rewrite (digits_and_reversal (S (length (z :: m))));
        [| lia | | cbn [length]; lia].
      2:{ unfold u32. change (2 ^ 32) with 4294967296.
          apply Z.mod_pos_bound. lia. }
      cbn [length app]. rewrite length_map, length_rev.
      cbn [skipn].
      destruct (Nat.ltb_spec (length (lsd 32 radix (u32 (- s32 val))))
                  (length m));
        destruct (Nat.ltb_spec
                    (S (length (lsd 32 radix (u32 (- s32 val)))))
                    (S (length m))); try lia; reflexivity.
  - change m with ([] ++ m) at 2.
    change 0 with (Z.of_nat (length (@nil Z))) at 1 2.
    rewrite (digits_and_reversal (S (length m))); [| lia | lia | lia].
    cbn [length app]. rewrite length_map, length_rev.
    reflexivity.
Qed.

End XtoaCore.

(** *** The bound on the iterations *)

Module XtoaFuel.
Import Thermo Xtoa XtoaFacts.

Lemma store_length (m : list Z) (i c : Z) (m' : list Z) :
  store m i c = Some m' -> length m' = length m.
Proof.
  unfold store.
  destruct (Z.leb_spec 0 i); [|discriminate].
  destruct (Z.ltb_spec i (Z.of_nat (length m))); [|discriminate].
  cbn [andb]. intros E.
  assert (E' : m' = firstn (Z.to_nat i) m ++ c :: skipn (S (Z.to_nat i)) m)
    by congruence.
  rewrite E', length_app, firstn_length_le by lia.
  cbn [length]. rewrite length_skipn. lia.
Qed.

Lemma store_outside (m : list Z) (i c : Z) :
  Z.of_nat (length m) <= i -> store m i c = None.
Proof.
  intros H. unfold store.
  destruct (Z.ltb_spec i (Z.of_nat (length m))); [lia|].
  now rewrite andb_false_r.
Qed.

Lemma digits_loop_fuel (F : nat) :
  forall (F' : nat) (val radix : Z) (m : list Z) (p : Z),
    Z.of_nat (length m) - p < Z.of_nat F -> (F <= F')%nat ->
    digits_loop F' val radix m p = digits_loop F val radix m p.
Proof.
  induction F as [|F IH]; intros F' val radix m p Hp HF.
  - destruct F' as [|F']; [reflexivity|].
    cbn [digits_loop]. now rewrite store_outside by lia.
  - destruct F' as [|F']; [lia|]. cbn [digits_loop].
    destruct (store m p _) as [m'|] eqn:E; [|reflexivity].
    case_if; [|reflexivity].
    apply IH; [|lia]. rewrite (store_length _ _ _ _ E). lia.
Qed.

Lemma load_outside (m : list Z) (i : Z) :
  Z.of_nat (length m) <= i -> load m i = None.
Proof.
  intros H. unfold load. destruct (Z.ltb_spec i 0); [reflexivity|].
  apply nth_error_None. lia.
Qed.

Lemma reverse_loop_fuel (F : nat) :
  forall (F' : nat) (m : list Z) (firstdig p : Z),
    (1 <= F)%nat -> p - firstdig <= 2 * Z.of_nat F -> (F <= F')%nat ->
    reverse_loop F' m firstdig p = reverse_loop F m firstdig p.
Proof.
  induction F as [|F IH]; intros F' m firstdig p H1 Hp HF; [lia|].
  destruct F' as [|F']; [lia|]. cbn [reverse_loop].
  destruct (load m p); [|reflexivity].
  destruct (load m firstdig); [|reflexivity].
  destruct (store m p _) as [m1|]; [|reflexivity].
  destruct (store m1 firstdig _) as [m2|]; [|reflexivity].
  destruct (Z.ltb_spec (firstdig + 1) (p - 1)); [|reflexivity].
  apply IH; lia.
Qed.

Lemma digits_loop_pointer (F : nat) :
  forall (val radix : Z) (m : list Z) (p : Z) (m' : list Z) (p' : Z),
    digits_loop F val radix m p = Some (m', p') ->
    length m' = length m /\ p < p' <= Z.of_nat (length m).
Proof.
  induction F as [|F IH]; intros val radix m p m' p' H; [discriminate|].
  cbn [digits_loop] in H.
  destruct (store m p _) as [m1|] eqn:E; [|discriminate].
  pose proof (store_length _ _ _ _ E) as L.
  assert (B : 0 <= p < Z.of_nat (length m)).
  { unfold store in E.
    destruct (Z.leb_spec 0 p); [|discriminate].
    destruct (Z.ltb_spec p (Z.of_nat (length m))); [lia | discriminate]. }
  destruct (val / radix >? 0).
  - apply IH in H. lia.
  - injection H as <- <-. lia.
Qed.

(** More iterations than [length m + 1] change nothing. *)
Lemma xtoa_enough_fuel (F : nat) (val : Z) (m : list Z)
  (radix negative : Z) :
  (S (length m) <= F)%nat ->
  xtoa_with F val m radix negative = xtoa val m radix negative.
Proof.
  intros HF. unfold xtoa, xtoa_with.
  assert (Step : forall (m1 : list Z) (firstdig v : Z),
            length m1 = length m -> 0 <= firstdig ->
            match digits_loop F v radix m1 firstdig with
            | None => None
            | Some (m2, p) =>
                match store m2 p 0 with
                | None => None
                | Some m3 => reverse_loop F m3 firstdig (p - 1)
                end
            end
            = match digits_loop (S (length m)) v radix m1 firstdig with
              | None => None
              | Some (m2, p) =>
                  match store m2 p 0 with
                  | None => None
                  | Some m3 =>
                      reverse_loop (S (length m)) m3 firstdig (p - 1)
                  end
              end).
  { intros m1 firstdig v L H0.
    rewrite (digits_loop_fuel (S (length m)) F) by lia.
    destruct (digits_loop (S (length m)) v radix m1 firstdig)
      as [[m2 p]|] eqn:E; [|reflexivity].
    apply digits_loop_pointer in E.
    destruct (store m2 p 0) as [m3|]; [|reflexivity].
    apply reverse_loop_fuel; lia. }
  destruct (nonzero negative).
  - destruct (store m 0 45) as [m1|] eqn:E; [|reflexivity].
    case_if; [reflexivity|].
    apply Step; [now apply store_length in E | lia].
  - case_if; [reflexivity|]. apply Step; [reflexivity | lia].
Qed.

End XtoaFuel.

Module XtoaRead.
Import Thermo Xtoa XtoaFacts XtoaLoops XtoaCore.

Lemma parse_from_app (radix acc : Z) (s1 s2 : list Z) :
  parse_from radix acc (s1 ++ s2)
  = match parse_from radix acc s1 with
    | None => None
    | Some a => parse_from radix a s2
    end.
Proof.
  revert acc. induction s1 as [|c s1 IH]; intros acc; [reflexivity|].
  cbn [app parse_from]. destruct (char_value c); [|reflexivity].
  case_if; [apply IH | reflexivity].
Qed.

Lemma parse_digits (radix : Z) (ds : list Z) :
  2 <= radix <= 36 -> Forall (fun d => 0 <= d < radix) ds ->
  forall acc : Z,
    parse_from radix acc (map to_char (rev ds))
    = Some (acc * radix ^ Z.of_nat (length ds) + value radix ds).
Proof.
  intros Hr F. induction F as [|d ds Hd F IH]; intros acc.
  - cbn. f_equal. lia.
  - cbn [rev]. rewrite map_app, parse_from_app, IH. cbn [map parse_from].
    destruct (to_char_digit d) as (_ & -> & _); [lia|].
    destruct (Z.ltb_spec d radix); [|lia].
    cbn [length value]. rewrite Nat2Z.inj_succ, Z.pow_succ_r by lia.
    f_equal. ring.
Qed.

Lemma chars_of_digits (radix : Z) (ds : list Z) :
  2 <= radix <= 36 -> Forall (fun d => 0 <= d < radix) ds ->
  Forall (fun c => c <> 0 /\ c <> 45) (map to_char (rev ds)).
Proof.
  intros Hr F. apply Forall_map, Forall_rev.
  apply (Forall_impl _ (P := fun d => 0 <= d < radix)); [|exact F].
  intros d Hd. destruct (to_char_digit d) as (_ & _ & A & B); [lia|].
  split; assumption.
Qed.

Lemma c_string_app (str tail : list Z) :
  Forall (fun c => c <> 0) str -> c_string (str ++ 0 :: tail) = Some str.
Proof.
  intros F. induction F as [|c str Hc F IH]; [reflexivity|].
  cbn [app c_string]. destruct (Z.eqb_spec c 0); [contradiction|].
  now rewrite IH.
Qed.

(** The string of a number without sign. *)
Lemma digit_string (radix v : Z) :
  2 <= radix <= 36 -> 0 <= v < 2 ^ 32 ->
  let str := map to_char (rev (lsd 32 radix v)) in
  parse radix str = Some v /\
  Forall (fun c => c <> 0 /\ c <> 45) str /\
  (1 <= length str)%nat /\
  forall k : nat,
    (1 <= k)%nat -> v < radix ^ Z.of_nat k -> (length str <= k)%nat.
Proof.
  intros Hr Hv str.
  destruct (lsd_value 32 radix v) as [V F];
    [lia | change (Z.of_nat 32) with 32; lia | lia |].
  pose proof (chars_of_digits radix _ Hr F) as C. fold str in C.
  pose proof (parse_digits radix _ Hr F 0) as P. fold str in P.
  rewrite V, Z.mul_0_l, Z.add_0_l in P.
  assert (L : length str = length (lsd 32 radix v))
    by (unfold str; now rewrite length_map, length_rev).
  assert (L1 : (1 <= length (lsd 32 radix v) <= 32)%nat)
    by (apply lsd_length; lia).
  split_and.
  - destruct str as [|c str']; [cbn [length] in L; lia|]. exact P.
  - exact C.
  - lia.
  - intros k Hk Hlt. rewrite L.
    apply (lsd_length 32 radix v k); lia.
Qed.

Lemma plain_string (radix v : Z) :
  2 <= radix <= 36 -> 0 <= v < 2 ^ 32 ->
  let str := map to_char (rev (lsd 32 radix v)) in
  parse_signed radix str = Some v /\ Forall (fun c => c <> 0) str.
Proof.
  intros Hr Hv str.
  destruct (digit_string radix v Hr Hv) as (P & C & L & _).
  fold str in P, C, L. split.
  - destruct str as [|c str']; [cbn [length] in L; lia|].
    unfold parse_signed. inversion C as [|? ? [_ Hc] _]; subst.
    destruct (Z.eqb_spec c 45); [contradiction | exact P].
  - apply (Forall_impl _ (P := fun c => c <> 0 /\ c <> 45));
      [tauto | exact C].
Qed.

(** The string of a negative number in decimal. *)
Lemma minus_string (v : Z) :
  0 <= v < 2 ^ 32 ->
  let str := 45 :: map to_char (rev (lsd 32 10 v)) in
  parse_signed 10 str = Some (- v) /\ Forall (fun c => c <> 0) str.
Proof.
  intros Hv str.
  destruct (digit_string 10 v) as (P & C & _); [lia | lia |].
  cbv zeta in P, C. split.
  - unfold str, parse_signed. change (45 =? 45) with true. cbv iota.
    now rewrite P.
  - constructor; [discriminate|].
    apply (Forall_impl _ (P := fun c => c <> 0 /\ c <> 45));
      [tauto | exact C].
Qed.

End XtoaRead.

Module XtoaTop.
Import Thermo Xtoa XtoaFacts XtoaLoops XtoaCore XtoaRead.

Lemma u32_small (x : Z) : 0 <= x < 4294967296 -> u32 x = x.
Proof. intros H. unfold u32. now apply Z.mod_small. Qed.

Lemma u32_neg (x : Z) : -4294967296 <= x < 0 -> u32 x = x + 4294967296.
Proof.
  intros H. unfold u32.
  rewrite <- (Z.mod_add x 1 4294967296) by lia.
  apply Z.mod_small. lia.
Qed.

Lemma s32_u32_neg (x : Z) : -2147483648 <= x < 0 -> s32 (u32 x) = x.
Proof.
  intros H. rewrite u32_neg by lia. unfold s32.
  replace (x + 4294967296 + 2147483648)
    with (x + 2147483648 + 1 * 4294967296) by lia.
  rewrite Z.mod_add, Z.mod_small by lia. lia.
Qed.

(** The call of [xtoa] for a negative number in decimal. *)
Lemma xtoa_minus (val : Z) (m : list Z) :
  -2147483648 < val < 0 ->
  let str := 45 :: map to_char (rev (lsd 32 10 (- val))) in
  xtoa (u32 val) m 10 1
  = if (length str <? length m)%nat
    then Some (str ++ 0 :: skipn (S (length str)) m)
    else None.
Proof.
  intros Hv str.
  pose proof (xtoa_core (u32 val) m 10 1) as H. cbv zeta in H.
  change (nonzero 1) with true in H. cbv iota in H.
  rewrite (s32_u32_neg val), (u32_small (- val)) in H by lia.
  apply H; [lia|]. rewrite u32_neg by lia. lia.
Qed.

(** The call of [xtoa] for a number without sign. *)
Lemma xtoa_plain (v radix : Z) (m : list Z) :
  2 <= radix <= 36 -> 0 <= v < 4294967296 ->
  let str := map to_char (rev (lsd 32 radix v)) in
  xtoa v m radix 0
  = if (length str <? length m)%nat
    then Some (str ++ 0 :: skipn (S (length str)) m)
    else None.
Proof.
  intros Hr Hv str.
  pose proof (xtoa_core v m radix 0) as H. cbv zeta in H.
  change (nonzero 0) with false in H. cbv iota in H.
  apply H; lia.
Qed.

End XtoaTop.

(** X19.  [ltoa] of thermo.c.  For a [long] other than the least one
    and a radix from 2 to 36, the digits, sign and NUL that [ltoa]
    writes depend on the number and the radix only: a string without
    NUL that reads back as the number in decimal, and in another radix
    as the number for a non-negative one and as its 32-bit pattern for
    a negative one.  The string has at most 11 characters in decimal
    and 32 otherwise.  [ltoa] writes it at the start of the memory,
    followed by a NUL, and leaves the bytes behind as they were, when
    the memory has room for the string and the NUL; it leaves the
    memory (undefined behaviour) when it has not. *)
Theorem ltoa_writes_the_number (val radix : Z) :
  -2147483648 < val < 2147483648 -> 2 <= radix <= 36 ->
  exists str : list Z,
    Xtoa.parse_signed radix str
    = Some (if (radix =? 10) || (0 <=? val) then val
            else val + 4294967296) /\
    Forall (fun c => c <> 0) str /\
    (length str <= (if (radix =? 10)%Z then 11 else 32))%nat /\
    forall m : list Z,
      Xtoa.ltoa val m radix
      = if (length str <? length m)%nat
        then Some (str ++ 0 :: skipn (S (length str)) m)
        else None.
Proof.
  intros Hv Hr. unfold Xtoa.ltoa.
  rewrite (u16_small radix) by lia.
  destruct (Z.eqb_spec radix 10) as [-> | Hn];
    destruct (Z.ltb_spec val 0) as [Hneg | Hpos]; cbn [andb orb].
  - (* decimal, negative *)
    exists (45 :: map Xtoa.to_char (rev (Xtoa.lsd 32 10 (- val)))).
    destruct (XtoaRead.minus_string (- val)) as (P & F); [lia|].
    cbv zeta in P, F. rewrite Z.opp_involutive in P.
    destruct (Z.leb_spec 0 val); [lia|].
    destruct (XtoaRead.digit_string 10 (- val)) as (_ & _ & _ & K);
      [lia | lia |].
    split_and; [exact P | exact F | |].
    + cbn [length]. apply le_n_S. apply (K 10%nat); lia.
    + intros m. apply XtoaTop.xtoa_minus. lia.
  - (* decimal, non-negative *)
    rewrite XtoaTop.u32_small by lia.
    exists (map Xtoa.to_char (rev (Xtoa.lsd 32 10 val))).
    destruct (XtoaRead.plain_string 10 val) as (P & F); [lia | lia |].
    destruct (XtoaRead.digit_string 10 val) as (_ & _ & _ & K);
      [lia | lia |].
    split_and; [exact P | exact F | |].
    + specialize (K 10%nat). cbv zeta in K. lia.
    + intros m. apply XtoaTop.xtoa_plain; lia.
  - (* another radix, negative: the 32-bit pattern *)
    rewrite XtoaTop.u32_neg by lia.
    destruct (Z.leb_spec 0 val); [lia|].
    exists (map Xtoa.to_char (rev (Xtoa.lsd 32 radix (val + 4294967296)))).
    destruct (XtoaRead.plain_string radix (val + 4294967296)) as (P & F);
      [lia | lia |].
    destruct (XtoaRead.digit_string radix (val + 4294967296))
      as (_ & _ & _ & K); [lia | lia |].
    split_and; [exact P | exact F | |].
    + apply (K 32%nat); lia.
    + intros m. apply XtoaTop.xtoa_plain; lia.
  - (* another radix, non-negative *)
    rewrite XtoaTop.u32_small by lia.
    destruct (Z.leb_spec 0 val); [|lia].
    exists (map Xtoa.to_char (rev (Xtoa.lsd 32 radix val))).
    destruct (XtoaRead.plain_string radix val) as (P & F); [lia | lia |].
    destruct (XtoaRead.digit_string radix val) as (_ & _ & _ & K);
      [lia | lia |].
    split_and; [exact P | exact F | |].
    + apply (K 32%nat); lia.
    + intros m. apply XtoaTop.xtoa_plain; lia.
Qed.

Lemma ltoa_writes_the_number_witness :
  exists str : list Z,
    Xtoa.parse_signed 10 str = Some (-42) /\
    Forall (fun c => c <> 0) str /\
    (length str <= 11)%nat /\
    forall m : list Z,
      Xtoa.ltoa (-42) m 10
      = if (length str <? length m)%nat
        then Some (str ++ 0 :: skipn (S (length str)) m)
        else None.
Proof.
  apply (ltoa_writes_the_number (-42) 10); lia.
Defined.

(** X20.  [itoa] of thermo.c.  For an [int] and a radix from 2 to 36,
    [itoa] writes a string that depends on the number and the radix
    only, followed by a NUL, when the memory has room for both, and
    leaves the memory when it has not.  The string reads back as the
    number in decimal; in another radix a negative number is written
    without sign, as its 16-bit pattern.  The string has at most 6
    characters in decimal and 16 otherwise. *)
Theorem itoa_writes_the_number (val radix : Z) :
  -32768 <= val < 32768 -> 2 <= radix <= 36 ->
  exists str : list Z,
    Xtoa.parse_signed radix str
    = Some (if (radix =? 10) || (0 <=? val) then val else val + 65536) /\
    Forall (fun c => c <> 0) str /\
    (length str <= (if (radix =? 10)%Z then 6 else 16))%nat /\
    forall m : list Z,
      Xtoa.itoa val m radix
      = if (length str <? length m)%nat
        then Some (str ++ 0 :: skipn (S (length str)) m)
        else None.
Proof.
  intros Hv Hr. unfold Xtoa.itoa.
  rewrite (u16_small radix) by lia.
  destruct (Z.eqb_spec radix 10) as [-> | Hn];
    destruct (Z.ltb_spec val 0) as [Hneg | Hpos]; cbn [andb orb].
  - (* decimal, negative *)
    exists (45 :: map Xtoa.to_char (rev (Xtoa.lsd 32 10 (- val)))).
    destruct (XtoaRead.minus_string (- val)) as (P & F); [lia|].
    cbv zeta in P, F. rewrite Z.opp_involutive in P.
    destruct (Z.leb_spec 0 val); [lia|].
    destruct (XtoaRead.digit_string 10 (- val)) as (_ & _ & _ & K);
      [lia | lia |].
    split_and; [exact P | exact F | |].
    + cbn [length]. apply le_n_S. apply (K 5%nat); lia.
    + intros m. apply XtoaTop.xtoa_minus. lia.
  - (* decimal, non-negative *)
    rewrite (u16_small val), XtoaTop.u32_small by lia.
    exists (map Xtoa.to_char (rev (Xtoa.lsd 32 10 val))).
    destruct (XtoaRead.plain_string 10 val) as (P & F); [lia | lia |].
    destruct (XtoaRead.digit_string 10 val) as (_ & _ & _ & K);
      [lia | lia |].
    split_and; [exact P | exact F | |].
    + specialize (K 5%nat). cbv zeta in K. lia.
    + intros m. apply XtoaTop.xtoa_plain; lia.
  - (* another radix, negative: the 16-bit pattern *)
    assert (E : u16 val = val + 65536).
    { unfold u16. rewrite <- (Z.mod_add val 1 65536) by lia.
      apply Z.mod_small. lia. }
    rewrite E, XtoaTop.u32_small by lia.
    destruct (Z.leb_spec 0 val); [lia|].
    exists (map Xtoa.to_char (rev (Xtoa.lsd 32 radix (val + 65536)))).
    destruct (XtoaRead.plain_string radix (val + 65536)) as (P & F);
      [lia | lia |].
    destruct (XtoaRead.digit_string radix (val + 65536))
      as (_ & _ & _ & K); [lia | lia |].
    split_and; [exact P | exact F | |].
    + apply (K 16%nat); lia.
    + intros m. apply XtoaTop.xtoa_plain; lia.
  - (* another radix, non-negative *)
    rewrite (u16_small val), XtoaTop.u32_small by lia.
    destruct (Z.leb_spec 0 val); [|lia].
    exists (map Xtoa.to_char (rev (Xtoa.lsd 32 radix val))).
    destruct (XtoaRead.plain_string radix val) as (P & F); [lia | lia |].
    destruct (XtoaRead.digit_string radix val) as (_ & _ & _ & K);
      [lia | lia |].
    split_and; [exact P | exact F | |].
    + apply (K 16%nat); lia.
    + intros m. apply XtoaTop.xtoa_plain; lia.
Qed.

Lemma itoa_writes_the_number_witness :
  exists str : list Z,
    Xtoa.parse_signed 16 str = Some (-1 + 65536) /\
    Forall (fun c => c <> 0) str /\
    (length str <= 16)%nat /\
    forall m : list Z,
      Xtoa.itoa (-1) m 16
      = if (length str <? length m)%nat
        then Some (str ++ 0 :: skipn (S (length str)) m)
        else None.
Proof.
  apply (itoa_writes_the_number (-1) 16); lia.
Defined.

(** X21.  The radix 0 and the radix 1.  With the radix 0 [itoa] and
    [ltoa] divide by zero.  With the radix 1 and a number other than 0
    the first loop of [xtoa] never sees the value decrease: the
    routines write beyond any memory, however long. *)
Theorem radix_0_and_1 (val : Z) (m : list Z) :
  Xtoa.ltoa val m 0 = None /\ Xtoa.itoa val m 0 = None /\
  (-2147483648 <= val < 2147483648 -> val <> 0 ->
   Xtoa.ltoa val m 1 = None) /\
  (-32768 <= val < 32768 -> val <> 0 -> Xtoa.itoa val m 1 = None).
Proof.
  assert (R : forall v : Z, 0 < v -> Xtoa.xtoa v m 1 0 = None).
  { intros v Hv. unfold Xtoa.xtoa, Xtoa.xtoa_with. change (nonzero 0) with false.
    cbv iota zeta. change (1 =? 0) with false. cbv iota.
    now rewrite XtoaLoops.digits_loop_radix_1. }
  split_and.
  - unfold Xtoa.ltoa. change (0 =? 10) with false. cbn [andb].
    unfold Xtoa.xtoa, Xtoa.xtoa_with. change (nonzero 0) with false. reflexivity.
  - unfold Xtoa.itoa. change (0 =? 10) with false. cbn [andb].
    unfold Xtoa.xtoa, Xtoa.xtoa_with. change (nonzero 0) with false. reflexivity.
  - intros Hv Hz. unfold Xtoa.ltoa. change (1 =? 10) with false.
    cbn [andb]. change (u16 1) with 1. apply R.
    destruct (Z.ltb_spec val 0).
    + rewrite XtoaTop.u32_neg by lia. lia.
    + rewrite XtoaTop.u32_small by lia. lia.
  - intros Hv Hz. unfold Xtoa.itoa. change (1 =? 10) with false.
    cbn [andb]. change (u16 1) with 1. apply R.
    assert (0 < u16 val < 65536).
    { unfold u16. destruct (Z.ltb_spec val 0).
      - rewrite <- (Z.mod_add val 1 65536) by lia.
        rewrite Z.mod_small by lia. lia.
      - rewrite Z.mod_small by lia. lia. }
    rewrite XtoaTop.u32_small by lia. lia.
Qed.

Lemma radix_0_and_1_witness :
  Xtoa.ltoa 5 [1; 2; 3; 4] 1 = None /\ Xtoa.itoa (-5) [1; 2; 3; 4] 1 = None.
Proof.
  destruct (radix_0_and_1 5 [1; 2; 3; 4]) as (_ & _ & A & _).
  destruct (radix_0_and_1 (-5) [1; 2; 3; 4]) as (_ & _ & _ & B).
  split; [apply A | apply B]; lia.
Defined.

(** ** The arm of pwmtest2.c and the arm of rf_motor.c *)

Module ArmSimFacts.
Import ArmSim Pwmtest2Facts.

Ltac sim_consts :=
  unfold Pwmtest2.PWM1_MAXSTEP, Pwmtest2.PWMINITIALVALUE, Pwmtest2.POSIT1,
    Pwmtest2.POSIT2, Pwmtest2.SPEED, Pwmtest2.RESET, Pwmtest2.POSIT,
    Pwmtest2.POSITOLD, Pwmtest2.MOVINGUP, Pwmtest2.MOVINGDOWN,
    Pwmtest2.WAITINGUP, Pwmtest2.WAITINGDOWN, Pwmtest2.INCREASE,
    Pwmtest2.DECREASE in *.

Ltac cases5 st :=
  let H := fresh in
  assert (H : st = 0 \/ st = 1 \/ st = 2 \/ st = 3 \/ st = 4) by lia;
  destruct H as [-> | [-> | [-> | [-> | ->]]]].

Lemma detect_switch_idle (p1in : Z) (r : state) :
  RfDetState r = IDLE -> detect_switch p1in r = r.
Proof.
  destruct r; simpl. intros ->. reflexivity.
Qed.

Lemma Timer_A_idle (p1in : Z) (r : state) :
  RfDetState r = IDLE ->
  Timer_A p1in r = pwm_management (delay_management r).
Proof.
  intros H. unfold Timer_A. rewrite (detect_switch_idle p1in r H).
  now destruct (Pwm1_State r =? POSIT).
Qed.

Lemma main_body_quiet (b : bool) (r : state) :
  quiet r -> main_body b r = positioning_switch b r.
Proof.
  destruct r; unfold quiet; simpl. intros (-> & -> & -> & ->).
  reflexivity.
Qed.

Lemma receiver_stays_quiet (r : state) (e : Pwmtest2.event) :
  quiet r -> quiet (step r (rf_event e)).
Proof.
  destruct e as [b1 b2|]; cbn [rf_event step].
  - intros Hq. rewrite (main_body_quiet b2 r Hq).
    destruct r; unfold quiet in *; simpl in *.
    destruct Hq as (-> & -> & -> & ->).
    unfold positioning_switch, posit_case; simpl.
    repeat (inner_case_if; simpl); tauto.
  - unfold quiet. intros (A & B & C & D).
    destruct (Timer_A_frame LOW r) as (_ & _ & _ & -> & ->).
    destruct (Timer_A_qualifier LOW r) as (-> & _ & -> & _).
    rewrite (detect_switch_idle LOW r D).
    destruct (Pwm1_State r =? POSIT); tauto.
Qed.

Lemma arm_ok_step (r : state) (e : Pwmtest2.event) :
  quiet r -> arm_ok r -> arm_ok (step r (rf_event e)).
Proof.
  intros Hq. destruct e as [b1 b2|]; cbn [rf_event step].
  - rewrite (main_body_quiet b2 r Hq). clear Hq.
    destruct r; unfold arm_ok; simpl.
    intros (Hs & Hr & Hm). revert Hr Hm.
    unfold positioning_switch, posit_case. rf_consts.
    cases5 Pwm1_State0; simpl; intros Hr Hm;
      repeat (inner_case_if; simpl in * ); bool_hyps;
      split_and; intros; try lia; try discriminate.
  - unfold arm_ok.
    destruct (Timer_A_frame LOW r) as (-> & -> & -> & _). tauto.
Qed.

Lemma same_arm_main (b1 b2 : bool) (p : Pwmtest2.state) (r : state) :
  b1 = false -> same_arm p r -> quiet r -> arm_ok r ->
  same_arm (Pwmtest2.main_body b1 b2 p) (main_body b2 r).
Proof.
  intros -> Hs Hq. rewrite (main_body_quiet b2 r Hq). revert Hs Hq.
  destruct p, r; unfold same_arm, quiet, arm_ok, arm_state; simpl.
  intros (-> & -> & -> & -> & -> & Hb) (-> & _) (Hs & Hr & Hm).
  revert Hr Hm.
  unfold Pwmtest2.main_body, Pwmtest2.s2_switch, Pwmtest2.posit_case,
    Pwmtest2.LED_ON, Pwmtest2.LED_OFF, positioning_switch, posit_case.
  rf_consts. sim_consts.
  cases5 Pwm1_State1; simpl; intros Hr Hm;
    repeat (inner_case_if; simpl in * ); bool_hyps; bits;
    split_and; try reflexivity; try assumption; try lia.
Qed.

Lemma same_arm_timer (p : Pwmtest2.state) (r : state) :
  same_arm p r ->
  same_arm (Pwmtest2.Timer_A p) (pwm_management (delay_management r)).
Proof.
  destruct p, r; unfold same_arm; simpl.
  intros (-> & -> & -> & -> & -> & Hb).
  unfold Pwmtest2.Timer_A, Pwmtest2.PWM1_ON, Pwmtest2.PWM1_OFF,
    delay_management, pwm_management, PWM1_ON, PWM1_OFF, nonzero,
    PWM1_MAXSTEP, Pwmtest2.PWM1_MAXSTEP, BIT2.
  simpl.
  repeat (inner_case_if; simpl in * ); bits;
    split_and; try reflexivity; try assumption; congruence.
Qed.

Lemma same_arm_tick (p : Pwmtest2.state) (r : state) :
  same_arm p r -> quiet r ->
  same_arm (Pwmtest2.Timer_A p) (Timer_A LOW r).
Proof.
  intros H (_ & _ & _ & D). rewrite (Timer_A_idle LOW r D).
  now apply same_arm_timer.
Qed.

Lemma same_arm_run (l : list Pwmtest2.event) :
  forall (p : Pwmtest2.state) (r : state),
    same_arm p r -> quiet r -> arm_ok r ->
    Pwmtest2More.s1_released l = true ->
    same_arm (Pwmtest2.run p l) (run r (map rf_event l)).
Proof.
  induction l as [|e l IH]; intros p r Hs Hq Ha Hr; [exact Hs|].
  cbn [map]. rewrite run_cons.
  change (Pwmtest2.run p (e :: l)) with (Pwmtest2.run (Pwmtest2.step p e) l).
  apply IH.
  - destruct e as [b1 b2|]; cbn [Pwmtest2More.s1_released] in Hr;
      cbn [Pwmtest2.step rf_event step].
    + apply andb_true_iff in Hr. destruct Hr as [Hb _].
      apply negb_true_iff in Hb. now apply same_arm_main.
    + now apply same_arm_tick.
  - now apply receiver_stays_quiet.
  - now apply arm_ok_step.
  - destruct e as [b1 b2|]; cbn [Pwmtest2More.s1_released] in Hr;
      [|exact Hr].
    apply andb_true_iff in Hr. tauto.
Qed.

Lemma rf_of_spec (p : Pwmtest2.state) :
  ArmSim.positioning p = true -> in_band p ->
  same_arm p (rf_of p) /\ quiet (rf_of p) /\ arm_ok (rf_of p).
Proof.
  destruct p; unfold ArmSim.positioning, Pwmtest2More.moving, in_band,
    same_arm, quiet, arm_ok, rf_of, arm_state; simpl.
  rf_consts. sim_consts. intros H (Hr & Hm).
  bool_hyps; subst; simpl; split_and; try reflexivity; try lia;
    intros; try lia; try discriminate;
    try (apply Hm; discriminate); try (apply Hr; reflexivity).
Qed.

End ArmSimFacts.

(** X22.  The arm of pwmtest2.c is the arm of rf_motor.c.  From a state
    of the positioning machine of pwmtest2.c (the mode [POSIT] or a
    motion) within the band of the two positions, in every execution in
    which S1 stays released, the goal, the duty cycle, the PWM counter,
    the delay, the state of the machine and the PWM pin are those of
    rf_motor.c started with the same arm and an idle receiver, and run
    with S2 as its button. *)
Theorem pwmtest2_arm_as_rf_motor (p : Pwmtest2.state)
  (l : list Pwmtest2.event) :
  ArmSim.positioning p = true -> ArmSim.in_band p ->
  Pwmtest2More.s1_released l = true ->
  ArmSim.same_arm (Pwmtest2.run p l)
    (run (ArmSim.rf_of p) (map ArmSim.rf_event l)).
Proof.
  intros Hp Hb Hr.
  destruct (ArmSimFacts.rf_of_spec p Hp Hb) as (A & B & C).
  now apply ArmSimFacts.same_arm_run.
Qed.

Module ArmSimGoal.
Import ArmSim ArmSimFacts.

Lemma p2_alternations_map (l : list Pwmtest2.event) (pending : bool) :
  alternations pending (map rf_event l) = p2_alternations pending l.
Proof.
  revert pending. induction l as [|[b1 b2|] l IH]; intros pending;
    cbn [map rf_event alternations p2_alternations]; [reflexivity | apply IH|].
  destruct pending; now rewrite IH.
Qed.

Lemma s1_released_app (l1 l2 : list Pwmtest2.event) :
  Pwmtest2More.s1_released (l1 ++ l2) = true ->
  Pwmtest2More.s1_released l1 = true.
Proof.
  induction l1 as [|[b1 b2|] l1 IH]; cbn [app Pwmtest2More.s1_released];
    [reflexivity | | exact IH].
  intros H. apply andb_true_iff in H. destruct H as [-> H].
  now rewrite IH.
Qed.

(** The pass of the main loop that finds S2 pressed at rest. *)
Lemma press_at_rest (p : Pwmtest2.state) :
  Pwmtest2.Pwm1_State p = Pwmtest2.POSIT ->
  Pwmtest2.POSIT1 <= Pwmtest2.Pwm1_dc p <= Pwmtest2.POSIT2 ->
  let D := Pwmtest2.Pwm1_dc p in
  let target := if D =? Pwmtest2.POSIT2 then Pwmtest2.POSIT1
                else Pwmtest2.POSIT2 in
  let p1 := Pwmtest2.main_body false true p in
  Pwmtest2.Pwm1_reach p1 = target /\ Pwmtest2.Pwm1_dc p1 = D /\
  Pwmtest2.Pwm1_delay p1 = Pwmtest2.Pwm1_delay p /\
  Pwmtest2.Pwm1_State p1
  = (if target >? D then Pwmtest2.MOVINGUP else Pwmtest2.MOVINGDOWN).
Proof.
  destruct p; simpl. intros -> H.
  unfold Pwmtest2.main_body, Pwmtest2.s2_switch, Pwmtest2.posit_case,
    Pwmtest2.LED_ON, Pwmtest2.LED_OFF. sim_consts. simpl.
  repeat (inner_case_if; simpl in * ); bool_hyps; subst;
    split_and; try reflexivity; try lia.
Qed.

End ArmSimGoal.

(** X23.  Positioning in pwmtest2.c.  In the mode [POSIT], at rest at
    a duty cycle [D] between the two positions, the pass of the main
    loop that finds S2 pressed sets the goal ([POSIT1] from [POSIT2],
    [POSIT2] from anywhere else in the band) and starts the motion;
    then, under every schedule in which S1 stays released and passes of
    the main loop and timer ticks alternate often enough, the machine
    is back at rest in the mode [POSIT] after a prefix of the schedule,
    with the duty cycle at the goal. *)
Theorem pwmtest2_positioning_reaches_goal (p : Pwmtest2.state)
  (l : list Pwmtest2.event) :
  Pwmtest2.Pwm1_State p = Pwmtest2.POSIT ->
  Pwmtest2.POSIT1 <= Pwmtest2.Pwm1_dc p <= Pwmtest2.POSIT2 ->
  is_u16 (Pwmtest2.Pwm1_delay p) ->
  Pwmtest2More.s1_released l = true ->
  let D := Pwmtest2.Pwm1_dc p in
  let target := if D =? Pwmtest2.POSIT2 then Pwmtest2.POSIT1
                else Pwmtest2.POSIT2 in
  let p1 := Pwmtest2.step p (Pwmtest2.EvMain false true) in
  Z.abs (target - D) * (Pwmtest2.SPEED + 2) + 1
  <= ArmSim.p2_alternations false l ->
  Pwmtest2.Pwm1_reach p1 = target /\
  Pwmtest2.Pwm1_dc p1 = D /\
  exists l1 l2 : list Pwmtest2.event,
    l = l1 ++ l2 /\
    Pwmtest2.Pwm1_State (Pwmtest2.run p1 l1) = Pwmtest2.POSIT /\
    Pwmtest2.Pwm1_dc (Pwmtest2.run p1 l1) = target.
Proof.
  intros Hst Hdc Hdl Hrel D target p1 Halt.
  destruct (ArmSimGoal.press_at_rest p Hst Hdc) as (E1 & E2 & E3 & E4).
  fold D in E1, E2, E4. fold target in E1, E4.
  change (Pwmtest2.main_body false true p) with p1 in E1, E2, E3, E4.
  split; [exact E1|]. split; [exact E2|].
  assert (Ht : target = Pwmtest2.POSIT1 \/ target = Pwmtest2.POSIT2)
    by (unfold target; case_if; auto).
  assert (Hpos : ArmSim.positioning p1 = true).
  { unfold ArmSim.positioning, Pwmtest2More.moving. rewrite E4.
    case_if; reflexivity. }
  assert (Hband : ArmSim.in_band p1).
  { unfold ArmSim.in_band. rewrite E1, E4. split.
    - case_if; discriminate.
    - intros _. unfold Pwmtest2.POSIT1, Pwmtest2.POSIT2 in *. lia. }
  destruct (ArmSimFacts.rf_of_spec p1 Hpos Hband) as (A & B & C).
  set (up := target >? D).
  assert (Hinv : motion_inv up (ArmSim.rf_of p1)).
  { unfold motion_inv, phase, going_up, going_down, ArmSim.rf_of; simpl.
    rewrite E1, E2, E3, E4. fold up.
    unfold is_u16 in *. unfold Pwmtest2.POSIT1, Pwmtest2.POSIT2 in *.
    unfold up in *. destruct (Z.gtb_spec target D); simpl;
      split_and; try reflexivity; try lia. }
  assert (Hneed : need false (ArmSim.rf_of p1)
                  <= alternations false (map ArmSim.rf_event l)).
  { rewrite ArmSimGoal.p2_alternations_map.
    unfold need, motion_potential, ArmSim.rf_of; simpl.
    rewrite E1, E2, E4. fold up.
    unfold Pwmtest2.SPEED in Halt. unfold SPEED.
    destruct up; simpl; lia. }
  destruct (motion_terminates up (map ArmSim.rf_event l)
              (ArmSim.rf_of p1) false Hinv Hneed)
    as (l1r & l2r & Hl & _ & Hs & Hd & _).
  apply map_eq_app in Hl. destruct Hl as (l1 & l2 & -> & <- & _).
  exists l1, l2. split; [reflexivity|].
  pose proof (ArmSimFacts.same_arm_run l1 p1 (ArmSim.rf_of p1) A B C
                (ArmSimGoal.s1_released_app l1 l2 Hrel))
    as (_ & S2 & _ & _ & S5 & _).
  rewrite S5, Hs, S2, Hd. split; [reflexivity|].
  unfold ArmSim.rf_of; simpl. exact E1.
Qed.

Lemma pwmtest2_arm_as_rf_motor_witness :
  let p := Pwmtest2.run Pwmtest2.Init
             [Pwmtest2.EvMain true false; Pwmtest2.EvMain false true] in
  let l := [Pwmtest2.EvTick; Pwmtest2.EvMain false false] in
  ArmSim.same_arm (Pwmtest2.run p l)
    (run (ArmSim.rf_of p) (map ArmSim.rf_event l)).
Proof.
  intros p l. apply (pwmtest2_arm_as_rf_motor p l).
  - reflexivity.
  - unfold ArmSim.in_band; simpl.
    unfold Pwmtest2.POSIT, Pwmtest2.POSIT1, Pwmtest2.POSIT2.
    split; intros; [discriminate | lia].
  - reflexivity.
Defined.

Lemma pwmtest2_positioning_reaches_goal_witness :
  let p := Pwmtest2.mkState 36 160 0 Pwmtest2.POSIT 0 0 in
  let p1 := Pwmtest2.step p (Pwmtest2.EvMain false true) in
  exists l1 l2 : list Pwmtest2.event,
    ArmSim.p2_round_robin 3003 = l1 ++ l2 /\
    Pwmtest2.Pwm1_State (Pwmtest2.run p1 l1) = Pwmtest2.POSIT /\
    Pwmtest2.Pwm1_dc (Pwmtest2.run p1 l1) = Pwmtest2.POSIT2.
Proof.
  intros p p1.
  assert (Hdc : Pwmtest2.POSIT1 <= Pwmtest2.Pwm1_dc p <= Pwmtest2.POSIT2)
    by (simpl; unfold Pwmtest2.POSIT1, Pwmtest2.POSIT2; lia).
  assert (Hdl : is_u16 (Pwmtest2.Pwm1_delay p))
    by (simpl; unfold is_u16; lia).
  assert (Hrel : Pwmtest2More.s1_released (ArmSim.p2_round_robin 3003) = true)
    by (vm_compute; reflexivity).
  assert (Halt : Z.abs ((if Pwmtest2.Pwm1_dc p =? Pwmtest2.POSIT2
                         then Pwmtest2.POSIT1 else Pwmtest2.POSIT2)
                        - Pwmtest2.Pwm1_dc p) * (Pwmtest2.SPEED + 2) + 1
                 <= ArmSim.p2_alternations false (ArmSim.p2_round_robin 3003))
    by (vm_compute; discriminate).
  destruct (pwmtest2_positioning_reaches_goal p (ArmSim.p2_round_robin 3003)
              eq_refl Hdc Hdl Hrel Halt)
    as (_ & _ & l1 & l2 & H1 & H2 & H3).
  exists l1, l2. split_and; assumption.
Defined.
